(** * SOFA data pipeline: a shallow embedding of the feed builders and
    enrichers, with the properties of the specification checked on it.

    Each module below embeds one Python source file of the repository.
    External libraries (hashlib, json, re, requests, packaging, datetime)
    are not part of the repository; what the code needs of them is taken
    as a section variable and instantiated where a closed example is run. *)

From Stdlib Require Import String Ascii List ZArith Lia Bool.
From Stdlib Require Import Sorting.Sorted Sorting.Permutation.
From stdpp Require Import gmap strings.
Import ListNotations.

Local Open Scope string_scope.
Local Open Scope list_scope.

(* ===================================================================== *)
(** * Python built-ins used by the sources *)
(* ===================================================================== *)

Module Py.

(** ** Strings *)

(** Truth value of a [str]: the empty string is falsy. *)
Definition truthy (s : string) : bool :=
  match s with EmptyString => false | String _ _ => true end.

(** Truth value of an [Optional[str]] ([None] and [""] are falsy). *)
Definition otruthy (o : option string) : bool :=
  match o with Some s => truthy s | None => false end.

(** [s.startswith(p)] *)
Definition startswith (s p : string) : bool := Strings.String.prefix p s.

(** [s.startswith((p1, p2, ...))] *)
Definition startswith_any (s : string) (ps : list string) : bool :=
  existsb (startswith s) ps.

(** [sep.join(l)] *)
Definition join (sep : string) (l : list string) : string :=
  Strings.String.concat sep l.

(** [x in l] for a list (or a set kept as a list) of strings. *)
Definition mem (x : string) (l : list string) : bool :=
  existsb (Strings.String.eqb x) l.

Lemma mem_In x l : mem x l = true <-> In x l.
Proof.
  unfold mem. rewrite existsb_exists. split.
  - intros (y & Hy & E). apply Strings.String.eqb_eq in E. now subst.
  - intros H. exists x. split; [assumption | apply Strings.String.eqb_refl].
Qed.

Lemma mem_false_In x l : mem x l = false <-> ~ In x l.
Proof.
  rewrite <- mem_In. destruct (mem x l); split; intros; congruence.
Qed.

Lemma truthy_ne s : truthy s = true <-> s <> "".
Proof. destruct s; simpl; split; intros; congruence. Qed.

(** [p in s] for strings. *)
Fixpoint contains (p s : string) : bool :=
  Strings.String.prefix p s
  || match s with EmptyString => false | String _ s' => contains p s' end.

(** [s.endswith(p)] *)
Definition endswith (s p : string) : bool :=
  Strings.String.prefix (String.rev p) (String.rev s).

(** [str.lower] and [str.upper] on ASCII letters; the strings the
    sources apply them to (platform keys, CVE identifiers) are ASCII. *)
Definition lower_ascii (c : ascii) : ascii :=
  let n := nat_of_ascii c in
  if ((65 <=? n) && (n <=? 90))%nat then ascii_of_nat (n + 32) else c.

Definition upper_ascii (c : ascii) : ascii :=
  let n := nat_of_ascii c in
  if ((97 <=? n) && (n <=? 122))%nat then ascii_of_nat (n - 32) else c.

Fixpoint lower (s : string) : string :=
  match s with
  | EmptyString => EmptyString
  | String c s' => String (lower_ascii c) (lower s')
  end.

Fixpoint upper (s : string) : string :=
  match s with
  | EmptyString => EmptyString
  | String c s' => String (upper_ascii c) (upper s')
  end.

(** [s.split(sep)] for a one-character separator. *)
Fixpoint split_go (sep : ascii) (cur : string) (s : string) : list string :=
  match s with
  | EmptyString => [String.rev cur]
  | String c s' =>
      if Ascii.eqb c sep then String.rev cur :: split_go sep EmptyString s'
      else split_go sep (String c cur) s'
  end.

Definition split (sep : ascii) (s : string) : list string :=
  split_go sep EmptyString s.


(** ** Dictionaries

    A Python [dict] keeps its keys in insertion order, and several of
    the sources iterate over one, so a dictionary is an association
    list without repeated keys. *)

Definition dict (V : Type) : Type := list (string * V).

Section Dict.
Context {V : Type}.

Fixpoint dict_get (d : dict V) (k : string) : option V :=
  match d with
  | [] => None
  | (k', v) :: d' => if Strings.String.eqb k k' then Some v else dict_get d' k
  end.

(** [d[k] = v]: overwrite in place, or append a new key. *)
Fixpoint dict_set (d : dict V) (k : string) (v : V) : dict V :=
  match d with
  | [] => [(k, v)]
  | (k', v') :: d' =>
      if Strings.String.eqb k k' then (k', v) :: d'
      else (k', v') :: dict_set d' k v
  end.

(** [del d[k]] / [d.pop(k, None)] *)
Fixpoint dict_del (d : dict V) (k : string) : dict V :=
  match d with
  | [] => []
  | (k', v') :: d' =>
      if Strings.String.eqb k k' then dict_del d' k
      else (k', v') :: dict_del d' k
  end.

Definition dict_keys (d : dict V) : list string := map fst d.

(** [{k: v, **d}] *)
Definition dict_cons_spread (k : string) (v : V) (d : dict V) : dict V :=
  fold_left (fun acc kv => dict_set acc (fst kv) (snd kv)) d [(k, v)].

Lemma dict_keys_set_present d k v :
  In k (dict_keys d) -> dict_keys (dict_set d k v) = dict_keys d.
Proof.
  induction d as [|[k' v'] d IH]; simpl; [tauto|].
  intros H. destruct (Strings.String.eqb k k') eqn:E; simpl; [reflexivity|].
  f_equal. apply IH. destruct H as [H|H]; [|assumption].
  subst. rewrite Strings.String.eqb_refl in E. discriminate.
Qed.

Lemma dict_get_set_eq d k v : dict_get (dict_set d k v) k = Some v.
Proof.
  induction d as [|[k' v'] d IH]; simpl.
  - now rewrite Strings.String.eqb_refl.
  - destruct (Strings.String.eqb k k') eqn:E; simpl; rewrite E; auto.
Qed.

Lemma dict_get_set_ne d k k' v :
  k <> k' -> dict_get (dict_set d k v) k' = dict_get d k'.
Proof.
  intros Hne. induction d as [|[k0 v0] d IH]; simpl.
  - destruct (Strings.String.eqb k' k) eqn:E; [|reflexivity].
    apply Strings.String.eqb_eq in E. congruence.
  - destruct (Strings.String.eqb k k0) eqn:E; simpl.
    + apply Strings.String.eqb_eq in E. subst k0.
      destruct (Strings.String.eqb k' k) eqn:E'; [|reflexivity].
      apply Strings.String.eqb_eq in E'. congruence.
    + now rewrite IH.
Qed.

Lemma dict_del_absent d k : ~ In k (dict_keys d) -> dict_del d k = d.
Proof.
  induction d as [|[k' v'] d IH]; simpl; [reflexivity|].
  intros H. destruct (Strings.String.eqb k k') eqn:E.
  - apply Strings.String.eqb_eq in E. subst. tauto.
  - f_equal. apply IH. tauto.
Qed.

Lemma dict_set_absent d k v :
  ~ In k (dict_keys d) -> dict_set d k v = d ++ [(k, v)].
Proof.
  induction d as [|[k' v'] d IH]; simpl; [reflexivity|].
  intros H. destruct (Strings.String.eqb k k') eqn:E.
  - apply Strings.String.eqb_eq in E. subst. tauto.
  - f_equal. apply IH. tauto.
Qed.
End Dict.

(** [{k: False for k in ks}]: later duplicates of a key are absorbed. *)
Definition dict_fromkeys {V : Type} (ks : list string) (f : string -> V) : dict V :=
  fold_left (fun acc k => dict_set acc k (f k)) ks [].

(** ** The order of strings ([<] on [str] compares code points) *)

Lemma string_ltb_asym a b :
  Strings.String.ltb a b = true -> Strings.String.ltb b a = false.
Proof.
  unfold Strings.String.ltb. rewrite (Strings.String.compare_antisym a b).
  destruct (Strings.String.compare b a); simpl; congruence.
Qed.

Lemma string_ltb_leb a b :
  Strings.String.ltb b a = false <-> Strings.String.leb a b = true.
Proof.
  unfold Strings.String.ltb, Strings.String.leb.
  rewrite (Strings.String.compare_antisym b a).
  destruct (Strings.String.compare a b); simpl; split; congruence.
Qed.

Lemma string_leb_trans a b c :
  Strings.String.leb a b = true -> Strings.String.leb b c = true ->
  Strings.String.leb a c = true.
Proof.
  intros H1 H2. apply Is_true_true.
  change (String.le a c). transitivity b; apply Is_true_true; assumption.
Qed.

Lemma string_ltb_irrefl a : Strings.String.ltb a a = false.
Proof.
  destruct (Strings.String.ltb a a) eqn:E; [|reflexivity].
  now rewrite (string_ltb_asym _ _ E) in E.
Qed.

(** ** Lists *)

Lemma filter_twice {A : Type} (f g : A -> bool) (l : list A) :
  List.filter f (List.filter g l) = List.filter (fun x => g x && f x) l.
Proof.
  induction l as [|a l IH]; simpl; [reflexivity|].
  destruct (g a); simpl; [destruct (f a); simpl; now rewrite IH | assumption].
Qed.

Lemma StronglySorted_weaken {A : Type} (R S : A -> A -> Prop) (l : list A) :
  (forall x y, R x y -> S x y) -> StronglySorted R l -> StronglySorted S l.
Proof.
  intros HRS H. induction H as [|a l Hs IH Hall]; constructor; [assumption|].
  rewrite Forall_forall in Hall |- *. intros y Hy. apply HRS, Hall, Hy.
Qed.

(** ** Sorting

    [list.sort] and [sorted] are stable, also with [reverse=True]
    (elements with equal keys keep their original order).  A stable
    sort is a function of its input, so it is modelled by the stable
    insertion sort.  [lt] is the strict order on keys. *)

Section Sort.
Context {A K : Type} (key : A -> K) (lt : K -> K -> bool).

(** Ascending: [x] goes before the first [y] with [key y >= key x]. *)
Fixpoint insert_asc (x : A) (l : list A) : list A :=
  match l with
  | [] => [x]
  | y :: l' => if lt (key y) (key x) then y :: insert_asc x l' else x :: l
  end.

Definition sorted_asc (l : list A) : list A := fold_right insert_asc [] l.

(** Descending ([reverse=True]): [x] goes before the first [y] with
    [key y <= key x]. *)
Fixpoint insert_desc (x : A) (l : list A) : list A :=
  match l with
  | [] => [x]
  | y :: l' => if lt (key x) (key y) then y :: insert_desc x l' else x :: l
  end.

Definition sorted_desc (l : list A) : list A := fold_right insert_desc [] l.

Lemma insert_asc_perm x l : Permutation (x :: l) (insert_asc x l).
Proof.
  induction l as [|y l IH]; simpl; [reflexivity|].
  destruct (lt (key y) (key x)); [|reflexivity].
  rewrite perm_swap. now apply perm_skip.
Qed.

Lemma sorted_asc_perm l : Permutation l (sorted_asc l).
Proof.
  induction l as [|x l IH]; simpl; [reflexivity|].
  rewrite <- insert_asc_perm. now apply perm_skip.
Qed.

Lemma insert_desc_perm x l : Permutation (x :: l) (insert_desc x l).
Proof.
  induction l as [|y l IH]; simpl; [reflexivity|].
  destruct (lt (key x) (key y)); [|reflexivity].
  rewrite perm_swap. now apply perm_skip.
Qed.

Lemma sorted_desc_perm l : Permutation l (sorted_desc l).
Proof.
  induction l as [|x l IH]; simpl; [reflexivity|].
  rewrite <- insert_desc_perm. now apply perm_skip.
Qed.

(** The relations the two sorts establish between neighbours and,
    when [lt] is transitive on its complement, between any two
    positions. *)
Definition not_after (x y : A) : Prop := lt (key y) (key x) = false.
Definition not_before (x y : A) : Prop := lt (key x) (key y) = false.

Hypothesis lt_asym : forall a b, lt a b = true -> lt b a = false.
Hypothesis nlt_trans :
  forall a b c, lt b a = false -> lt c b = false -> lt c a = false.

Lemma insert_asc_sorted x l :
  StronglySorted not_after l -> StronglySorted not_after (insert_asc x l).
Proof.
  induction l as [|y l IH]; simpl; intros Hs.
  - constructor; [constructor | constructor].
  - inversion Hs as [|? ? Hs' Hall]; subst.
    destruct (lt (key y) (key x)) eqn:E.
    + constructor; [now apply IH|].
      apply (Permutation_Forall (insert_asc_perm x l)).
      constructor; [|assumption].
      unfold not_after. now apply lt_asym.
    + constructor; [assumption|].
      constructor; [exact E|].
      rewrite Forall_forall in Hall |- *. intros z Hz.
      unfold not_after in *. eapply nlt_trans; [exact E | now apply Hall].
Qed.

Lemma sorted_asc_sorted l : StronglySorted not_after (sorted_asc l).
Proof.
  induction l as [|x l IH]; simpl; [constructor|].
  now apply insert_asc_sorted.
Qed.

Lemma insert_desc_sorted x l :
  StronglySorted not_before l -> StronglySorted not_before (insert_desc x l).
Proof.
  induction l as [|y l IH]; simpl; intros Hs.
  - constructor; [constructor | constructor].
  - inversion Hs as [|? ? Hs' Hall]; subst.
    destruct (lt (key x) (key y)) eqn:E.
    + constructor; [now apply IH|].
      apply (Permutation_Forall (insert_desc_perm x l)).
      constructor; [|assumption].
      unfold not_before. now apply lt_asym.
    + constructor; [assumption|].
      constructor; [exact E|].
      rewrite Forall_forall in Hall |- *. intros z Hz.
      unfold not_before in *.
      specialize (Hall z Hz). eapply nlt_trans; [exact Hall | exact E].
Qed.

Lemma sorted_desc_sorted l : StronglySorted not_before (sorted_desc l).
Proof.
  induction l as [|x l IH]; simpl; [constructor|].
  now apply insert_desc_sorted.
Qed.
End Sort.

End Py.

(* ===================================================================== *)
(** * fetchers/kev_fetcher.py: the CISA KEV catalog *)
(* ===================================================================== *)

Module KevFetcher.
Import Py.

(** The fields of [KEVFetcher] the code below reads or writes.
    [kev_set] is a Python [set] used for membership only; [loads]
    counts the calls of [load_kev_catalog] made so far. *)
Record t := {
  kev_set : gset string;
  catalog : option (list string);
  loads : nat
}.

(** [KEVFetcher.__init__] *)
Definition init : t := {| kev_set := ∅; catalog := None; loads := 0 |}.

Section World.
(** The outcome of the n-th call of [load_kev_catalog], which reads
    the cache file and, failing that, the CISA endpoint: [Some ids]
    when a catalog was obtained ([ids] are the [cveID]s of its
    [vulnerabilities]), [None] when neither source gave one. *)
Variable world : nat -> option (list string).

(** [load_kev_catalog]: both [_load_from_cache] and
    [_fetch_from_cisa] assign [kev_set] exactly when they return a
    catalog; a failed load leaves [kev_set] as it was and sets
    [catalog] to [None]. *)
Definition load_kev_catalog (st : t) : bool * t :=
  match world (loads st) with
  | Some ids =>
      (true, {| kev_set := list_to_set ids; catalog := Some ids;
                loads := S (loads st) |})
  | None =>
      (false, {| kev_set := kev_set st; catalog := None;
                 loads := S (loads st) |})
  end.

(** [is_kev] *)
Definition is_kev (st : t) (cve_id : string) : bool * t :=
  if decide (kev_set st = ∅) then
    let '(ok, st1) := load_kev_catalog st in
    if ok then (bool_decide (cve_id ∈ kev_set st1), st1)
    else (false, st1)
  else (bool_decide (cve_id ∈ kev_set st), st).

(** The loop of [enrich_cves_with_kev] over the keys of
    [enriched], which it updates in place. *)
Fixpoint enrich_loop (st : t) (keys : list string) (enriched : dict bool)
  : dict bool * t :=
  match keys with
  | [] => (enriched, st)
  | cve_id :: rest =>
      match dict_get enriched cve_id with
      | Some true => enrich_loop st rest enriched
      | _ =>
          let '(hit, st1) := is_kev st cve_id in
          if hit then enrich_loop st1 rest (dict_set enriched cve_id true)
          else enrich_loop st1 rest enriched
      end
  end.

(** [enrich_cves_with_kev] *)
Definition enrich_cves_with_kev (st : t) (cves : dict bool) : dict bool * t :=
  let '(ok, st1) := load_kev_catalog st in
  if ok then enrich_loop st1 (dict_keys cves) cves
  else (cves, st1).

(** *** Facts about the loop *)

Lemma is_kev_hit st k st' :
  is_kev st k = (true, st') -> k ∈ kev_set st'.
Proof.
  unfold is_kev, load_kev_catalog.
  destruct (decide (kev_set st = ∅)).
  - destruct (world (loads st)); intros H; inversion H; subst; simpl.
    + now apply bool_decide_eq_true in H1.
  - intros H. inversion H; subst. now apply bool_decide_eq_true in H1.
Qed.

Lemma is_kev_stable st k b st' :
  is_kev st k = (b, st') -> kev_set st <> ∅ -> kev_set st' = kev_set st.
Proof.
  unfold is_kev. destruct (decide (kev_set st = ∅)); [congruence|].
  intros H _. now inversion H.
Qed.

Lemma enrich_loop_stable keys : forall st d d' st',
  enrich_loop st keys d = (d', st') ->
  kev_set st <> ∅ -> kev_set st' = kev_set st.
Proof.
  induction keys as [|k keys IH]; simpl; intros st d d' st' H Hne.
  - now inversion H.
  - assert (Hstep : forall dd,
              (let '(hit, st1) := is_kev st k in
               if hit then enrich_loop st1 keys (dict_set dd k true)
               else enrich_loop st1 keys dd) = (d', st') ->
              kev_set st' = kev_set st).
    { intros dd. destruct (is_kev st k) as [hit st1] eqn:E.
      pose proof (is_kev_stable _ _ _ _ E Hne) as Hs.
      destruct hit; intros H'; apply IH in H'; congruence. }
    destruct (dict_get d k) as [[|]|]; eauto.
Qed.

Lemma enrich_loop_keys keys : forall st d,
  (forall k, In k keys -> In k (dict_keys d)) ->
  dict_keys (fst (enrich_loop st keys d)) = dict_keys d.
Proof.
  induction keys as [|k keys IH]; simpl; intros st d Hin; [reflexivity|].
  assert (Hk : In k (dict_keys d)) by auto.
  assert (Hstep :
    dict_keys (fst (let '(hit, st1) := is_kev st k in
                    if hit then enrich_loop st1 keys (dict_set d k true)
                    else enrich_loop st1 keys d)) = dict_keys d).
  { destruct (is_kev st k) as [[|] st1]; [|now apply IH; auto].
    rewrite IH; rewrite dict_keys_set_present; auto. }
  destruct (dict_get d k) as [[|]|]; auto.
Qed.

(** A key that is true stays true. *)
Lemma enrich_loop_true keys : forall st d k,
  dict_get d k = Some true ->
  dict_get (fst (enrich_loop st keys d)) k = Some true.
Proof.
  induction keys as [|k0 keys IH]; simpl; intros st d k Hk; [assumption|].
  assert (Hstep :
    dict_get (fst (let '(hit, st1) := is_kev st k0 in
                   if hit then enrich_loop st1 keys (dict_set d k0 true)
                   else enrich_loop st1 keys d)) k = Some true).
  { destruct (is_kev st k0) as [[|] st1]; [|now apply IH].
    apply IH. destruct (string_dec k0 k) as [->|Hne].
    - apply dict_get_set_eq.
    - now rewrite dict_get_set_ne. }
  destruct (dict_get d k0) as [[|]|]; auto.
Qed.

(** A key that changes to true is in the set the fetcher holds
    when the loop ends. *)
Lemma enrich_loop_flip keys : forall st d k,
  dict_get d k <> Some true ->
  dict_get (fst (enrich_loop st keys d)) k = Some true ->
  k ∈ kev_set (snd (enrich_loop st keys d)).
Proof.
  induction keys as [|k0 keys IH]; simpl; intros st d k Hk Hout.
  - congruence.
  - assert (Hstep :
      dict_get (fst (let '(hit, st1) := is_kev st k0 in
                     if hit then enrich_loop st1 keys (dict_set d k0 true)
                     else enrich_loop st1 keys d)) k = Some true ->
      k ∈ kev_set (snd (let '(hit, st1) := is_kev st k0 in
                     if hit then enrich_loop st1 keys (dict_set d k0 true)
                     else enrich_loop st1 keys d))).
    { destruct (is_kev st k0) as [[|] st1] eqn:E; [|now apply IH].
      destruct (string_dec k0 k) as [->|Hne].
      - intros _. pose proof (is_kev_hit _ _ _ E) as Hin.
        destruct (enrich_loop st1 keys (dict_set d k true)) as [d' st'] eqn:L.
        simpl. erewrite enrich_loop_stable; eauto. set_solver.
      - apply IH. now rewrite dict_get_set_ne. }
    destruct (dict_get d k0) as [[|]|] eqn:G; auto.
Qed.
End World.

(** A world for closed examples: the catalog is always available and
    lists one CVE. *)
Definition world_one (_ : nat) : option (list string) := Some ["CVE-2024-44308"].

(** A world in which no catalog can be obtained. *)
Definition world_down (_ : nat) : option (list string) := None.

Example enrich_example :
  fst (enrich_cves_with_kev world_one init
         [("CVE-2024-44308", false); ("CVE-2024-44309", false);
          ("CVE-2023-42890", true)])
  = [("CVE-2024-44308", true); ("CVE-2024-44309", false);
     ("CVE-2023-42890", true)].
Proof. vm_compute. reflexivity. Qed.

Example enrich_down_example :
  fst (enrich_cves_with_kev world_down init [("CVE-2024-44308", false)])
  = [("CVE-2024-44308", false)].
Proof. reflexivity. Qed.

End KevFetcher.


(* ===================================================================== *)
(** * enrichers/smart_kev_detector.py *)
(* ===================================================================== *)

Module SmartKev.
Import Py.

Inductive ExploitationSource :=
| APPLE_DIRECT | APPLE_TARGETED | APPLE_VERSION_SPECIFIC | CISA_KEV | CROSS_PLATFORM.

Inductive ExploitationConfidence := CONFIRMED | HIGH | MEDIUM | LOW.

Definition source_eqb (a b : ExploitationSource) : bool :=
  match a, b with
  | APPLE_DIRECT, APPLE_DIRECT | APPLE_TARGETED, APPLE_TARGETED
  | APPLE_VERSION_SPECIFIC, APPLE_VERSION_SPECIFIC
  | CISA_KEV, CISA_KEV | CROSS_PLATFORM, CROSS_PLATFORM => true
  | _, _ => false
  end.

Definition confidence_eqb (a b : ExploitationConfidence) : bool :=
  match a, b with
  | CONFIRMED, CONFIRMED | HIGH, HIGH | MEDIUM, MEDIUM | LOW, LOW => true
  | _, _ => false
  end.

(** [ExploitationSource.value] *)
Definition source_value (s : ExploitationSource) : string :=
  match s with
  | APPLE_DIRECT => "apple_direct"
  | APPLE_TARGETED => "apple_targeted"
  | APPLE_VERSION_SPECIFIC => "apple_version_specific"
  | CISA_KEV => "cisa_kev"
  | CROSS_PLATFORM => "cross_platform"
  end.

(** [ExploitationConfidence.value] *)
Definition confidence_value (c : ExploitationConfidence) : string :=
  match c with
  | CONFIRMED => "confirmed" | HIGH => "high" | MEDIUM => "medium" | LOW => "low"
  end.

(** The sources that report exploitation on the platform being
    processed: every source but [cross_platform]. *)
Definition local_source (s : ExploitationSource) : bool :=
  negb (source_eqb s CROSS_PLATFORM).

Lemma source_eqb_eq a b : source_eqb a b = true <-> a = b.
Proof. destruct a, b; simpl; split; intros; congruence. Qed.

(** The dataclass [ExploitationInfo].  [affected_platforms] is a Python
    [set]; where the code iterates over it (the join of the
    cross-platform note) the order Python gives is unspecified, and the
    model takes the one of [elements]. *)
Record ExploitationInfo := {
  cve_id : string;
  is_exploited : bool;
  confidence : ExploitationConfidence;
  sources : list ExploitationSource;
  affected_platforms : gset string;
  targeted_versions : option (list string);
  is_targeted_attack : bool;
  is_physical_attack : bool;
  notes : option string;
  raw_text : option string
}.

(** The metadata dictionary of an [APPLE_PATTERNS] row; a key the row
    does not have reads as its [.get] default. *)
Record PatternMeta := {
  md_is_exploited : bool;
  md_is_targeted_attack : bool;
  md_is_physical_attack : bool;
  md_extract_version : bool;
  md_notes : option string
}.

Definition meta (e t p x : bool) (n : option string) : PatternMeta :=
  {| md_is_exploited := e; md_is_targeted_attack := t;
     md_is_physical_attack := p; md_extract_version := x; md_notes := n |}.

Definition APPLE_PATTERNS
  : list (string * ExploitationSource * ExploitationConfidence * PatternMeta) :=
  [ ("Apple is aware of a report that this issue may have been exploited",
     APPLE_DIRECT, CONFIRMED, meta true false false false None);
    ("Apple is aware of a report that this issue may have been actively exploited",
     APPLE_DIRECT, CONFIRMED, meta true false false false None);
    ("exploited in an extremely sophisticated attack against specific targeted individuals",
     APPLE_TARGETED, CONFIRMED, meta true true false false None);
    ("actively exploited against versions of (iOS|iPadOS|macOS|watchOS|tvOS|visionOS) (?:released )?before (?:iOS |iPadOS |macOS |watchOS |tvOS |visionOS )?([\d\.]+)",
     APPLE_VERSION_SPECIFIC, CONFIRMED, meta true false false true None);
    ("A physical attack may.*Apple is aware of a report that this issue may have been exploited",
     APPLE_DIRECT, CONFIRMED, meta true false true false None);
    ("This is a supplementary fix for an attack that was blocked",
     APPLE_DIRECT, HIGH,
     meta true false false false (Some "Supplementary fix for previously blocked attack")) ].

(** A match object: [group(0)] and [groups()]. *)
Record Match := { group0 : string; groups : list string }.

(** The detector: the CISA set and the Apple findings kept for the
    cross-platform check. *)
Record t := {
  cisa_kevs : gset string;
  apple_exploited : gmap string ExploitationInfo
}.

Definition blank_info (cve : string) (platform : string) : ExploitationInfo :=
  {| cve_id := cve; is_exploited := false; confidence := LOW; sources := [];
     affected_platforms := {[ platform ]}; targeted_versions := None;
     is_targeted_attack := false; is_physical_attack := false;
     notes := None; raw_text := None |}.

Section Regex.
(** [re.search(pattern, text, re.IGNORECASE | re.DOTALL)] *)
Variable re_search : string -> string -> option Match.

(** One round of the loop of [detect_apple_exploitation]. *)
Definition apply_pattern (text : string) (info : ExploitationInfo)
  (row : string * ExploitationSource * ExploitationConfidence * PatternMeta)
  : ExploitationInfo :=
  let '(pattern, source, conf, md) := row in
  match re_search pattern text with
  | None => info
  | Some m =>
      let extracted :=
        if md_extract_version md && (2 <=? length (groups m))%nat then
          let affected_os := nth 0 (groups m) "" in
          let affected_version := nth 1 (groups m) "" in
          if truthy affected_version then
            Some (affected_os, affected_os +:+ " " +:+ affected_version)
          else None
        else None in
      {| cve_id := cve_id info;
         is_exploited := md_is_exploited md;
         confidence := conf;
         sources := sources info ++ [source];
         affected_platforms :=
           match extracted with
           | Some (os, _) => affected_platforms info ∪ {[ os ]}
           | None => affected_platforms info
           end;
         targeted_versions :=
           match extracted with
           | Some (_, v) => Some [v]
           | None => targeted_versions info
           end;
         is_targeted_attack := md_is_targeted_attack md;
         is_physical_attack := md_is_physical_attack md;
         notes := match md_notes md with Some n => Some n | None => notes info end;
         raw_text := Some (substring 0 200 (group0 m)) |}
  end.

(** [detect_apple_exploitation] *)
Definition detect_apple_exploitation (cve : string) (text : string)
  (platform : string) : option ExploitationInfo :=
  let info := fold_left (apply_pattern text) APPLE_PATTERNS (blank_info cve platform) in
  if is_exploited info then Some info else None.

(** [check_cross_platform_exploitation] *)
Definition check_cross_platform_exploitation (st : t) (cve : string)
  (current_platform : string) : option ExploitationInfo :=
  match apple_exploited st !! cve with
  | Some existing_info =>
      if decide (current_platform ∈ affected_platforms existing_info) then None
      else Some
        {| cve_id := cve; is_exploited := false; confidence := MEDIUM;
           sources := [CROSS_PLATFORM];
           affected_platforms := {[ current_platform ]};
           targeted_versions := None;
           is_targeted_attack := false; is_physical_attack := false;
           notes := Some ("Known exploited on: " +:+
                          join ", " (elements (affected_platforms existing_info)));
           raw_text := None |}
  | None => None
  end.

(** The CISA step of [get_exploitation_status]. *)
Definition cisa_upgrade (info : ExploitationInfo) : ExploitationInfo :=
  {| cve_id := cve_id info;
     is_exploited := true;
     confidence := if confidence_eqb (confidence info) CONFIRMED
                   then confidence info else HIGH;
     sources := if existsb (source_eqb CISA_KEV) (sources info)
                then sources info else sources info ++ [CISA_KEV];
     affected_platforms := affected_platforms info;
     targeted_versions := targeted_versions info;
     is_targeted_attack := is_targeted_attack info;
     is_physical_attack := is_physical_attack info;
     notes := notes info;
     raw_text := raw_text info |}.

(** What the Apple text contributes: the finding, if there is one. *)
Definition apple_finding (cve : string) (apple_text : option string)
  (platform : string) : option ExploitationInfo :=
  match apple_text with
  | Some text =>
      if truthy text then detect_apple_exploitation cve text platform else None
  | None => None
  end.

(** [get_exploitation_status].  The object stored in
    [apple_exploited] is the very object the CISA step then mutates,
    so the store holds the record as it is after that step. *)
Definition get_exploitation_status (st : t) (cve : string)
  (apple_text : option string) (platform : string) : ExploitationInfo * t :=
  let found := apple_finding cve apple_text platform in
  let info1 := match found with Some a => a | None => blank_info cve platform end in
  let info2 := if decide (cve ∈ cisa_kevs st) then cisa_upgrade info1 else info1 in
  let st' :=
    match found with
    | Some _ => {| cisa_kevs := cisa_kevs st;
                   apple_exploited := <[ cve := info2 ]> (apple_exploited st) |}
    | None => st
    end in
  if is_exploited info2 then (info2, st')
  else match check_cross_platform_exploitation st' cve platform with
       | Some cross_info => (cross_info, st')
       | None => (info2, st')
       end.

(** *** Invariants of the detection loop *)

Definition rows_local
  (rows : list (string * ExploitationSource * ExploitationConfidence * PatternMeta))
  : Prop :=
  Forall (fun row => local_source (snd (fst (fst row))) = true) rows.

Definition info_ok (i : ExploitationInfo) : Prop :=
  Forall (fun s => local_source s = true) (sources i) /\
  (is_exploited i = true -> sources i <> []).

Lemma apply_pattern_ok text i row :
  local_source (snd (fst (fst row))) = true -> info_ok i ->
  info_ok (apply_pattern text i row).
Proof.
  destruct row as [[[p s] c] md]. simpl. intros Hs [Hall Hne].
  unfold apply_pattern. destruct (re_search p text) as [m|]; [|now split].
  split; simpl.
  - apply Forall_app. split; [assumption | now constructor].
  - intros _ E. now apply app_eq_nil in E as [_ ?].
Qed.

Lemma fold_patterns_ok text rows : forall i,
  rows_local rows -> info_ok i ->
  info_ok (fold_left (apply_pattern text) rows i).
Proof.
  induction rows as [|row rows IH]; simpl; intros i Hr Hi; [assumption|].
  inversion Hr; subst. apply IH; [assumption|]. now apply apply_pattern_ok.
Qed.

Lemma APPLE_PATTERNS_local : rows_local APPLE_PATTERNS.
Proof. unfold rows_local, APPLE_PATTERNS. repeat constructor. Qed.

Lemma detect_ok cve text platform a :
  detect_apple_exploitation cve text platform = Some a ->
  is_exploited a = true /\ info_ok a.
Proof.
  unfold detect_apple_exploitation.
  set (i := fold_left _ _ _).
  assert (Hi : info_ok i).
  { apply fold_patterns_ok; [apply APPLE_PATTERNS_local|].
    split; simpl; [constructor | discriminate]. }
  destruct (is_exploited i) eqn:E; [|discriminate].
  intros H. inversion H; subst. auto.
Qed.

Lemma cisa_upgrade_sources i : In CISA_KEV (sources (cisa_upgrade i)).
Proof.
  unfold cisa_upgrade. simpl.
  destruct (existsb (source_eqb CISA_KEV) (sources i)) eqn:E.
  - apply existsb_exists in E as (s & Hs & E). apply source_eqb_eq in E.
    now subst.
  - apply in_or_app. right. now left.
Qed.

Lemma cisa_upgrade_confidence i :
  (confidence i = CONFIRMED -> confidence (cisa_upgrade i) = CONFIRMED) /\
  (confidence i <> CONFIRMED -> confidence (cisa_upgrade i) = HIGH).
Proof.
  unfold cisa_upgrade. simpl. destruct (confidence i); simpl; split; congruence.
Qed.

End Regex.

(** A stand-in for [re.search] in closed examples: literal,
    case-sensitive search of the pattern text, with no groups. *)
Definition literal_search (pattern text : string) : option Match :=
  if Py.contains pattern text then Some {| group0 := pattern; groups := [] |}
  else None.

End SmartKev.


(* ===================================================================== *)
(** * enrichers/enrich_with_smart_kev.py *)
(* ===================================================================== *)

Module SmartKevEnricher.
Import Py SmartKev.

(** The dictionary [create_feed_entry] builds; an optional key that is
    left out is [None] (or [false] for the two flags, which are only
    ever written as [True]). *)
Record FeedEntry := {
  fe_cve : string;
  fe_exploited : bool;
  fe_exploitation_confidence : string;
  fe_exploitation_sources : list string;
  fe_affected_platforms : option (list string);
  fe_targeted_attack : bool;
  fe_physical_attack : bool;
  fe_targeted_versions : option (list string);
  fe_exploitation_notes : option string
}.

(** [SmartKEVDetector.create_feed_entry] *)
Definition create_feed_entry (info : ExploitationInfo) : FeedEntry :=
  {| fe_cve := cve_id info;
     fe_exploited := is_exploited info;
     fe_exploitation_confidence := confidence_value (confidence info);
     fe_exploitation_sources := map source_value (sources info);
     fe_affected_platforms :=
       match elements (affected_platforms info) with
       | [] => None
       | l => Some l
       end;
     fe_targeted_attack := is_targeted_attack info;
     fe_physical_attack := is_physical_attack info;
     fe_targeted_versions :=
       match targeted_versions info with
       | Some (v :: vs) => Some (v :: vs)
       | _ => None
       end;
     fe_exploitation_notes :=
       match notes info with
       | Some n => if truthy n then Some n else None
       | None => None
       end |}.

(** The accumulators of the loop of [enrich_release]. *)
Record Acc := {
  acc_actively_exploited : list string;
  acc_cross_platform_warnings : list (string * option string);
  acc_cisa_kevs : list string;
  acc_exploitation_details : dict FeedEntry
}.

Definition acc0 : Acc :=
  {| acc_actively_exploited := []; acc_cross_platform_warnings := [];
     acc_cisa_kevs := []; acc_exploitation_details := [] |}.

(** The fields [enrich_release] adds to the copy of the release.  The
    two rate fields are rounded floating-point percentages and are not
    modelled. *)
Record Enriched := {
  actively_exploited_cves : list string;
  actively_exploited_count : nat;
  cisa_kevs_field : option (list string);
  cross_platform_exploitation_warnings : option (list (string * option string));
  exploitation_details : option (dict FeedEntry)
}.

Section Regex.
Variable re_search : string -> string -> option Match.

(** One round of the loop: the detector is asked with no Apple text. *)
Definition enrich_step (platform : string) (sa : SmartKev.t * Acc) (cve : string)
  : SmartKev.t * Acc :=
  let '(st, acc) := sa in
  let '(info, st') := get_exploitation_status re_search st cve None platform in
  let entry := create_feed_entry info in
  let values := map source_value (sources info) in
  (st',
   {| acc_actively_exploited :=
        if is_exploited info then acc_actively_exploited acc ++ [cve]
        else acc_actively_exploited acc;
      acc_cross_platform_warnings :=
        if mem "cross_platform" values
        then acc_cross_platform_warnings acc ++ [(cve, notes info)]
        else acc_cross_platform_warnings acc;
      acc_cisa_kevs :=
        if mem "cisa_kev" values then acc_cisa_kevs acc ++ [cve]
        else acc_cisa_kevs acc;
      acc_exploitation_details :=
        dict_set (acc_exploitation_details acc) cve entry |}).

(** [SmartKEVEnricher.enrich_release] *)
Definition enrich_release (st : SmartKev.t) (cves : list string) (platform : string)
  : Enriched * SmartKev.t :=
  let '(st', acc) := fold_left (enrich_step platform) cves (st, acc0) in
  ({| actively_exploited_cves := acc_actively_exploited acc;
      actively_exploited_count := length (acc_actively_exploited acc);
      cisa_kevs_field :=
        match acc_cisa_kevs acc with
        | [] => None
        | l => if decide ((list_to_set l : gset string)
                          = list_to_set (acc_actively_exploited acc))
               then None else Some l
        end;
      cross_platform_exploitation_warnings :=
        match acc_cross_platform_warnings acc with
        | [] => None
        | l => Some l
        end;
      exploitation_details :=
        match acc_exploitation_details acc with
        | [] => None
        | d => Some d
        end |}, st').

(** With no Apple text the detector's state does not change. *)
Lemma status_no_text_state st cve platform :
  snd (get_exploitation_status re_search st cve None platform) = st.
Proof.
  unfold get_exploitation_status. simpl.
  destruct (decide (cve ∈ cisa_kevs st)); simpl; [reflexivity|].
  destruct (check_cross_platform_exploitation st cve platform); reflexivity.
Qed.

(** What is in the exploited list was put there by a round of the loop
    whose record said [is_exploited]. *)
Lemma enrich_fold_exploited platform cves : forall st acc cve,
  In cve (acc_actively_exploited
            (snd (fold_left (enrich_step platform) cves (st, acc)))) ->
  In cve (acc_actively_exploited acc) \/
  (In cve cves /\
   is_exploited (fst (get_exploitation_status re_search st cve None platform)) = true).
Proof.
  induction cves as [|c cves IH]; simpl; intros st acc cve H; [now left|].
  pose proof (status_no_text_state st c platform) as Hs.
  destruct (get_exploitation_status re_search st c None platform) as [info st'] eqn:E.
  simpl in Hs. subst st'.
  apply IH in H as [H|[H1 H2]]; [|right; tauto].
  simpl in H. destruct (is_exploited info) eqn:Ex; [|now left].
  apply in_app_or in H as [H|[<-|[]]]; [now left|].
  right. split; [now left|]. now rewrite E.
Qed.

(** A record the loop adds to the warnings is never added to the
    exploited list in the same round. *)
Lemma enrich_fold_warning platform cves : forall st acc cve note,
  In (cve, note) (acc_cross_platform_warnings
            (snd (fold_left (enrich_step platform) cves (st, acc)))) ->
  In (cve, note) (acc_cross_platform_warnings acc) \/
  (In cve cves /\
   In CROSS_PLATFORM
      (sources (fst (get_exploitation_status re_search st cve None platform))) /\
   notes (fst (get_exploitation_status re_search st cve None platform)) = note).
Proof.
  induction cves as [|c cves IH]; simpl; intros st acc cve note H; [now left|].
  pose proof (status_no_text_state st c platform) as Hs.
  destruct (get_exploitation_status re_search st c None platform) as [info st'] eqn:E.
  simpl in Hs. subst st'.
  apply IH in H as [H|[H1 H2]]; [|right; split; [now right | exact H2]].
  simpl in H.
  destruct (mem "cross_platform" (map source_value (sources info))) eqn:M; [|now left].
  apply in_app_or in H as [H|[H|[]]]; [now left|].
  inversion H; subst. right. split; [now left|]. rewrite E. simpl. split; [|reflexivity].
  apply mem_In in M. apply in_map_iff in M as (s & Hv & Hs).
  destruct s; simpl in Hv; try discriminate. exact Hs.
Qed.
End Regex.

End SmartKevEnricher.


(* ===================================================================== *)
(** * utils/kev_policy.py *)
(* ===================================================================== *)

Module KevPolicy.
Import Py.

Inductive ExploitationLevel :=
| ACTIVELY_EXPLOITED | EXPLOITATION_WARNING | TARGETED_ATTACK
| PHYSICAL_ATTACK | NO_EXPLOITATION.

(** [KEVPolicy.should_mark_as_exploited]; [platform] is the policy's
    field. *)
Definition should_mark_as_exploited (platform : string)
  (cve_platforms : gset string) (is_cisa_kev : bool)
  (apple_categories : list string) : bool :=
  if bool_decide (platform ∈ cve_platforms) then true
  else if is_cisa_kev && bool_decide (platform ∈ cve_platforms) then true
  else false.

(** [KEVPolicy.get_exploitation_level] *)
Definition get_exploitation_level (platform : string)
  (cve_platforms : gset string) (is_cisa_kev : bool)
  (apple_categories : list string) : ExploitationLevel :=
  if should_mark_as_exploited platform cve_platforms is_cisa_kev apple_categories
  then
    if mem "TARGETED_ATTACK" apple_categories then TARGETED_ATTACK
    else if mem "PHYSICAL_ATTACK_EXPLOITED" apple_categories then PHYSICAL_ATTACK
    else ACTIVELY_EXPLOITED
  else if negb (bool_decide (cve_platforms = ∅))
          && negb (bool_decide (platform ∈ cve_platforms))
  then EXPLOITATION_WARNING
  else NO_EXPLOITATION.

(** [KEVPolicy.create_exploitation_note]; [sorted] of a set of
    strings is the ascending list of its elements. *)
Definition create_exploitation_note (platform : string)
  (cve_platforms : gset string) (apple_categories : list string)
  : option string :=
  match get_exploitation_level platform cve_platforms false apple_categories with
  | EXPLOITATION_WARNING =>
      let other_platforms := cve_platforms ∖ {[ platform ]} in
      if bool_decide (other_platforms = ∅) then None
      else Some ("Known exploited on: " +:+
                 join ", " (sorted_asc (fun s => s) Strings.String.ltb
                                       (elements other_platforms)))
  | TARGETED_ATTACK => Some "Exploited in sophisticated targeted attacks"
  | PHYSICAL_ATTACK => Some "Requires physical device access for exploitation"
  | _ => None
  end.

(** An entry of [exploitation_data], each field read with its [.get]
    default. *)
Record CveData := {
  platforms : list string;
  in_cisa_kev : bool;
  categories : list string
}.

Record Lists := {
  actively_exploited : list string;
  exploitation_warnings : list (string * option string);
  targeted_attacks : list string;
  physical_attacks : list string
}.

(** One round of the loop of [enrich_release_entry]. *)
Definition policy_step (platform : string) (exploitation_data : gmap string CveData)
  (acc : Lists) (cve : string) : Lists :=
  match exploitation_data !! cve with
  | None => acc
  | Some cve_data =>
      let cve_platforms : gset string := list_to_set (platforms cve_data) in
      let cats := categories cve_data in
      match get_exploitation_level platform cve_platforms (in_cisa_kev cve_data) cats with
      | ACTIVELY_EXPLOITED =>
          {| actively_exploited := actively_exploited acc ++ [cve];
             exploitation_warnings := exploitation_warnings acc;
             targeted_attacks := targeted_attacks acc;
             physical_attacks := physical_attacks acc |}
      | EXPLOITATION_WARNING =>
          {| actively_exploited := actively_exploited acc;
             exploitation_warnings :=
               exploitation_warnings acc
               ++ [(cve, create_exploitation_note platform cve_platforms cats)];
             targeted_attacks := targeted_attacks acc;
             physical_attacks := physical_attacks acc |}
      | TARGETED_ATTACK =>
          {| actively_exploited := actively_exploited acc ++ [cve];
             exploitation_warnings := exploitation_warnings acc;
             targeted_attacks := targeted_attacks acc ++ [cve];
             physical_attacks := physical_attacks acc |}
      | PHYSICAL_ATTACK =>
          {| actively_exploited := actively_exploited acc ++ [cve];
             exploitation_warnings := exploitation_warnings acc;
             targeted_attacks := targeted_attacks acc;
             physical_attacks := physical_attacks acc ++ [cve] |}
      | NO_EXPLOITATION => acc
      end
  end.

(** [FeedEnrichmentPolicy.enrich_release_entry]: the four lists it
    computes (the release copy receives [actively_exploited] always and
    the other three when they are not empty; the rates are floating
    point and are not modelled). *)
Definition enrich_release_entry (cves : list string) (platform : string)
  (exploitation_data : gmap string CveData) : Lists :=
  fold_left (policy_step platform exploitation_data) cves
    {| actively_exploited := []; exploitation_warnings := [];
       targeted_attacks := []; physical_attacks := [] |}.

Lemma level_marked platform ps k cats :
  get_exploitation_level platform ps k cats = ACTIVELY_EXPLOITED \/
  get_exploitation_level platform ps k cats = TARGETED_ATTACK \/
  get_exploitation_level platform ps k cats = PHYSICAL_ATTACK ->
  platform ∈ ps.
Proof.
  unfold get_exploitation_level, should_mark_as_exploited.
  destruct (bool_decide (platform ∈ ps)) eqn:E.
  - intros _. now apply bool_decide_eq_true in E.
  - rewrite andb_false_r. simpl.
    destruct (negb (bool_decide (ps = ∅))); simpl; intros [H|[H|H]]; discriminate.
Qed.

Lemma level_warning platform ps k cats :
  get_exploitation_level platform ps k cats = EXPLOITATION_WARNING ->
  (platform ∉ ps) /\ ps <> ∅.
Proof.
  unfold get_exploitation_level, should_mark_as_exploited.
  destruct (bool_decide (platform ∈ ps)) eqn:E.
  - destruct (mem _ cats); [discriminate|]. destruct (mem _ cats); discriminate.
  - rewrite andb_false_r. simpl. apply bool_decide_eq_false in E.
    destruct (bool_decide (ps = ∅)) eqn:E2; simpl; [discriminate|].
    apply bool_decide_eq_false in E2. auto.
Qed.

Lemma policy_fold_exploited platform data cves : forall acc cve,
  In cve (actively_exploited (fold_left (policy_step platform data) cves acc)) ->
  In cve (actively_exploited acc) \/
  (In cve cves /\ exists d, data !! cve = Some d /\ platform ∈ platforms d).
Proof.
  induction cves as [|c cves IH]; simpl; intros acc cve H; [now left|].
  apply IH in H as [H|[H1 H2]]; [|right; split; [now right | exact H2]].
  unfold policy_step in H. destruct (data !! c) as [d|] eqn:D; [|now left].
  destruct (get_exploitation_level platform (list_to_set (platforms d))
              (in_cisa_kev d) (categories d)) eqn:L; simpl in H;
    try (now left);
    (apply in_app_or in H as [H|[<-|[]]]; [now left|];
     right; split; [now left|]; exists d; split; [assumption|];
     assert (Hp : platform ∈ (list_to_set (platforms d) : gset string))
       by (eapply level_marked; rewrite L; auto);
     now apply elem_of_list_to_set in Hp).
Qed.

Lemma policy_fold_warning platform data cves : forall acc cve note,
  In (cve, note) (exploitation_warnings (fold_left (policy_step platform data) cves acc)) ->
  In (cve, note) (exploitation_warnings acc) \/
  (In cve cves /\ exists d, data !! cve = Some d /\ platform ∉ platforms d).
Proof.
  induction cves as [|c cves IH]; simpl; intros acc cve note H; [now left|].
  apply IH in H as [H|[H1 H2]]; [|right; split; [now right | exact H2]].
  unfold policy_step in H. destruct (data !! c) as [d|] eqn:D; [|now left].
  destruct (get_exploitation_level platform (list_to_set (platforms d))
              (in_cisa_kev d) (categories d)) eqn:L; simpl in H;
    try (now left).
  apply in_app_or in H as [H|[H|[]]]; [now left|].
  inversion H; subst. right. split; [now left|]. exists d. split; [assumption|].
  apply level_warning in L as [L _]. intros Hp. apply L.
  now apply elem_of_list_to_set.
Qed.

End KevPolicy.


(* ===================================================================== *)
(** * builders/build_complete_feeds.py *)
(* ===================================================================== *)

Module FeedBuilder.
Import Py.

(** JSON values, as [json.dumps] receives them. *)
#[warnings="-register-all"]
Inductive json :=
| JNull
| JBool (b : bool)
| JInt (z : Z)
| JStr (s : string)
| JList (l : list json)
| JDict (d : list (string * json)).

Definition jstrs (l : list string) : json := JList (map JStr l).

Definition jopt (o : option string) : json :=
  match o with Some s => JStr s | None => JNull end.

(** ** GDMF data (models/models.py) *)

Record GDMFAsset := {
  g_ProductVersion : string;
  g_Build : string;
  g_PostingDate : string;
  g_ExpirationDate : option string;
  g_SupportedDevices : list string
}.

Record GDMFData := {
  PublicAssetSets : dict (list GDMFAsset);
  AssetSets : dict (list GDMFAsset)
}.

(** The dictionary [_find_gdmf_match] returns: a copy of the first
    merged asset with [SupportedDevices] replaced and [AllBuilds] added. *)
Record GDMFMatch := {
  m_ProductVersion : string;
  m_Build : string;
  m_PostingDate : string;
  m_ExpirationDate : option string;
  m_SupportedDevices : list string;
  m_AllBuilds : list string
}.

(** [devices and any(d.startswith(prefixes) for d in devices)] *)
Definition has_device (prefixes : list string) (devices : list string) : bool :=
  existsb (fun d => startswith_any d prefixes) devices.

(** The assets one asset set contributes to [all_matches]. *)
Definition matches_in (os_key version : string) (asset_set : dict (list GDMFAsset))
  : list GDMFAsset :=
  let search_key := if mem os_key ["watchOS"; "tvOS"] then "iOS" else os_key in
  let os_assets := match dict_get asset_set search_key with
                   | Some l => l | None => [] end in
  List.filter (fun a =>
            Strings.String.eqb (g_ProductVersion a) version
            && (if Strings.String.eqb os_key "watchOS"
                then has_device ["Watch"] (g_SupportedDevices a)
                else if Strings.String.eqb os_key "tvOS"
                then has_device ["AppleTV"] (g_SupportedDevices a)
                else true))
         os_assets.

Definition all_matches (os_key version : string) (gdmf_data : GDMFData)
  : list GDMFAsset :=
  matches_in os_key version (PublicAssetSets gdmf_data)
  ++ matches_in os_key version (AssetSets gdmf_data).

(** The device family each platform filters on. *)
Definition family (os_key_lower : string) : option (list string) :=
  if Strings.String.eqb os_key_lower "ios" then Some ["iPhone"; "iPad"]
  else if Strings.String.eqb os_key_lower "tvos" then Some ["AppleTV"]
  else if Strings.String.eqb os_key_lower "watchos" then Some ["Watch"]
  else if Strings.String.eqb os_key_lower "visionos" then Some ["RealityDevice"]
  else if Strings.String.eqb os_key_lower "macos" then Some ["Mac"; "MacBook"]
  else None.

Definition filtered_matches (os_key : string) (all : list GDMFAsset)
  : list GDMFAsset :=
  match family (lower os_key) with
  | Some prefixes => List.filter (fun m => has_device prefixes (g_SupportedDevices m)) all
  | None => []
  end.

(** [filtered_matches if filtered_matches else all_matches] *)
Definition matches_to_merge (os_key version : string) (gdmf_data : GDMFData)
  : list GDMFAsset :=
  let all := all_matches os_key version gdmf_data in
  match filtered_matches os_key all with
  | [] => all
  | f => f
  end.

(** The loop that removes duplicates while preserving order. *)
Fixpoint unique_loop (seen : gset string) (unique_devices : list string)
  (all_devices : list string) : list string :=
  match all_devices with
  | [] => unique_devices
  | device :: rest =>
      if bool_decide (device ∈ seen) then unique_loop seen unique_devices rest
      else unique_loop ({[ device ]} ∪ seen) (unique_devices ++ [device]) rest
  end.

(** The loop that collects the builds. *)
Fixpoint builds_loop (all_builds : list string) (matches : list GDMFAsset)
  : list string :=
  match matches with
  | [] => all_builds
  | m :: rest =>
      let build := g_Build m in
      if truthy build && negb (mem build all_builds)
      then builds_loop (all_builds ++ [build]) rest
      else builds_loop all_builds rest
  end.

(** [list.sort] on strings. *)
Definition sort_strings (l : list string) : list string :=
  sorted_asc (fun s => s) Strings.String.ltb l.

(** [_find_gdmf_match] *)
Definition _find_gdmf_match (os_key version : string) (gdmf_data : GDMFData)
  : option GDMFMatch :=
  match all_matches os_key version gdmf_data with
  | [] => None
  | _ :: _ =>
      match matches_to_merge os_key version gdmf_data with
      | [] => None
      | (first :: _) as to_merge =>
          let all_devices := flat_map g_SupportedDevices to_merge in
          Some {| m_ProductVersion := g_ProductVersion first;
                  m_Build := g_Build first;
                  m_PostingDate := g_PostingDate first;
                  m_ExpirationDate := g_ExpirationDate first;
                  m_SupportedDevices := unique_loop ∅ [] all_devices;
                  m_AllBuilds := sort_strings (builds_loop [] to_merge) |}
      end
  end.

(** The representative build [create_legacy_feed] writes to [Latest]. *)
Definition latest_build (gdmf_match : option GDMFMatch) (release_build : option string)
  : string :=
  let all_builds := match gdmf_match with Some m => m_AllBuilds m | None => [] end in
  match all_builds with
  | b :: _ => b
  | [] =>
      if otruthy release_build
      then match release_build with Some b => b | None => "" end
      else match gdmf_match with
           | Some m => if truthy (m_Build m) then m_Build m else ""
           | None => ""
           end
  end.

(** *** The duplicate-free list, stated directly *)

(** Each element kept at its first occurrence. *)
Fixpoint first_seen (l : list string) : list string :=
  match l with
  | [] => []
  | x :: r => x :: List.filter (fun y => negb (Strings.String.eqb x y)) (first_seen r)
  end.

Lemma filter_first_seen_comm (p : string -> bool) l :
  List.filter p (first_seen l) = first_seen (List.filter p l).
Proof.
  induction l as [|a l IH]; simpl; [reflexivity|].
  destruct (p a) eqn:Pa; simpl.
  - f_equal. rewrite <- IH, !filter_twice. apply filter_ext.
    intros y. apply andb_comm.
  - rewrite <- IH, filter_twice. apply filter_ext. intros y.
    destruct (Strings.String.eqb a y) eqn:E; simpl; [|reflexivity].
    apply Strings.String.eqb_eq in E. now subst y.
Qed.

Lemma unique_loop_spec l : forall seen acc,
  unique_loop seen acc l
  = acc ++ first_seen (List.filter (fun y => negb (bool_decide (y ∈ seen))) l).
Proof.
  induction l as [|x l IH]; simpl; intros seen acc.
  - now rewrite app_nil_r.
  - destruct (bool_decide (x ∈ seen)) eqn:E; simpl; [apply IH|].
    rewrite IH, <- app_assoc. simpl. do 2 f_equal.
    rewrite filter_first_seen_comm. f_equal.
    rewrite filter_twice. apply filter_ext. intros y.
    destruct (Strings.String.eqb x y) eqn:Exy; simpl.
    + apply Strings.String.eqb_eq in Exy. subst y.
      rewrite andb_false_r. apply negb_false_iff, bool_decide_eq_true.
      apply elem_of_union_l, elem_of_singleton. reflexivity.
    + apply Strings.String.eqb_neq in Exy. rewrite andb_true_r.
      f_equal. apply bool_decide_ext.
      rewrite elem_of_union, elem_of_singleton. intuition congruence.
Qed.

Lemma unique_loop_first_seen l : unique_loop ∅ [] l = first_seen l.
Proof.
  rewrite unique_loop_spec. simpl. f_equal.
  induction l as [|x l IH]; simpl; [reflexivity|].
  rewrite bool_decide_eq_false_2 by apply not_elem_of_empty. simpl. now f_equal.
Qed.

Lemma first_seen_In l x : In x (first_seen l) <-> In x l.
Proof.
  induction l as [|a l IH]; simpl; [tauto|].
  rewrite filter_In, IH. split.
  - tauto.
  - intros [->|H]; [now left|].
    destruct (string_dec a x) as [->|Hne]; [now left|].
    right. split; [assumption|]. apply Strings.String.eqb_neq in Hne.
    now rewrite Hne.
Qed.

Lemma first_seen_NoDup l : List.NoDup (first_seen l).
Proof.
  induction l as [|a l IH]; [constructor|].
  change (first_seen (a :: l))
    with (a :: List.filter (fun y => negb (Strings.String.eqb a y)) (first_seen l)).
  constructor.
  - intros H. apply filter_In in H as [_ H].
    now rewrite Strings.String.eqb_refl in H.
  - now apply List.NoDup_filter.
Qed.

(** ** Scraped releases and the legacy (v1) feed *)

(** A release of the scraped data, each key read with the default the
    code gives to [.get]. *)
Record Release := {
  version : option string;
  build : option string;
  title : string;
  release_date : string;
  url : string;
  cves : list string;
  actively_exploited_cves : list string
}.

(** An entry of [config["softwareReleases"]]. *)
Record ReleaseConfig := { osType : string; name : string }.

(** The dictionary written to ["Latest"]. *)
Record LatestEntry := {
  l_ProductVersion : string;
  l_Build : string;
  l_AllBuilds : list string;
  l_ReleaseDate : string;
  l_ExpirationDate : option string;
  l_SupportedDevices : list string;
  l_SecurityInfo : string;
  l_CVEs : dict bool;
  l_ActivelyExploitedCVEs : list string;
  l_UniqueCVEsCount : nat
}.

(** A dictionary appended to ["SecurityReleases"].  It has no
    ["Build"] key, as [SecurityRelease] of models/models.py has none. *)
Record ReleaseEntry := {
  sr_UpdateName : string;
  sr_ProductName : string;
  sr_ProductVersion : string;
  sr_ReleaseDate : string;
  sr_ReleaseType : string;
  sr_SecurityInfo : string;
  sr_SupportedDevices : list string;
  sr_CVEs : dict bool;
  sr_ActivelyExploitedCVEs : list string;
  sr_UniqueCVEsCount : nat;
  sr_DaysSincePreviousRelease : Z
}.

(** [os_version_data]; [Latest] is [None] for the empty dictionary,
    [SupportedModels] is present on macOS only. *)
Record OSVersionBlock := {
  b_OSVersion : string;
  b_Latest : option LatestEntry;
  b_SecurityReleases : list ReleaseEntry;
  b_SupportedModels : option json
}.

(** What the macOS branch obtains from the network and the model
    files: [fetch_xprotect_data], [load_uma_data], [load_ipsw_data] and
    [load_models_data]. *)
Record MacData := {
  xprotect_data : dict json;
  uma_data : dict json;
  ipsw_data : dict json;
  models_data : json
}.

Definition jbools (d : dict bool) : json :=
  JDict (map (fun kv => (fst kv, JBool (snd kv))) d).

Definition latest_to_json (l : LatestEntry) : json :=
  JDict [ ("ProductVersion", JStr (l_ProductVersion l));
          ("Build", JStr (l_Build l));
          ("AllBuilds", jstrs (l_AllBuilds l));
          ("ReleaseDate", JStr (l_ReleaseDate l));
          ("ExpirationDate", jopt (l_ExpirationDate l));
          ("SupportedDevices", jstrs (l_SupportedDevices l));
          ("SecurityInfo", JStr (l_SecurityInfo l));
          ("CVEs", jbools (l_CVEs l));
          ("ActivelyExploitedCVEs", jstrs (l_ActivelyExploitedCVEs l));
          ("UniqueCVEsCount", JInt (Z.of_nat (l_UniqueCVEsCount l))) ].

Definition entry_to_json (e : ReleaseEntry) : json :=
  JDict [ ("UpdateName", JStr (sr_UpdateName e));
          ("ProductName", JStr (sr_ProductName e));
          ("ProductVersion", JStr (sr_ProductVersion e));
          ("ReleaseDate", JStr (sr_ReleaseDate e));
          ("ReleaseType", JStr (sr_ReleaseType e));
          ("SecurityInfo", JStr (sr_SecurityInfo e));
          ("SupportedDevices", jstrs (sr_SupportedDevices e));
          ("CVEs", jbools (sr_CVEs e));
          ("ActivelyExploitedCVEs", jstrs (sr_ActivelyExploitedCVEs e));
          ("UniqueCVEsCount", JInt (Z.of_nat (sr_UniqueCVEsCount e)));
          ("DaysSincePreviousRelease", JInt (sr_DaysSincePreviousRelease e)) ].

Definition block_to_json (b : OSVersionBlock) : json :=
  JDict ([ ("OSVersion", JStr (b_OSVersion b));
           ("Latest", match b_Latest b with
                      | Some l => latest_to_json l
                      | None => JDict []
                      end);
           ("SecurityReleases", JList (map entry_to_json (b_SecurityReleases b))) ]
         ++ match b_SupportedModels b with
            | Some m => [("SupportedModels", m)]
            | None => []
            end).

Section Builder.
(** [hashlib.sha256(s.encode()).hexdigest()] *)
Variable sha256_hex : string -> string.
(** [json.dumps(data, sort_keys=True)] and [str(data)] *)
Variable json_dumps_sorted : json -> string.
Variable py_str : json -> string.
(** [packaging.version.parse] ([None] when it raises [InvalidVersion])
    and the strict order of the versions it returns. *)
Variable VKey : Type.
Variable pkg_version_parse : string -> option VKey.
Variable vlt : VKey -> VKey -> bool.
(** The three [strptime] formats tried in turn on the date text with
    "Released " removed: the [isoformat()] rendering for
    [_format_date], the instant in seconds for
    [_calculate_days_since_previous]; and [datetime.fromisoformat]. *)
Variable strptime_iso : string -> option string.
Variable strptime_utc : string -> option Z.
Variable fromisoformat : string -> option Z.
(** The outcomes of the KEV catalog loads (see [KevFetcher]). *)
Variable world : nat -> option (list string).
(** [load_supported_models], which reads a model file. *)
Variable load_supported_models : string -> json.

(** [_compute_hash] *)
Definition _compute_hash (data : json) : string :=
  match data with
  | JDict _ => sha256_hex (json_dumps_sorted data)
  | _ => sha256_hex (py_str data)
  end.

(** [_format_date] *)
Definition _format_date (date_str : string) : string :=
  if negb (truthy date_str) || Strings.String.eqb date_str "Unknown" then date_str
  else if contains "T" date_str && endswith date_str "Z" then date_str
  else match strptime_iso date_str with
       | Some iso => iso +:+ "Z"
       | None => date_str
       end.

(** The date parsing of [_calculate_days_since_previous]. *)
Definition parsed_date (date_str : string) : option Z :=
  if negb (truthy date_str) || Strings.String.eqb date_str "Unknown" then None
  else if contains "T" date_str && endswith date_str "Z" then fromisoformat date_str
  else strptime_utc date_str.

(** The loop over [dated_releases], newest first. *)
Fixpoint days_loop (dated : list (ReleaseEntry * Z)) (days_map : dict Z) : dict Z :=
  match dated with
  | [] => days_map
  | (release, date) :: rest =>
      match rest with
      | (_, prev_date) :: _ =>
          days_loop rest
            (dict_set days_map (sr_ProductVersion release)
                      ((date - prev_date) / 86400)%Z)
      | [] => dict_set days_map (sr_ProductVersion release) 0%Z
      end
  end.

(** [_calculate_days_since_previous] *)
Definition _calculate_days_since_previous (releases : list ReleaseEntry) : dict Z :=
  let dated_releases :=
    flat_map (fun r => match parsed_date (sr_ReleaseDate r) with
                       | Some d => [(r, d)]
                       | None => []
                       end) releases in
  days_loop (sorted_desc snd Z.ltb dated_releases) [].

Definition set_days (days_map : dict Z) (e : ReleaseEntry) : ReleaseEntry :=
  match dict_get days_map (sr_ProductVersion e) with
  | Some d =>
      {| sr_UpdateName := sr_UpdateName e; sr_ProductName := sr_ProductName e;
         sr_ProductVersion := sr_ProductVersion e;
         sr_ReleaseDate := sr_ReleaseDate e; sr_ReleaseType := sr_ReleaseType e;
         sr_SecurityInfo := sr_SecurityInfo e;
         sr_SupportedDevices := sr_SupportedDevices e;
         sr_CVEs := sr_CVEs e;
         sr_ActivelyExploitedCVEs := sr_ActivelyExploitedCVEs e;
         sr_UniqueCVEsCount := sr_UniqueCVEsCount e;
         sr_DaysSincePreviousRelease := d |}
  | None => e
  end.

(** The releases of the scraped data whose version starts with
    [prefix + "."]. *)
Definition matching_releases (prefix : string) (releases : list Release)
  : list Release :=
  List.filter (fun r => match version r with
                        | Some v => truthy v && startswith v (prefix +:+ ".")
                        | None => false
                        end) releases.

Definition version_or_0 (r : Release) : string :=
  match version r with Some v => v | None => "0" end.

(** The keys [list.sort] computes, one per element, before it sorts. *)
Fixpoint with_keys (l : list Release) : option (list (VKey * Release)) :=
  match l with
  | [] => Some []
  | r :: rest =>
      match pkg_version_parse (version_or_0 r), with_keys rest with
      | Some k, Some kl => Some ((k, r) :: kl)
      | _, _ => None
      end
  end.

(** [matching_releases.sort(key=..., reverse=True)] *)
Definition sort_newest_first (l : list Release) : option (list Release) :=
  match with_keys l with
  | Some kl => Some (map snd (sorted_desc fst vlt kl))
  | None => None
  end.

(** The ["Latest"] dictionary of a release. *)
Definition make_latest (os_key : string) (gdmf_data : GDMFData) (release : Release)
  (v : string) : LatestEntry :=
  let gdmf_match := _find_gdmf_match os_key v gdmf_data in
  let all_cves := cves release in
  let actively_exploited := actively_exploited_cves release in
  let cves_dict := dict_fromkeys all_cves (fun cve => mem cve actively_exploited) in
  {| l_ProductVersion := v;
     l_Build := latest_build gdmf_match (build release);
     l_AllBuilds := match gdmf_match with Some m => m_AllBuilds m | None => [] end;
     l_ReleaseDate := _format_date (release_date release);
     l_ExpirationDate := match gdmf_match with
                         | Some m => m_ExpirationDate m
                         | None => Some ""
                         end;
     l_SupportedDevices := match gdmf_match with
                           | Some m => m_SupportedDevices m
                           | None => []
                           end;
     l_SecurityInfo := url release;
     l_CVEs := cves_dict;
     l_ActivelyExploitedCVEs := actively_exploited;
     l_UniqueCVEsCount := length cves_dict |}.

(** One round of the loop that fills ["SecurityReleases"]; the KEV
    fetcher is the builder's own and keeps its state between rounds. *)
Definition make_entry (os_key product_name : string) (gdmf_data : GDMFData)
  (kev : KevFetcher.t) (rel : Release) (rel_version : string)
  : ReleaseEntry * KevFetcher.t :=
  let rel_gdmf := _find_gdmf_match os_key rel_version gdmf_data in
  let rel_cves0 := dict_fromkeys (cves rel) (fun _ => false) in
  let '(rel_cves, kev') := KevFetcher.enrich_cves_with_kev world kev rel_cves0 in
  let rel_exploited := map fst (List.filter snd rel_cves) in
  ({| sr_UpdateName := title rel;
      sr_ProductName := product_name;
      sr_ProductVersion := rel_version;
      sr_ReleaseDate := _format_date (release_date rel);
      sr_ReleaseType := "OS";
      sr_SecurityInfo := url rel;
      sr_SupportedDevices := match rel_gdmf with
                             | Some m => m_SupportedDevices m
                             | None => []
                             end;
      sr_CVEs := rel_cves;
      sr_ActivelyExploitedCVEs := rel_exploited;
      sr_UniqueCVEsCount := length rel_cves;
      sr_DaysSincePreviousRelease := 0 |}, kev').

Fixpoint make_entries (os_key product_name : string) (gdmf_data : GDMFData)
  (kev : KevFetcher.t) (rels : list Release) : list ReleaseEntry * KevFetcher.t :=
  match rels with
  | [] => ([], kev)
  | rel :: rest =>
      match version rel with
      | Some rel_version =>
          if truthy rel_version then
            let '(e, kev1) := make_entry os_key product_name gdmf_data kev rel rel_version in
            let '(es, kev2) := make_entries os_key product_name gdmf_data kev1 rest in
            (e :: es, kev2)
          else make_entries os_key product_name gdmf_data kev rest
      | None => make_entries os_key product_name gdmf_data kev rest
      end
  end.

(** The body of the loop over [config["softwareReleases"]] for one
    configured OS version: [prefix] is what the versions must start
    with, [os_key] the GDMF key, [models] the ["SupportedModels"] value
    when the branch writes one.  [None] when the sort raises. *)
Definition build_block (os_version_name prefix os_key product_name : string)
  (models : option json) (releases : list Release) (gdmf_data : GDMFData)
  (kev : KevFetcher.t) : option (OSVersionBlock * KevFetcher.t) :=
  let empty := {| b_OSVersion := os_version_name; b_Latest := None;
                  b_SecurityReleases := []; b_SupportedModels := models |} in
  match matching_releases prefix releases with
  | [] => Some (empty, kev)
  | (_ :: _) as matching =>
      match sort_newest_first matching with
      | None => None
      | Some [] => Some (empty, kev)
      | Some ((release :: _) as sorted) =>
          match version release with
          | Some v =>
              if truthy v then
                let latest := make_latest os_key gdmf_data release v in
                let '(entries, kev') :=
                  make_entries os_key product_name gdmf_data kev sorted in
                let days_map := _calculate_days_since_previous entries in
                Some ({| b_OSVersion := os_version_name;
                         b_Latest := Some latest;
                         b_SecurityReleases :=
                           match entries with
                           | [] => []
                           | _ => map (set_days days_map) entries
                           end;
                         b_SupportedModels := models |}, kev')
              else Some (empty, kev)
          | None => Some (empty, kev)
          end
      end
  end.

(** [os_version_name.split()[-1]] and [os_version_name.split()[0]];
    [None] when the name has no word (an [IndexError]). *)
Definition last_word (s : string) : option string :=
  match rev (String.words s) with w :: _ => Some w | [] => None end.

Definition first_word (s : string) : option string :=
  match String.words s with w :: _ => Some w | [] => None end.

(** The loop of the macOS branch. *)
Fixpoint mac_blocks (config : list ReleaseConfig) (releases : list Release)
  (gdmf_data : GDMFData) (kev : KevFetcher.t)
  : option (list OSVersionBlock * KevFetcher.t) :=
  match config with
  | [] => Some ([], kev)
  | release_config :: rest =>
      if negb (Strings.String.eqb (osType release_config) "macOS")
      then mac_blocks rest releases gdmf_data kev
      else
        let os_version_name := name release_config in
        match first_word os_version_name, last_word os_version_name with
        | Some w0, Some target_major =>
            match build_block os_version_name target_major "macOS" "macOS"
                    (Some (load_supported_models (lower w0)))
                    releases gdmf_data kev with
            | Some (b, kev1) =>
                match mac_blocks rest releases gdmf_data kev1 with
                | Some (bs, kev2) => Some (b :: bs, kev2)
                | None => None
                end
            | None => None
            end
        | _, _ => None
        end
  end.

(** The loop of the branch for the other platforms. *)
Fixpoint other_blocks (os_type : string) (config : list ReleaseConfig)
  (releases : list Release) (gdmf_data : GDMFData) (kev : KevFetcher.t)
  : option (list OSVersionBlock * KevFetcher.t) :=
  match config with
  | [] => Some ([], kev)
  | release_config :: rest =>
      if negb (Strings.String.eqb (osType release_config) os_type)
      then other_blocks os_type rest releases gdmf_data kev
      else
        let os_version_name := name release_config in
        match build_block os_version_name os_version_name os_type os_type
                None releases gdmf_data kev with
        | Some (b, kev1) =>
            match other_blocks os_type rest releases gdmf_data kev1 with
            | Some (bs, kev2) => Some (b :: bs, kev2)
            | None => None
            end
        | None => None
        end
  end.

(** [os_versions] as [create_legacy_feed] builds it. *)
Definition os_versions (os_type : string) (config : list ReleaseConfig)
  (releases : list Release) (gdmf_data : GDMFData) (kev : KevFetcher.t)
  : option (list OSVersionBlock * KevFetcher.t) :=
  if Strings.String.eqb (lower os_type) "macos"
  then mac_blocks config releases gdmf_data kev
  else other_blocks os_type config releases gdmf_data kev.

Definition dict_get_json (d : dict json) (k : string) : json :=
  match dict_get d k with Some v => v | None => JNull end.

(** [feed] before the hash is added. *)
Definition feed_body (os_type : string) (mac : MacData) (blocks : list OSVersionBlock)
  : dict json :=
  let os_versions_json := JList (map block_to_json blocks) in
  if Strings.String.eqb (lower os_type) "macos" then
    let installation_apps :=
      match ipsw_data mac with
      | [] => uma_data mac
      | _ => fold_left (fun acc kv => dict_set acc (fst kv) (snd kv))
                       (ipsw_data mac) (uma_data mac)
      end in
    [ ("OSVersions", os_versions_json);
      ("XProtectPayloads", dict_get_json (xprotect_data mac) "XProtectPayloads");
      ("XProtectPlistConfigData",
       dict_get_json (xprotect_data mac) "XProtectPlistConfigData");
      ("Models", models_data mac);
      ("InstallationApps", JDict installation_apps) ]
  else [ ("OSVersions", os_versions_json) ].

(** The last two statements: [{"UpdateHash": update_hash, **feed}]. *)
Definition add_update_hash (feed : dict json) : dict json :=
  let update_hash := _compute_hash (JDict feed) in
  dict_cons_spread "UpdateHash" (JStr update_hash) feed.

(** [create_legacy_feed]; [None] when it raises. *)
Definition create_legacy_feed (os_type : string) (config : list ReleaseConfig)
  (releases : list Release) (gdmf_data : GDMFData) (mac : MacData)
  (kev : KevFetcher.t) : option (dict json * KevFetcher.t) :=
  match os_versions os_type config releases gdmf_data kev with
  | Some (blocks, kev') => Some (add_update_hash (feed_body os_type mac blocks), kev')
  | None => None
  end.

End Builder.

End FeedBuilder.


(* ===================================================================== *)
(** * fetchers/fetch_security_pages.py *)
(* ===================================================================== *)

Module PageFetcher.
Import Py.

(** A metadata file, as [save_meta] writes it. *)
Record Meta := {
  meta_url : string;
  last_modified : string;
  content_hash : string;
  seen : string
}.

(** The cache directories [urls/] and [raw/].  The files are named
    after the SHA-1 of the URL; the model keys them by the URL. *)
Record Cache := {
  metas : gmap string Meta;
  raws : gmap string string
}.

Record Response := {
  status_code : Z;
  text : string;
  header_last_modified : option string
}.

(** What [requests.get] gives: a response, or a
    [requests.exceptions.RequestException]. *)
Inductive NetResult :=
| Reply (r : Response)
| RequestException.

Record Request := { req_url : string; req_headers : dict string }.

(** What a call of [fetch_from_url] ends with. *)
Inductive Outcome :=
| Returned (html_content : string) (was_modified : bool)
| Raised.

(** A run of [fetch_from_url]: its outcome, the cache it leaves and
    the requests it sent, in order. *)
Record Run := {
  outcome : Outcome;
  cache_after : Cache;
  requests : list Request
}.

Definition user_agent : string :=
  "Mozilla/5.0 (Macintosh; Intel Mac OS X 10_15_7) AppleWebKit/537.36".

Section Fetch.
(** The network: the answer to the n-th request of the run. *)
Variable network : nat -> Request -> NetResult.
(** [time.strftime("%Y-%m-%dT%H:%M:%SZ", time.gmtime())] at the time of
    the run. *)
Variable now : string.
(** [_get_content_hash]: SHA-256 of the page text with script, style
    and noscript removed and white space collapsed. *)
Variable _get_content_hash : string -> string.

(** [load_meta] ([None] for the empty dictionary) and [load_raw] *)
Definition load_meta (c : Cache) (url : string) : option Meta := metas c !! url.
Definition load_raw (c : Cache) (url : string) : option string := raws c !! url.

(** [save_meta] *)
Definition save_meta (c : Cache) (url : string) (lm : option string)
  (hash : string) : Cache :=
  {| metas := <[ url := {| meta_url := url;
                           last_modified := if otruthy lm
                                            then match lm with Some s => s | None => "" end
                                            else "";
                           content_hash := hash;
                           seen := now |} ]> (metas c);
     raws := raws c |}.

(** [save_raw] *)
Definition save_raw (c : Cache) (url : string) (html : string) : Cache :=
  {| metas := metas c; raws := <[ url := html ]> (raws c) |}.

(** The [except requests.exceptions.RequestException] clause. *)
Definition on_request_error (c : Cache) (url : string) (sent : list Request) : Run :=
  let cached_html := load_raw c url in
  if otruthy cached_html
  then {| outcome := Returned (default "" cached_html) false;
          cache_after := c; requests := sent |}
  else {| outcome := Raised; cache_after := c; requests := sent |}.

(** From [response.raise_for_status()] to the end of the [try] block. *)
Definition process_response (c : Cache) (meta : option Meta) (url : string)
  (force_refresh : bool) (response : Response) (sent : list Request) : Run :=
  if ((400 <=? status_code response) && (status_code response <? 600))%Z
  then on_request_error c url sent
  else
    let html_content := text response in
    let content_hash' := _get_content_hash html_content in
    let old_hash := match meta with Some m => content_hash m | None => "" end in
    if negb force_refresh && Strings.String.eqb old_hash content_hash'
    then {| outcome := Returned html_content false; cache_after := c; requests := sent |}
    else {| outcome := Returned html_content true;
            cache_after :=
              save_raw (save_meta c url (header_last_modified response) content_hash')
                       url html_content;
            requests := sent |}.

(** The headers of the first request. *)
Definition first_headers (meta : option Meta) (force_refresh verify_content : bool)
  : dict string :=
  let headers := [("User-Agent", user_agent)] in
  match meta with
  | Some m =>
      if negb force_refresh && negb verify_content && truthy (last_modified m)
      then dict_set headers "If-Modified-Since" (last_modified m)
      else headers
  | None => headers
  end.

(** [fetch_from_url] *)
Definition fetch_from_url (c : Cache) (url : string)
  (force_refresh verify_content : bool) : Run :=
  let meta := load_meta c url in
  let headers := first_headers meta force_refresh verify_content in
  let req1 := {| req_url := url; req_headers := headers |} in
  match network 0 req1 with
  | RequestException => on_request_error c url [req1]
  | Reply response =>
      if (status_code response =? 304)%Z then
        let cached_html := load_raw c url in
        if otruthy cached_html
        then {| outcome := Returned (default "" cached_html) false;
                cache_after := c; requests := [req1] |}
        else
          let req2 := {| req_url := url;
                         req_headers := dict_del headers "If-Modified-Since" |} in
          match network 1 req2 with
          | RequestException => on_request_error c url [req1; req2]
          | Reply response2 =>
              process_response c meta url force_refresh response2 [req1; req2]
          end
      else process_response c meta url force_refresh response [req1]
  end.

(** The request the retry sends. *)
Definition retry_request (c : Cache) (url : string)
  (force_refresh verify_content : bool) : Request :=
  {| req_url := url;
     req_headers :=
       dict_del (first_headers (load_meta c url) force_refresh verify_content)
                "If-Modified-Since" |}.

Lemma retry_has_no_condition c url f v :
  dict_get (req_headers (retry_request c url f v)) "If-Modified-Since" = None.
Proof.
  unfold retry_request, first_headers. simpl.
  destruct (load_meta c url) as [m|]; [|reflexivity].
  destruct (negb f && negb v && truthy (last_modified m)); reflexivity.
Qed.

End Fetch.

End PageFetcher.


(* ===================================================================== *)
(** * builders/build_security_releases.py *)
(* ===================================================================== *)

Module Extractor.
Import Py.

(** A Python [str] is a sequence of code points; the model keeps it as
    the bytes of its UTF-8 encoding.  Splitting at an ASCII character and
    comparing two strings ([<] compares code points) give the same
    results on the bytes.  [RE_CVE] is a [str] pattern compiled without
    [re.ASCII], so its [\d] matches every Unicode decimal digit, and
    [int] reads such digits too: both are parameters below.  A match of
    [RE_CVE] consists of the letters C, V and E in either case, hyphens
    and decimal digits, so [str.upper] changes only the three letters,
    as [upper] does on the bytes. *)

(** The ASCII digits. *)
Definition is_digit (c : ascii) : bool :=
  let n := nat_of_ascii c in ((48 <=? n) && (n <=? 57))%nat.

Fixpoint all_digits (s : string) : bool :=
  match s with
  | EmptyString => true
  | String c s' => is_digit c && all_digits s'
  end.

Definition digit_value (c : ascii) : Z := Z.of_nat (nat_of_ascii c) - 48.

(** The number a string of ASCII digits denotes. *)
Fixpoint digits_value (acc : Z) (s : string) : Z :=
  match s with
  | EmptyString => acc
  | String c s' => digits_value (10 * acc + digit_value c) s'
  end.

(** [<] on the key tuples: the year strings first, then the numbers. *)
Definition key_lt (a b : string * Z) : bool :=
  Strings.String.ltb (fst a) (fst b)
  || (Strings.String.eqb (fst a) (fst b) && (snd a <? snd b)%Z).

Section Extract.
(** [RE_CVE.findall(text)] *)
Variable RE_CVE_findall : string -> list string.
(** The order in which a Python [set] built from a list is iterated. *)
Variable set_iter : list string -> list string.
(** [int(s)] on a [str]; [None] where it raises. *)
Variable py_int : string -> option Z.

(** The sort key [(s.split("-")[1], int(s.split("-")[2]))]; [None]
    where it raises. *)
Definition cve_sort_key (s : string) : option (string * Z) :=
  match split "-" s with
  | _ :: y :: q :: _ =>
      match py_int q with
      | Some n => Some (y, n)
      | None => None
      end
  | _ => None
  end.

(** The keys [sorted] computes, one per element, before it sorts. *)
Fixpoint with_keys (l : list string) : option (list ((string * Z) * string)) :=
  match l with
  | [] => Some []
  | s :: rest =>
      match cve_sort_key s, with_keys rest with
      | Some k, Some kl => Some ((k, s) :: kl)
      | _, _ => None
      end
  end.

(** [extract_cves_from_text]; [None] where it raises. *)
Definition extract_cves_from_text (text : string) : option (list string) :=
  let cves := RE_CVE_findall text in
  match with_keys (set_iter (map upper cves)) with
  | Some kl => Some (map snd (sorted_asc fst key_lt kl))
  | None => None
  end.
End Extract.

(** *** Digit strings compare as the numbers they denote *)

Lemma digits_value_acc s : forall acc,
  digits_value acc s
  = (acc * 10 ^ Z.of_nat (Strings.String.length s) + digits_value 0 s)%Z.
Proof.
  induction s as [|c s IH]; intros acc; simpl Strings.String.length.
  - simpl. lia.
  - cbn [digits_value]. rewrite IH, (IH (10 * 0 + digit_value c)%Z).
    rewrite Nat2Z.inj_succ, Z.pow_succ_r by lia. lia.
Qed.

Lemma is_digit_value c : is_digit c = true -> (0 <= digit_value c <= 9)%Z.
Proof.
  unfold is_digit, digit_value. intros H.
  apply andb_true_iff in H as [H1 H2].
  apply Nat.leb_le in H1, H2. lia.
Qed.

Lemma digits_value_bound s :
  all_digits s = true ->
  (0 <= digits_value 0 s < 10 ^ Z.of_nat (Strings.String.length s))%Z.
Proof.
  induction s as [|c s IH]; simpl Strings.String.length.
  - simpl. lia.
  - cbn [all_digits digits_value]. intros H.
    apply andb_true_iff in H as [Hc Hs].
    apply is_digit_value in Hc. specialize (IH Hs).
    rewrite digits_value_acc, Nat2Z.inj_succ, Z.pow_succ_r by lia. nia.
Qed.

Lemma ascii_compare_digit c1 c2 :
  Ascii.compare c1 c2 = (digit_value c1 ?= digit_value c2)%Z.
Proof.
  unfold Ascii.compare, digit_value, nat_of_ascii. rewrite !N_nat_Z.
  destruct (N.compare_spec (N_of_ascii c1) (N_of_ascii c2)) as [E|L|G]; symmetry.
  - apply Z.compare_eq_iff. lia.
  - apply Z.compare_lt_iff. lia.
  - apply Z.compare_gt_iff. lia.
Qed.

Lemma digits_compare s1 : forall s2,
  Strings.String.length s1 = Strings.String.length s2 ->
  all_digits s1 = true -> all_digits s2 = true ->
  Strings.String.compare s1 s2 = (digits_value 0 s1 ?= digits_value 0 s2)%Z.
Proof.
  induction s1 as [|c1 s1 IH]; intros [|c2 s2] Hlen H1 H2;
    simpl in Hlen; try discriminate; [reflexivity|].
  injection Hlen as Hlen.
  cbn [all_digits] in H1, H2.
  apply andb_true_iff in H1 as [Hc1 Hs1], H2 as [Hc2 Hs2].
  cbn [Strings.String.compare digits_value].
  rewrite (digits_value_acc s1), (digits_value_acc s2), <- Hlen.
  pose proof (digits_value_bound s1 Hs1) as B1.
  pose proof (digits_value_bound s2 Hs2) as B2. rewrite <- Hlen in B2.
  apply is_digit_value in Hc1, Hc2.
  rewrite ascii_compare_digit, (IH s2 Hlen Hs1 Hs2).
  set (p := (10 ^ Z.of_nat (Strings.String.length s1))%Z) in *.
  set (v1 := digits_value 0 s1) in *. set (v2 := digits_value 0 s2) in *.
  set (d1 := digit_value c1) in *. set (d2 := digit_value c2) in *.
  destruct (Z.compare_spec d1 d2) as [E|L|G].
  - subst d1. rewrite E. destruct (Z.compare_spec v1 v2);
      symmetry; [apply Z.compare_eq_iff | apply Z.compare_lt_iff
                | apply Z.compare_gt_iff]; lia.
  - symmetry. apply Z.compare_lt_iff. nia.
  - symmetry. apply Z.compare_gt_iff. nia.
Qed.

(** *** The order on the keys *)

Lemma key_lt_asym a b : key_lt a b = true -> key_lt b a = false.
Proof.
  unfold key_lt. destruct a as [ya na], b as [yb nb]. simpl.
  intros H. apply orb_true_iff in H as [H|H].
  - rewrite (string_ltb_asym _ _ H). simpl.
    destruct (Strings.String.eqb yb ya) eqn:E; [|reflexivity].
    apply Strings.String.eqb_eq in E. subst.
    now rewrite string_ltb_irrefl in H.
  - apply andb_true_iff in H as [E L]. apply Strings.String.eqb_eq in E. subst.
    rewrite string_ltb_irrefl, Strings.String.eqb_refl. simpl.
    apply Z.ltb_lt in L. apply Z.ltb_ge. lia.
Qed.

Lemma key_nlt_iff a b :
  key_lt b a = false <->
  Strings.String.leb (fst a) (fst b) = true /\
  (fst a = fst b -> (snd a <= snd b)%Z).
Proof.
  unfold key_lt. destruct a as [ya na], b as [yb nb]. simpl.
  rewrite orb_false_iff, string_ltb_leb. split.
  - intros [H1 H2]. split; [assumption|]. intros ->.
    rewrite Strings.String.eqb_refl in H2. simpl in H2. now apply Z.ltb_ge in H2.
  - intros [H1 H2]. split; [assumption|].
    destruct (Strings.String.eqb yb ya) eqn:E; [|reflexivity].
    apply Strings.String.eqb_eq in E. subst. simpl. apply Z.ltb_ge. auto.
Qed.

Lemma key_nlt_trans a b c :
  key_lt b a = false -> key_lt c b = false -> key_lt c a = false.
Proof.
  rewrite !key_nlt_iff. intros [L1 N1] [L2 N2]. split.
  - eapply string_leb_trans; eassumption.
  - intros E. rewrite E in L1.
    assert (fst b = fst c) by (apply Strings.String.leb_antisym; assumption).
    assert (fst a = fst b) by congruence. specialize (N1 ltac:(assumption)).
    specialize (N2 ltac:(assumption)). lia.
Qed.

End Extractor.


(* ===================================================================== *)
(** * generators/generate_rss_feeds.py *)
(* ===================================================================== *)

Module Rss.
Import Py.

(** A release dictionary of a feed file ([Latest] or an element of
    [SecurityReleases]), with the keys the entry reads. *)
Record FeedRelease := {
  ProductVersion : option string;
  ReleaseDate : option string;
  UpdateName : option string;
  SecurityInfo : option string
}.

(** An element of ["OSVersions"]. *)
Record OSVersion := {
  Latest : option FeedRelease;
  SecurityReleases : list FeedRelease
}.

(** The parts of an entry that identify it.  The description and the
    publication date are derived from the same release dictionary and
    are not modelled. *)
Record Item := {
  item_id : string;
  item_title : string;
  item_link : option string
}.

Definition get_or_empty (o : option string) : string :=
  match o with Some s => s | None => "" end.

(** [_create_feed_entry] *)
Definition _create_feed_entry (release : FeedRelease) (os_type : string) : Item :=
  let v := get_or_empty (ProductVersion release) in
  let release_date := get_or_empty (ReleaseDate release) in
  {| item_id := os_type +:+ "-" +:+ v +:+ "-" +:+ release_date;
     item_title := if otruthy (UpdateName release)
                   then get_or_empty (UpdateName release)
                   else os_type +:+ " " +:+ v;
     item_link := match SecurityInfo release with
                  | Some u => if truthy u && startswith u "http" then Some u else None
                  | None => None
                  end |}.

(** The entry added for [Latest], if any. *)
Definition latest_items (os_type : string) (os_version : OSVersion) : list Item :=
  match Latest os_version with
  | Some latest =>
      if otruthy (ProductVersion latest)
      then [_create_feed_entry latest os_type] else []
  | None => []
  end.

(** The entries added for [releases[:20]]. *)
Definition release_items (os_type : string) (os_version : OSVersion) : list Item :=
  map (fun release => _create_feed_entry release os_type)
      (List.filter (fun release => otruthy (ProductVersion release))
                   (firstn 20 (SecurityReleases os_version))).

(** The loop of [generate_feed] over ["OSVersions"]: the entries in
    the order they are created. *)
Definition channel_items (os_type : string) (os_versions : list OSVersion)
  : list Item :=
  flat_map (fun os_version =>
              latest_items os_type os_version ++ release_items os_type os_version)
           os_versions.

Definition FEED_CONFIGS : list string :=
  ["macOS"; "iOS"; "tvOS"; "watchOS"; "visionOS"].

Section Generate.
(** [_get_content_hash] of the loaded feed file. *)
Variable content_hash_of : list OSVersion -> string.

(** [generate_feed] once the feed file is loaded: [None] when no
    channel is written (the cached hash is current, the platform has no
    configuration, or there is no entry), else the items of the channel. *)
Definition generate_feed (rss_cache : dict string) (os_type : string)
  (feed_data : list OSVersion) : option (list Item) :=
  let up_to_date :=
    match dict_get rss_cache os_type with
    | Some cached_hash => Strings.String.eqb cached_hash (content_hash_of feed_data)
    | None => false
    end in
  if up_to_date then None
  else if negb (mem os_type FEED_CONFIGS) then None
  else match channel_items os_type feed_data with
       | [] => None
       | items => Some items
       end.
End Generate.

Lemma release_items_length os_type b : length (release_items os_type b) <= 20.
Proof.
  unfold release_items. rewrite length_map.
  etransitivity; [apply List.filter_length_le|].
  rewrite length_firstn. lia.
Qed.

End Rss.


(* ===================================================================== *)
(** * Stand-ins for the external libraries, for closed examples *)
(* ===================================================================== *)

Module Packaging.
Import Py.

(** [packaging.version] on versions that are dotted decimal numbers,
    the form [extract_version_from_title] produces: the key is the
    release tuple without its trailing zeros, and tuples compare
    lexicographically. *)
Fixpoint strip_zeros (l : list Z) : list Z :=
  match l with
  | [] => []
  | x :: r =>
      match strip_zeros r with
      | [] => if (x =? 0)%Z then [] else [x]
      | r' => x :: r'
      end
  end.

(** A component of the release tuple: a non-empty string of ASCII
    digits. *)
Definition component (p : string) : option Z :=
  if truthy p && Extractor.all_digits p
  then Some (Extractor.digits_value 0 p) else None.

Fixpoint ints (parts : list string) : option (list Z) :=
  match parts with
  | [] => Some []
  | p :: r =>
      match component p, ints r with
      | Some n, Some ns => Some (n :: ns)
      | _, _ => None
      end
  end.

Definition parse (s : string) : option (list Z) :=
  match ints (split "." s) with
  | Some ns => Some (strip_zeros ns)
  | None => None
  end.

Fixpoint lt (a b : list Z) : bool :=
  match a, b with
  | [], [] => false
  | [], _ :: _ => true
  | _ :: _, [] => false
  | x :: a', y :: b' => (x <? y)%Z || ((x =? y)%Z && lt a' b')
  end.

Lemma lt_asym a : forall b, lt a b = true -> lt b a = false.
Proof.
  induction a as [|x a IH]; intros [|y b]; simpl; try congruence.
  intros H. apply orb_true_iff in H as [H|H].
  - apply Z.ltb_lt in H.
    replace (y <? x)%Z with false by (symmetry; apply Z.ltb_ge; lia).
    replace (y =? x)%Z with false by (symmetry; apply Z.eqb_neq; lia).
    reflexivity.
  - apply andb_true_iff in H as [E H]. apply Z.eqb_eq in E. subst y.
    rewrite Z.ltb_irrefl, Z.eqb_refl. simpl. now apply IH.
Qed.

Lemma nlt_trans a : forall b c,
  lt b a = false -> lt c b = false -> lt c a = false.
Proof.
  induction a as [|x a IH]; intros [|y b] [|z c]; simpl; try congruence.
  intros H1 H2.
  apply orb_false_iff in H1 as [L1 E1], H2 as [L2 E2].
  apply Z.ltb_ge in L1, L2.
  apply orb_false_iff. split; [apply Z.ltb_ge; lia|].
  destruct (z =? x)%Z eqn:Ezx; [|reflexivity]. apply Z.eqb_eq in Ezx. subst z.
  assert (y = x) by lia. subst y.
  rewrite Z.eqb_refl in E1, E2. simpl in *. eauto.
Qed.

Example parse_15_3 : parse "15.3" = Some [15; 3]%Z.
Proof. reflexivity. Qed.

Example parse_trailing_zero : parse "15.0" = parse "15".
Proof. reflexivity. Qed.

Example lt_numeric : lt [15; 3]%Z [15; 10]%Z = true.
Proof. reflexivity. Qed.

End Packaging.

Module Examples.
Import Py FeedBuilder.

(** Stand-ins for [hashlib], [json] and [datetime]: any functions do,
    the properties below are proved for all of them. *)
Definition toy_sha256 (s : string) : string := "sha256:" +:+ s.

Definition toy_dumps (j : json) : string :=
  match j with
  | JDict d => join "," (dict_keys d)
  | _ => ""
  end.

Definition toy_str (j : json) : string := "".
Definition no_date_text (s : string) : option string := None.
Definition no_date (s : string) : option Z := None.
Definition no_models (s : string) : json := JList [].

Definition no_mac : MacData :=
  {| xprotect_data := []; uma_data := []; ipsw_data := []; models_data := JDict [] |}.

Definition asset (v b : string) (devices : list string) : GDMFAsset :=
  {| g_ProductVersion := v; g_Build := b; g_PostingDate := "2025-01-27";
     g_ExpirationDate := Some "2025-04-27"; g_SupportedDevices := devices |}.

(** Scenario S6 of the specification: three assets of version 18.2. *)
Definition gdmf_s6 : GDMFData :=
  {| PublicAssetSets :=
       [("iOS", [asset "18.2" "22D50" ["A"; "B"]; asset "18.2" "22D51" ["B"; "C"];
                 asset "18.2" "22D50" ["C"; "D"]])];
     AssetSets := [] |}.

(** iOS and tvOS assets of the same version, both under the iOS key. *)
Definition gdmf_mixed : GDMFData :=
  {| PublicAssetSets :=
       [("iOS", [asset "18.2" "22C152" ["iPhone17,1"];
                 asset "18.2" "22K154" ["AppleTV14,1"]])];
     AssetSets := [] |}.

Definition release (v : string) (ids exploited : list string) : Release :=
  {| version := Some v; build := None;
     title := "iOS " +:+ v; release_date := "";
     url := "https://support.apple.com/en-us/121837";
     cves := ids; actively_exploited_cves := exploited |}.

Definition ios_config : list ReleaseConfig := [{| osType := "iOS"; name := "18" |}].

(** Two iOS 18 releases, the older one first. *)
Definition ios_releases : list Release :=
  [release "18.1" ["CVE-2024-44308"] ["CVE-2024-44308"];
   release "18.2" ["CVE-2024-54534"] ["CVE-2024-54534"]].

(** [create_legacy_feed] for iOS with the stand-ins and a KEV catalog
    that cannot be loaded. *)
Definition ios_run :=
  create_legacy_feed toy_sha256 toy_dumps toy_str (list Z) Packaging.parse
    Packaging.lt no_date_text no_date no_date KevFetcher.world_down no_models
    "iOS" ios_config ios_releases gdmf_mixed no_mac KevFetcher.init.

Definition ios_doc : dict json :=
  match ios_run with Some (D, _) => D | None => [] end.

Definition ios_kev : KevFetcher.t :=
  match ios_run with Some (_, k) => k | None => KevFetcher.init end.

Definition ios_blocks :=
  os_versions (list Z) Packaging.parse Packaging.lt no_date_text no_date no_date
    KevFetcher.world_down no_models "iOS" ios_config ios_releases gdmf_mixed
    KevFetcher.init.

End Examples.


(* ===================================================================== *)
(** * The properties of the specification *)
(* ===================================================================== *)

Import Py.

(** ** KEV enrichment of a CVE map (kev_fetcher.py) *)

(** C10: [enrich_cves_with_kev] keeps the keys of its input map, in
    their order; a key that is true in the input is true in the output;
    a key that is false in the input and true in the output is a member
    of the KEV set the fetcher holds after the call; and when the
    catalog cannot be loaded the input map is returned as it is. *)
Theorem C10_enrich_cves_with_kev_monotone :
  forall (world : nat -> option (list string)) (st : KevFetcher.t) (m : dict bool),
    let out := fst (KevFetcher.enrich_cves_with_kev world st m) in
    let st' := snd (KevFetcher.enrich_cves_with_kev world st m) in
    dict_keys out = dict_keys m /\
    (forall k, dict_get m k = Some true -> dict_get out k = Some true) /\
    (forall k, dict_get m k = Some false -> dict_get out k = Some true ->
               k ∈ KevFetcher.kev_set st') /\
    (fst (KevFetcher.load_kev_catalog world st) = false -> out = m).
Proof.
  intros world st m. cbv zeta.
  unfold KevFetcher.enrich_cves_with_kev.
  destruct (KevFetcher.load_kev_catalog world st) as [[|] st1] eqn:L; simpl.
  - repeat split.
    + apply KevFetcher.enrich_loop_keys. auto.
    + intros k Hk. now apply KevFetcher.enrich_loop_true.
    + intros k Hk Hout. apply KevFetcher.enrich_loop_flip; [congruence | assumption].
    + discriminate.
  - repeat split; auto. intros k Hk Hout. congruence.
Qed.

(** ** The RSS channel (generate_rss_feeds.py) *)

(** The items the channel holds for one block. *)
Definition block_items (os_type : string) (b : Rss.OSVersion) : list Rss.Item :=
  Rss.latest_items os_type b ++ Rss.release_items os_type b.

(** C9 as the specification words it: at most 20 items per OSVersion
    block. *)
Definition at_most_20_items_as_specified (os_type : string) (b : Rss.OSVersion)
  : Prop :=
  length (block_items os_type b) <= 20.

Definition rss_release (v d : string) : Rss.FeedRelease :=
  {| Rss.ProductVersion := Some v; Rss.ReleaseDate := Some d;
     Rss.UpdateName := None; Rss.SecurityInfo := None |}.

(** An iOS 18 block of a feed file: [Latest] and twenty releases, the
    first of which is the release [Latest] describes. *)
Definition block_of_20 : Rss.OSVersion :=
  {| Rss.Latest := Some (rss_release "18.20" "2025-08-20T00:00:00Z");
     Rss.SecurityReleases :=
       [ rss_release "18.20" "2025-08-20T00:00:00Z";
         rss_release "18.19" "2025-08-01T00:00:00Z";
         rss_release "18.18" "2025-07-15T00:00:00Z";
         rss_release "18.17" "2025-07-01T00:00:00Z";
         rss_release "18.16" "2025-06-15T00:00:00Z";
         rss_release "18.15" "2025-06-01T00:00:00Z";
         rss_release "18.14" "2025-05-15T00:00:00Z";
         rss_release "18.13" "2025-05-01T00:00:00Z";
         rss_release "18.12" "2025-04-15T00:00:00Z";
         rss_release "18.11" "2025-04-01T00:00:00Z";
         rss_release "18.10" "2025-03-15T00:00:00Z";
         rss_release "18.9" "2025-03-01T00:00:00Z";
         rss_release "18.8" "2025-02-15T00:00:00Z";
         rss_release "18.7" "2025-02-01T00:00:00Z";
         rss_release "18.6" "2025-01-15T00:00:00Z";
         rss_release "18.5" "2025-01-01T00:00:00Z";
         rss_release "18.4" "2024-12-15T00:00:00Z";
         rss_release "18.3" "2024-12-01T00:00:00Z";
         rss_release "18.2" "2024-11-15T00:00:00Z";
         rss_release "18.1" "2024-11-01T00:00:00Z" ] |}.

(** C9 fails as stated: the block above gives 21 items, the item of
    [Latest] and one for each of the twenty releases; the first two
    items have the same id. *)
Lemma C9_rss_21_items_counterexample :
  ~ at_most_20_items_as_specified "iOS" block_of_20.
Proof.
  unfold at_most_20_items_as_specified. intros H.
  assert (E : length (block_items "iOS" block_of_20) = 21) by (vm_compute; reflexivity).
  rewrite E in H. lia.
Qed.

(** C9, amended: the items of the channel are, block by block, the item
    of [Latest] (exactly when [Latest] has a version) followed by one
    item for each of the first 20 entries of [SecurityReleases] that has
    a version, in their order.  A block so gives at most 21 items: at
    most one for [Latest] and at most 20 for the releases.  The id of an
    item is made of the platform, the version and the release date only,
    so the item of [Latest] has the id of the item of a release with the
    same version and date. *)
Theorem C9_rss_at_most_21_items_per_block :
  forall (os_type : string) (os_versions : list Rss.OSVersion),
    Rss.channel_items os_type os_versions
    = flat_map (block_items os_type) os_versions /\
    forall b, In b os_versions ->
      length (block_items os_type b) <= 21 /\
      length (Rss.release_items os_type b) <= 20 /\
      Rss.latest_items os_type b
      = match Rss.Latest b with
        | Some latest =>
            if otruthy (Rss.ProductVersion latest)
            then [Rss._create_feed_entry latest os_type] else []
        | None => []
        end /\
      Rss.release_items os_type b
      = map (fun release => Rss._create_feed_entry release os_type)
          (List.filter (fun release => otruthy (Rss.ProductVersion release))
                       (firstn 20 (Rss.SecurityReleases b))) /\
      (forall it, In it (Rss.release_items os_type b) <->
         exists release,
           In release (firstn 20 (Rss.SecurityReleases b)) /\
           otruthy (Rss.ProductVersion release) = true /\
           it = Rss._create_feed_entry release os_type) /\
      (forall latest release,
         Rss.Latest b = Some latest ->
         Rss.ProductVersion release = Rss.ProductVersion latest ->
         Rss.ReleaseDate release = Rss.ReleaseDate latest ->
         Rss.item_id (Rss._create_feed_entry release os_type)
         = Rss.item_id (Rss._create_feed_entry latest os_type)).
Proof.
  intros os_type os_versions. split; [reflexivity|].
  intros b _.
  assert (Hl : length (Rss.latest_items os_type b) <= 1).
  { unfold Rss.latest_items. destruct (Rss.Latest b) as [l|]; simpl; [|lia].
    destruct (otruthy (Rss.ProductVersion l)); simpl; lia. }
  pose proof (Rss.release_items_length os_type b) as Hr.
  split; [unfold block_items; rewrite length_app; lia|].
  split; [assumption|]. split; [reflexivity|]. split; [reflexivity|]. split.
  - intros it. unfold Rss.release_items. rewrite in_map_iff. split.
    + intros (r & <- & Hin). apply filter_In in Hin as [Hin Hv]. eauto.
    + intros (r & Hin & Hv & ->). exists r. split; [reflexivity|].
      apply filter_In. auto.
  - intros latest release _ Hv Hd. unfold Rss._create_feed_entry. simpl.
    now rewrite Hv, Hd.
Qed.

(** ** The v1 feed document (build_complete_feeds.py) *)

(** [{k: v, **d}] for a key the dictionary does not have puts the
    new pair in front. *)
Lemma dict_spread_fold {V : Type} (d : dict V) : forall acc,
  List.NoDup (dict_keys acc ++ dict_keys d) ->
  fold_left (fun a kv => dict_set a (fst kv) (snd kv)) d acc = acc ++ d.
Proof.
  induction d as [|[k v] d IH]; simpl; intros acc Hnd.
  - now rewrite app_nil_r.
  - rewrite dict_set_absent.
    + rewrite IH, <- app_assoc; [reflexivity|].
      unfold dict_keys in *. rewrite map_app, <- app_assoc. exact Hnd.
    + apply NoDup_remove_2 in Hnd. intros H. apply Hnd.
      apply in_or_app. now left.
Qed.

Lemma dict_cons_spread_fresh {V : Type} (k : string) (v : V) (d : dict V) :
  List.NoDup (dict_keys d) -> ~ In k (dict_keys d) ->
  dict_cons_spread k v d = (k, v) :: d.
Proof.
  intros Hnd Hk. unfold dict_cons_spread.
  rewrite dict_spread_fold; [reflexivity|]. simpl. now constructor.
Qed.

(** The two statements that end [create_legacy_feed] (and
    [build_safari_feed]): for a feed dictionary that has neither key,
    taking [UpdateHash] and [generated_at] out of the result gives the
    dictionary that was hashed. *)
Lemma add_update_hash_body sha256_hex json_dumps_sorted py_str (feed : dict FeedBuilder.json) :
  List.NoDup (dict_keys feed) ->
  ~ In "UpdateHash" (dict_keys feed) ->
  ~ In "generated_at" (dict_keys feed) ->
  let D := FeedBuilder.add_update_hash sha256_hex json_dumps_sorted py_str feed in
  dict_get D "UpdateHash"
  = Some (FeedBuilder.JStr
            (FeedBuilder._compute_hash sha256_hex json_dumps_sorted py_str
               (FeedBuilder.JDict feed))) /\
  dict_del (dict_del D "UpdateHash") "generated_at" = feed.
Proof.
  intros Hnd Hu Hg. cbv zeta. unfold FeedBuilder.add_update_hash.
  rewrite dict_cons_spread_fresh by assumption.
  split; [reflexivity|]. simpl.
  rewrite (dict_del_absent feed "UpdateHash") by assumption.
  now apply dict_del_absent.
Qed.

Lemma feed_body_keys os_type mac blocks :
  List.NoDup (dict_keys (FeedBuilder.feed_body os_type mac blocks)) /\
  ~ In "UpdateHash" (dict_keys (FeedBuilder.feed_body os_type mac blocks)) /\
  ~ In "generated_at" (dict_keys (FeedBuilder.feed_body os_type mac blocks)).
Proof.
  unfold FeedBuilder.feed_body.
  destruct (Strings.String.eqb (lower os_type) "macos"); simpl;
    (split; [repeat constructor; simpl; intuition discriminate
            | split; intuition discriminate]).
Qed.

(** C1: in every document [create_legacy_feed] returns, the stored
    [UpdateHash] is the hash recomputed over the document with its
    [UpdateHash] field (and any [generated_at] field) removed. *)
Theorem C1_update_hash_recomputable :
  forall sha256_hex json_dumps_sorted py_str VKey pkg_version_parse vlt
         strptime_iso strptime_utc fromisoformat world load_supported_models
         os_type config releases gdmf_data mac kev D kev',
    FeedBuilder.create_legacy_feed sha256_hex json_dumps_sorted py_str VKey
      pkg_version_parse vlt strptime_iso strptime_utc fromisoformat world
      load_supported_models os_type config releases gdmf_data mac kev
    = Some (D, kev') ->
    dict_get D "UpdateHash"
    = Some (FeedBuilder.JStr
              (FeedBuilder._compute_hash sha256_hex json_dumps_sorted py_str
                 (FeedBuilder.JDict
                    (dict_del (dict_del D "UpdateHash") "generated_at")))).
Proof.
  intros sha dumps pstr VKey parse vlt s_iso s_utc fromiso world models
         os_type config releases gdmf mac kev D kev' H.
  unfold FeedBuilder.create_legacy_feed in H.
  destruct (FeedBuilder.os_versions _ _ _ _ _ _ _ _ _ _ _ _ _) as [[blocks k]|];
    [|discriminate].
  injection H as <- _.
  destruct (feed_body_keys os_type mac blocks) as (Hnd & Hu & Hg).
  destruct (add_update_hash_body sha dumps pstr _ Hnd Hu Hg) as [Hh Hd].
  now rewrite Hd.
Qed.

(** C1, on the iOS example. *)
Lemma C1_update_hash_witness :
  Examples.ios_run = Some (Examples.ios_doc, Examples.ios_kev) /\
  dict_get Examples.ios_doc "UpdateHash"
  = Some (FeedBuilder.JStr
            (FeedBuilder._compute_hash Examples.toy_sha256 Examples.toy_dumps
               Examples.toy_str
               (FeedBuilder.JDict
                  (dict_del (dict_del Examples.ios_doc "UpdateHash")
                            "generated_at")))).
Proof.
  split; [vm_compute; reflexivity|].
  apply (C1_update_hash_recomputable
           Examples.toy_sha256 Examples.toy_dumps Examples.toy_str (list Z)
           Packaging.parse Packaging.lt Examples.no_date_text Examples.no_date
           Examples.no_date KevFetcher.world_down Examples.no_models
           "iOS" Examples.ios_config Examples.ios_releases Examples.gdmf_mixed
           Examples.no_mac KevFetcher.init Examples.ios_doc Examples.ios_kev).
  vm_compute. reflexivity.
Defined.

(** ** The exploitation status of a CVE (smart_kev_detector.py) *)

(** C3: for a CVE in the loaded CISA KEV set, [get_exploitation_status]
    returns a record that is exploited, cites [cisa_kev], and has
    confidence [confirmed] or [high]: [confirmed] is kept when the Apple
    text gave it, anything else becomes exactly [high]. *)
Theorem C3_cisa_membership_marks_exploited :
  forall (re_search : string -> string -> option SmartKev.Match)
         (st : SmartKev.t) (cve : string) (apple_text : option string)
         (platform : string),
    cve ∈ SmartKev.cisa_kevs st ->
    let r := fst (SmartKev.get_exploitation_status re_search st cve apple_text platform) in
    SmartKev.is_exploited r = true /\
    In SmartKev.CISA_KEV (SmartKev.sources r) /\
    (SmartKev.confidence r = SmartKev.CONFIRMED \/
     SmartKev.confidence r = SmartKev.HIGH) /\
    match SmartKev.apple_finding re_search cve apple_text platform with
    | Some a =>
        (SmartKev.confidence a = SmartKev.CONFIRMED ->
         SmartKev.confidence r = SmartKev.CONFIRMED) /\
        (SmartKev.confidence a <> SmartKev.CONFIRMED ->
         SmartKev.confidence r = SmartKev.HIGH)
    | None => SmartKev.confidence r = SmartKev.HIGH
    end.
Proof.
  intros re_search st cve apple_text platform Hin. cbv zeta.
  unfold SmartKev.get_exploitation_status.
  destruct (decide (cve ∈ SmartKev.cisa_kevs st)) as [_|Hn]; [|contradiction].
  set (info1 := match SmartKev.apple_finding re_search cve apple_text platform with
                | Some a => a
                | None => SmartKev.blank_info cve platform
                end).
  change (SmartKev.is_exploited (SmartKev.cisa_upgrade info1)) with true.
  cbv iota. cbn [fst].
  pose proof (SmartKev.cisa_upgrade_confidence info1) as [Hc Hh].
  split; [reflexivity|]. split; [apply SmartKev.cisa_upgrade_sources|]. split.
  - destruct (SmartKev.confidence info1) eqn:E;
      [left; now apply Hc | right; apply Hh; congruence ..].
  - subst info1.
    destruct (SmartKev.apple_finding re_search cve apple_text platform) as [a|].
    + split; assumption.
    + apply Hh. discriminate.
Qed.

(** C3, on a detector that holds one CISA entry and is asked with no
    Apple text. *)
Lemma C3_cisa_membership_witness :
  "CVE-2024-44308" ∈ ({[ "CVE-2024-44308" ]} : gset string) /\
  SmartKev.confidence
    (fst (SmartKev.get_exploitation_status SmartKev.literal_search
            {| SmartKev.cisa_kevs := {[ "CVE-2024-44308" ]};
               SmartKev.apple_exploited := ∅ |}
            "CVE-2024-44308" None "macOS"))
  = SmartKev.HIGH.
Proof.
  split; [apply elem_of_singleton; reflexivity|].
  apply (C3_cisa_membership_marks_exploited SmartKev.literal_search
           {| SmartKev.cisa_kevs := {[ "CVE-2024-44308" ]};
              SmartKev.apple_exploited := ∅ |}
           "CVE-2024-44308" None "macOS").
  vm_compute. reflexivity.
Defined.

(** ** Scenarios S3 and S4 of the specification, run on the model *)

(** The detector after it has seen the Apple text for iOS. *)
Definition detector_after_ios : SmartKev.t :=
  snd (SmartKev.get_exploitation_status SmartKev.literal_search
         {| SmartKev.cisa_kevs := ∅; SmartKev.apple_exploited := ∅ |}
         "CVE-2025-24201"
         (Some "Impact: Apple is aware of a report that this issue may have been exploited.")
         "iOS").

Example scenario_S4_detector :
  let mac := fst (SmartKev.get_exploitation_status SmartKev.literal_search
                    detector_after_ios "CVE-2025-24201" None "macOS") in
  (SmartKev.is_exploited mac, SmartKev.sources mac, SmartKev.confidence mac,
   SmartKev.notes mac)
  = (false, [SmartKev.CROSS_PLATFORM], SmartKev.MEDIUM,
     Some "Known exploited on: iOS").
Proof. vm_compute. reflexivity. Qed.

Example scenario_S4_enricher :
  let e := fst (SmartKevEnricher.enrich_release SmartKev.literal_search
                  detector_after_ios ["CVE-2025-24201"] "macOS") in
  (SmartKevEnricher.actively_exploited_cves e,
   SmartKevEnricher.cross_platform_exploitation_warnings e)
  = ([], Some [("CVE-2025-24201", Some "Known exploited on: iOS")]).
Proof. vm_compute. reflexivity. Qed.

Example scenario_S4_policy :
  let lists := KevPolicy.enrich_release_entry ["CVE-2025-24201"] "macOS"
                 {[ "CVE-2025-24201" :=
                      {| KevPolicy.platforms := ["iOS"];
                         KevPolicy.in_cisa_kev := false;
                         KevPolicy.categories := ["ACTIVELY_EXPLOITED"] |} ]} in
  (KevPolicy.actively_exploited lists, KevPolicy.exploitation_warnings lists)
  = ([], [("CVE-2025-24201", Some "Known exploited on: iOS")]).
Proof. vm_compute. reflexivity. Qed.

Example scenario_S3_enricher :
  let e := fst (SmartKevEnricher.enrich_release SmartKev.literal_search
                  {| SmartKev.cisa_kevs := {[ "CVE-2024-44308" ]};
                     SmartKev.apple_exploited := ∅ |}
                  ["CVE-2024-44308"; "CVE-2024-44309"] "macOS") in
  SmartKevEnricher.actively_exploited_cves e = ["CVE-2024-44308"].
Proof. vm_compute. reflexivity. Qed.

(** ** Cross-platform warnings (smart_kev_detector.py,
       enrich_with_smart_kev.py, kev_policy.py) *)

(** The sources that confirm exploitation on the platform itself. *)
Definition confirming_sources : list SmartKev.ExploitationSource :=
  [SmartKev.APPLE_DIRECT; SmartKev.APPLE_TARGETED;
   SmartKev.APPLE_VERSION_SPECIFIC; SmartKev.CISA_KEV].

Lemma local_source_confirming s :
  SmartKev.local_source s = true -> In s confirming_sources.
Proof. destruct s; simpl; intros H; try discriminate; tauto. Qed.

(** A record the detector returns as exploited cites a confirming
    source. *)
Lemma exploited_status_has_confirming_source re_search st cve apple_text platform :
  SmartKev.is_exploited
    (fst (SmartKev.get_exploitation_status re_search st cve apple_text platform))
  = true ->
  exists s,
    In s (SmartKev.sources
            (fst (SmartKev.get_exploitation_status re_search st cve apple_text platform)))
    /\ In s confirming_sources.
Proof.
  unfold SmartKev.get_exploitation_status.
  set (found := SmartKev.apple_finding re_search cve apple_text platform).
  assert (Hfound : forall a, found = Some a ->
            SmartKev.is_exploited a = true /\ SmartKev.info_ok a).
  { intros a. subst found. unfold SmartKev.apple_finding.
    destruct apple_text as [text|]; [|discriminate].
    destruct (truthy text); [|discriminate]. apply SmartKev.detect_ok. }
  set (st' := match found with Some _ => _ | None => st end).
  destruct (decide (cve ∈ SmartKev.cisa_kevs st)) as [Hin|Hn].
  - change (SmartKev.is_exploited (SmartKev.cisa_upgrade _)) with true.
    cbv iota. cbn [fst]. intros _. exists SmartKev.CISA_KEV.
    split; [apply SmartKev.cisa_upgrade_sources | simpl; tauto].
  - destruct found as [a|] eqn:F.
    + destruct (Hfound a eq_refl) as [Ha [Hall Hne]]. rewrite Ha. cbn [fst].
      intros _. destruct (SmartKev.sources a) as [|s l] eqn:S; [now elim Hne|].
      exists s. split; [now left|]. apply local_source_confirming.
      now inversion Hall.
    + simpl SmartKev.is_exploited. cbv iota.
      destruct (SmartKev.check_cross_platform_exploitation st' cve platform)
        as [c|] eqn:C; cbn [fst].
      * unfold SmartKev.check_cross_platform_exploitation in C.
        destruct (SmartKev.apple_exploited st' !! cve) as [e|]; [|discriminate].
        destruct (decide (platform ∈ SmartKev.affected_platforms e)); [discriminate|].
        injection C as <-. simpl. discriminate.
      * simpl. discriminate.
Qed.

(** C2: (1) when the Apple text gives no finding, the CVE is not in
    the CISA set and an Apple finding stored from another platform does
    not list the current platform, the detector returns a record with
    [is_exploited = false], sources [cross_platform] only, confidence
    [medium] and the note "Known exploited on: <platforms>"; (2) every
    CVE that [SmartKEVEnricher.enrich_release] puts in
    [actively_exploited_cves] has a record that cites one of
    [apple_direct], [apple_targeted], [apple_version_specific],
    [cisa_kev], and a record it lists as a cross-platform warning is
    not exploited; (3) [FeedEnrichmentPolicy.enrich_release_entry]
    puts a CVE in [actively_exploited] only when the current platform
    is among the platforms it is exploited on, and in
    [exploitation_warnings] only when it is not. *)
Theorem C2_cross_platform_is_warning_only :
  (forall re_search st cve apple_text platform existing,
     SmartKev.apple_finding re_search cve apple_text platform = None ->
     cve ∉ SmartKev.cisa_kevs st ->
     SmartKev.apple_exploited st !! cve = Some existing ->
     platform ∉ SmartKev.affected_platforms existing ->
     let r := fst (SmartKev.get_exploitation_status re_search st cve apple_text platform) in
     SmartKev.is_exploited r = false /\
     SmartKev.sources r = [SmartKev.CROSS_PLATFORM] /\
     SmartKev.confidence r = SmartKev.MEDIUM /\
     SmartKev.notes r
     = Some ("Known exploited on: " +:+
             join ", " (elements (SmartKev.affected_platforms existing))) /\
     SmartKev.notes r <> Some "" /\ SmartKev.notes r <> None) /\
  (forall re_search st cves platform cve,
     In cve (SmartKevEnricher.actively_exploited_cves
               (fst (SmartKevEnricher.enrich_release re_search st cves platform))) ->
     let r := fst (SmartKev.get_exploitation_status re_search st cve None platform) in
     SmartKev.is_exploited r = true /\
     SmartKev.sources r <> [SmartKev.CROSS_PLATFORM] /\
     exists s, In s (SmartKev.sources r) /\ In s confirming_sources) /\
  (forall re_search st cves platform cve note warnings,
     SmartKevEnricher.cross_platform_exploitation_warnings
       (fst (SmartKevEnricher.enrich_release re_search st cves platform))
     = Some warnings ->
     In (cve, note) warnings ->
     ~ In cve (SmartKevEnricher.actively_exploited_cves
                 (fst (SmartKevEnricher.enrich_release re_search st cves platform)))) /\
  (forall cves platform data cve,
     In cve (KevPolicy.actively_exploited
               (KevPolicy.enrich_release_entry cves platform data)) ->
     exists d, data !! cve = Some d /\ platform ∈ KevPolicy.platforms d) /\
  (forall cves platform data cve note,
     In (cve, note) (KevPolicy.exploitation_warnings
                       (KevPolicy.enrich_release_entry cves platform data)) ->
     (exists d, data !! cve = Some d /\ platform ∉ KevPolicy.platforms d) /\
     ~ In cve (KevPolicy.actively_exploited
                 (KevPolicy.enrich_release_entry cves platform data))).
Proof.
  split; [|split; [|split; [|split]]].
  - intros re_search st cve apple_text platform existing Hf Hk He Hp. cbv zeta.
    unfold SmartKev.get_exploitation_status. rewrite Hf.
    destruct (decide (cve ∈ SmartKev.cisa_kevs st)); [contradiction|].
    simpl SmartKev.is_exploited. cbv iota.
    unfold SmartKev.check_cross_platform_exploitation. rewrite He.
    destruct (decide (platform ∈ SmartKev.affected_platforms existing));
      [contradiction|].
    cbn. repeat split; discriminate.
  - intros re_search st cves platform cve Hin. cbv zeta.
    unfold SmartKevEnricher.enrich_release in Hin.
    destruct (fold_left _ cves _) as [st' acc] eqn:F. simpl in Hin.
    pose proof (SmartKevEnricher.enrich_fold_exploited re_search platform cves st
                  SmartKevEnricher.acc0 cve) as H.
    rewrite F in H. simpl in H. destruct (H Hin) as [[]|[_ Hex]].
    split; [assumption|].
    destruct (exploited_status_has_confirming_source _ _ _ _ _ Hex) as (s & Hs & Hc).
    split; [|eauto].
    intros E. rewrite E in Hs. destruct Hs as [<-|[]].
    simpl in Hc. intuition discriminate.
  - intros re_search st cves platform cve note warnings Hw Hin Hex.
    unfold SmartKevEnricher.enrich_release in Hw, Hex.
    destruct (fold_left _ cves _) as [st' acc] eqn:F. simpl in Hw, Hex.
    pose proof (SmartKevEnricher.enrich_fold_exploited re_search platform cves st
                  SmartKevEnricher.acc0 cve) as H1.
    pose proof (SmartKevEnricher.enrich_fold_warning re_search platform cves st
                  SmartKevEnricher.acc0 cve note) as H2.
    rewrite F in H1, H2. simpl in H1, H2.
    destruct (H1 Hex) as [[]|[_ Hx]].
    assert (Hin' : In (cve, note) (SmartKevEnricher.acc_cross_platform_warnings acc)).
    { destruct (SmartKevEnricher.acc_cross_platform_warnings acc);
        [discriminate | now injection Hw as <-]. }
    destruct (H2 Hin') as [[]|[_ [Hc _]]].
    (* an exploited record never cites cross_platform *)
    revert Hx Hc. unfold SmartKev.get_exploitation_status. simpl.
    destruct (decide (cve ∈ SmartKev.cisa_kevs st)); simpl.
    + intros _ [H|[]]; discriminate.
    + destruct (SmartKev.check_cross_platform_exploitation st cve platform) as [c|] eqn:C;
        simpl; [|discriminate].
      unfold SmartKev.check_cross_platform_exploitation in C.
      destruct (SmartKev.apple_exploited st !! cve) as [e|]; [|discriminate].
      destruct (decide (platform ∈ SmartKev.affected_platforms e)); [discriminate|].
      injection C as <-. simpl. discriminate.
  - intros cves platform data cve Hin.
    destruct (KevPolicy.policy_fold_exploited platform data cves _ cve Hin)
      as [[]|[_ H]]. exact H.
  - intros cves platform data cve note Hin.
    destruct (KevPolicy.policy_fold_warning platform data cves _ cve note Hin)
      as [[]|[_ (d & Hd & Hp)]].
    split; [eauto|]. intros Hex.
    destruct (KevPolicy.policy_fold_exploited platform data cves _ cve Hex)
      as [[]|[_ (d' & Hd' & Hp')]].
    congruence.
Qed.

(** ** The GDMF merge (build_complete_feeds.py) *)

Lemma builds_loop_In matches : forall acc b,
  In b (FeedBuilder.builds_loop acc matches) <->
  In b acc \/ (b <> "" /\ exists a, In a matches /\ FeedBuilder.g_Build a = b).
Proof.
  induction matches as [|m matches IH]; simpl; intros acc b.
  - split; [tauto|]. intros [H|(_ & a & [] & _)]. exact H.
  - destruct (truthy (FeedBuilder.g_Build m)) eqn:T; simpl.
    + apply truthy_ne in T.
      destruct (mem (FeedBuilder.g_Build m) acc) eqn:M; simpl; rewrite IH.
      * apply mem_In in M. split.
        -- intros [H|(Hb & a & Ha & E)]; [tauto|]. right. eauto.
        -- intros [H|(Hb & a & [->|Ha] & E)]; [tauto| subst; tauto |].
           right. eauto.
      * rewrite in_app_iff. simpl. split.
        -- intros [[H|[<-|[]]]|(Hb & a & Ha & E)]; [tauto| |]; right; eauto.
        -- intros [H|(Hb & a & [->|Ha] & E)]; [tauto| subst; tauto |].
           right. eauto.
    + rewrite IH. split.
      * intros [H|(Hb & a & Ha & E)]; [tauto|]. right. eauto.
      * intros [H|(Hb & a & [->|Ha] & E)]; [tauto| |right; eauto].
        subst b. destruct (FeedBuilder.g_Build a); [now elim Hb | discriminate].
Qed.

Lemma builds_loop_In_nil matches b :
  (b <> "" /\ exists a, In a matches /\ FeedBuilder.g_Build a = b) <->
  In b (FeedBuilder.builds_loop [] matches).
Proof. rewrite builds_loop_In. simpl. tauto. Qed.

Lemma builds_loop_NoDup matches : forall acc,
  List.NoDup acc -> List.NoDup (FeedBuilder.builds_loop acc matches).
Proof.
  induction matches as [|m matches IH]; simpl; intros acc Hnd; [assumption|].
  destruct (truthy (FeedBuilder.g_Build m) && negb (mem (FeedBuilder.g_Build m) acc))
    eqn:C; [|now apply IH].
  apply IH. apply andb_true_iff in C as [_ C]. apply negb_true_iff in C.
  apply mem_false_In in C.
  apply (Permutation_NoDup (l := FeedBuilder.g_Build m :: acc)).
  - apply Permutation_cons_append.
  - now constructor.
Qed.

Lemma sort_strings_sorted l :
  StronglySorted (fun x y => Strings.String.leb x y = true)
                 (FeedBuilder.sort_strings l).
Proof.
  unfold FeedBuilder.sort_strings.
  eapply StronglySorted_weaken; [| apply sorted_asc_sorted ].
  - intros x y H. unfold not_after in H. now apply string_ltb_leb.
  - apply string_ltb_asym.
  - intros a b c H1 H2. apply string_ltb_leb.
    apply string_ltb_leb in H1, H2. eapply string_leb_trans; eassumption.
Qed.

Lemma matches_to_merge_nonempty os_key version gdmf :
  FeedBuilder.all_matches os_key version gdmf <> [] ->
  FeedBuilder.matches_to_merge os_key version gdmf <> [].
Proof.
  unfold FeedBuilder.matches_to_merge.
  destruct (FeedBuilder.filtered_matches _ _); [auto | discriminate].
Qed.

Lemma matches_to_merge_incl os_key version gdmf a :
  In a (FeedBuilder.matches_to_merge os_key version gdmf) ->
  In a (FeedBuilder.all_matches os_key version gdmf).
Proof.
  unfold FeedBuilder.matches_to_merge.
  destruct (FeedBuilder.filtered_matches _ _) as [|f fs] eqn:F; [auto|].
  intros H. rewrite <- F in H. unfold FeedBuilder.filtered_matches in H.
  destruct (FeedBuilder.family _); [|contradiction].
  now apply filter_In in H.
Qed.

Lemma all_matches_version os_key version gdmf a :
  In a (FeedBuilder.all_matches os_key version gdmf) ->
  FeedBuilder.g_ProductVersion a = version.
Proof.
  unfold FeedBuilder.all_matches, FeedBuilder.matches_in.
  rewrite in_app_iff, !filter_In.
  intros [[_ H]|[_ H]]; apply andb_true_iff in H as [H _];
    now apply Strings.String.eqb_eq.
Qed.

(** The claim as the specification words it: the assets that are
    merged are the ones found under the platform's key whose
    [ProductVersion] equals the version. *)
Definition version_equal_assets (os_key version : string)
  (gdmf_data : FeedBuilder.GDMFData) : list FeedBuilder.GDMFAsset :=
  let search_key := if mem os_key ["watchOS"; "tvOS"] then "iOS" else os_key in
  let under (asset_set : dict (list FeedBuilder.GDMFAsset)) :=
    List.filter (fun a => Strings.String.eqb (FeedBuilder.g_ProductVersion a) version)
                (match dict_get asset_set search_key with Some l => l | None => [] end) in
  under (FeedBuilder.PublicAssetSets gdmf_data) ++ under (FeedBuilder.AssetSets gdmf_data).

Definition merge_as_specified (os_key version : string)
  (gdmf_data : FeedBuilder.GDMFData) : Prop :=
  version_equal_assets os_key version gdmf_data <> [] ->
  exists m,
    FeedBuilder._find_gdmf_match os_key version gdmf_data = Some m /\
    FeedBuilder.m_SupportedDevices m
    = FeedBuilder.first_seen
        (flat_map FeedBuilder.g_SupportedDevices
                  (version_equal_assets os_key version gdmf_data)) /\
    FeedBuilder.m_AllBuilds m
    = FeedBuilder.sort_strings
        (FeedBuilder.first_seen
           (map FeedBuilder.g_Build (version_equal_assets os_key version gdmf_data))).

(** C4 fails as stated: for iOS 18.2, with an iPhone asset and an Apple
    TV asset of version 18.2 under the iOS key, only the iPhone asset
    is merged. *)
Lemma C4_merge_counterexample :
  ~ merge_as_specified "iOS" "18.2" Examples.gdmf_mixed.
Proof.
  intros H. destruct H as (m & Hm & Hd & _); [discriminate|].
  vm_compute in Hm. injection Hm as <-. vm_compute in Hd. discriminate.
Qed.

(** The amended claim's words.  The matches: the assets with an equal
    [ProductVersion] under the platform's key in [PublicAssetSets],
    then in [AssetSets]; for watchOS and tvOS under the iOS key and
    with a Watch / AppleTV device. *)
Definition some_device_starts_with (prefixes : list string)
  (a : FeedBuilder.GDMFAsset) : bool :=
  existsb (fun device => existsb (fun p => Strings.String.prefix p device) prefixes)
          (FeedBuilder.g_SupportedDevices a).

Definition matches_as_amended (os_key version : string)
  (gdmf_data : FeedBuilder.GDMFData) : list FeedBuilder.GDMFAsset :=
  let search_key :=
    if Strings.String.eqb os_key "watchOS" || Strings.String.eqb os_key "tvOS"
    then "iOS" else os_key in
  let is_match (a : FeedBuilder.GDMFAsset) :=
    Strings.String.eqb (FeedBuilder.g_ProductVersion a) version
    && (if Strings.String.eqb os_key "watchOS" then some_device_starts_with ["Watch"] a
        else if Strings.String.eqb os_key "tvOS"
             then some_device_starts_with ["AppleTV"] a
             else true) in
  let under (asset_set : dict (list FeedBuilder.GDMFAsset)) :=
    List.filter is_match
      (match dict_get asset_set search_key with Some l => l | None => [] end) in
  under (FeedBuilder.PublicAssetSets gdmf_data) ++ under (FeedBuilder.AssetSets gdmf_data).

(** The device family of a platform, by its lower-cased key: iPhone and
    iPad for iOS, AppleTV for tvOS, Watch for watchOS, RealityDevice for
    visionOS, Mac for macOS; no family for any other key. *)
Definition family_as_amended (os_key : string) : list string :=
  let k := lower os_key in
  if Strings.String.eqb k "ios" then ["iPhone"; "iPad"]
  else if Strings.String.eqb k "tvos" then ["AppleTV"]
  else if Strings.String.eqb k "watchos" then ["Watch"]
  else if Strings.String.eqb k "visionos" then ["RealityDevice"]
  else if Strings.String.eqb k "macos" then ["Mac"]
  else [].

(** The assets merged: the matches with a device of the platform's
    family when some match has one, all matches otherwise. *)
Definition merged_as_amended (os_key version : string)
  (gdmf_data : FeedBuilder.GDMFData) : list FeedBuilder.GDMFAsset :=
  let matches := matches_as_amended os_key version gdmf_data in
  let in_family := some_device_starts_with (family_as_amended os_key) in
  if existsb in_family matches then List.filter in_family matches else matches.

Lemma all_matches_as_amended os_key version gdmf :
  FeedBuilder.all_matches os_key version gdmf
  = matches_as_amended os_key version gdmf.
Proof.
  unfold FeedBuilder.all_matches, FeedBuilder.matches_in, matches_as_amended,
    FeedBuilder.has_device, some_device_starts_with, startswith_any, startswith.
  cbn [mem existsb]. rewrite orb_false_r. reflexivity.
Qed.

Lemma MacBook_starts_with_Mac d :
  Strings.String.prefix "MacBook" d = true -> Strings.String.prefix "Mac" d = true.
Proof.
  destruct d as [|a [|b [|c d]]]; cbn [Strings.String.prefix];
    try (intros; discriminate);
    repeat (destruct (ascii_dec _ _); try (intros; discriminate)).
  intros _. now destruct d.
Qed.

Lemma filter_nil_existsb {A : Type} (p : A -> bool) (l : list A) :
  match List.filter p l with [] => l | f => f end
  = if existsb p l then List.filter p l else l.
Proof.
  destruct (existsb p l) eqn:E.
  - apply existsb_exists in E as (x & Hx & Px).
    destruct (List.filter p l) eqn:F; [|reflexivity].
    assert (H : In x (List.filter p l)) by (apply filter_In; auto).
    rewrite F in H. contradiction.
  - destruct (List.filter p l) as [|y f] eqn:F; [reflexivity|].
    assert (H : In y (List.filter p l)) by (rewrite F; now left).
    apply filter_In in H as [Hy Py].
    assert (existsb p l = true) by (apply existsb_exists; eauto). congruence.
Qed.

Lemma existsb_pointwise {A : Type} (f g : A -> bool) (l : list A) :
  (forall x, f x = g x) -> existsb f l = existsb g l.
Proof.
  intros H. induction l as [|x l IH]; simpl; [reflexivity|]. now rewrite H, IH.
Qed.

Lemma filtered_matches_as_amended os_key all :
  FeedBuilder.filtered_matches os_key all
  = List.filter (some_device_starts_with (family_as_amended os_key)) all.
Proof.
  unfold FeedBuilder.filtered_matches, FeedBuilder.family, family_as_amended.
  destruct (Strings.String.eqb (lower os_key) "ios"); [reflexivity|].
  destruct (Strings.String.eqb (lower os_key) "tvos"); [reflexivity|].
  destruct (Strings.String.eqb (lower os_key) "watchos"); [reflexivity|].
  destruct (Strings.String.eqb (lower os_key) "visionos"); [reflexivity|].
  destruct (Strings.String.eqb (lower os_key) "macos").
  - apply filter_ext. intros a.
    unfold FeedBuilder.has_device, some_device_starts_with, startswith_any, startswith.
    apply existsb_pointwise. intros d. cbn [existsb]. rewrite !orb_false_r.
    destruct (Strings.String.prefix "Mac" d) eqn:E; [reflexivity|]. simpl.
    destruct (Strings.String.prefix "MacBook" d) eqn:E2; [|reflexivity].
    apply MacBook_starts_with_Mac in E2. congruence.
  - symmetry. induction all as [|a all IH]; [reflexivity|]. simpl.
    unfold some_device_starts_with at 1. simpl.
    replace (existsb (fun _ : string => false) (FeedBuilder.g_SupportedDevices a))
      with false; [assumption|].
    induction (FeedBuilder.g_SupportedDevices a); simpl; auto.
Qed.

Lemma matches_to_merge_as_amended os_key version gdmf :
  FeedBuilder.matches_to_merge os_key version gdmf
  = merged_as_amended os_key version gdmf.
Proof.
  unfold FeedBuilder.matches_to_merge, merged_as_amended.
  rewrite filtered_matches_as_amended, all_matches_as_amended.
  apply filter_nil_existsb.
Qed.

(** C4, amended: [_find_gdmf_match] returns nothing exactly when there
    is no match (an asset with an equal [ProductVersion] under the
    platform's key; for watchOS and tvOS under the iOS key and with a
    Watch / AppleTV device).  Otherwise the assets it merges, [M], are
    the matches that have a device of the platform's family when some
    match has one, and all matches otherwise; [SupportedDevices] is the
    concatenation of the device lists of [M] with each device kept at
    its first occurrence, [AllBuilds] is the sorted duplicate-free list
    of the non-empty [Build] values of [M], the build written to
    [Latest] is the first entry of [AllBuilds] when there is one, and
    [ExpirationDate] is that of the first asset of [M].  Scenario S6
    gives [A; B; C; D], [22D50; 22D51] and 22D50; with an Apple TV asset
    of the same version under the iOS key, iOS merges the iPhone asset
    alone. *)
Theorem C4_gdmf_merge :
  (forall os_key version gdmf_data,
     match FeedBuilder._find_gdmf_match os_key version gdmf_data with
     | None => matches_as_amended os_key version gdmf_data = []
     | Some m =>
         let M := merged_as_amended os_key version gdmf_data in
         matches_as_amended os_key version gdmf_data <> [] /\
         M <> [] /\
         (forall a, In a M ->
            FeedBuilder.g_ProductVersion a = version /\
            In a (matches_as_amended os_key version gdmf_data)) /\
         (forall a, In a (matches_as_amended os_key version gdmf_data) ->
            some_device_starts_with (family_as_amended os_key) a = true ->
            In a M) /\
         FeedBuilder.m_SupportedDevices m
         = FeedBuilder.first_seen (flat_map FeedBuilder.g_SupportedDevices M) /\
         List.NoDup (FeedBuilder.m_SupportedDevices m) /\
         (forall d, In d (FeedBuilder.m_SupportedDevices m) <->
                    exists a, In a M /\ In d (FeedBuilder.g_SupportedDevices a)) /\
         StronglySorted (fun x y => Strings.String.leb x y = true)
                        (FeedBuilder.m_AllBuilds m) /\
         List.NoDup (FeedBuilder.m_AllBuilds m) /\
         (forall b, In b (FeedBuilder.m_AllBuilds m) <->
                    b <> "" /\ exists a, In a M /\ FeedBuilder.g_Build a = b) /\
         (forall release_build first rest,
            FeedBuilder.m_AllBuilds m = first :: rest ->
            FeedBuilder.latest_build (Some m) release_build = first) /\
         (exists first rest,
            M = first :: rest /\
            FeedBuilder.m_ExpirationDate m = FeedBuilder.g_ExpirationDate first)
     end) /\
  (exists m,
     FeedBuilder._find_gdmf_match "iOS" "18.2" Examples.gdmf_s6 = Some m /\
     FeedBuilder.m_SupportedDevices m = ["A"; "B"; "C"; "D"] /\
     FeedBuilder.m_AllBuilds m = ["22D50"; "22D51"] /\
     FeedBuilder.latest_build (Some m) None = "22D50") /\
  (length (matches_as_amended "iOS" "18.2" Examples.gdmf_mixed) = 2 /\
   map FeedBuilder.g_SupportedDevices
       (merged_as_amended "iOS" "18.2" Examples.gdmf_mixed)
   = [["iPhone17,1"]]).
Proof.
  split; [|split].
  - intros os_key version gdmf. unfold FeedBuilder._find_gdmf_match.
    pose proof (all_matches_as_amended os_key version gdmf) as HA.
    pose proof (matches_to_merge_as_amended os_key version gdmf) as HM.
    destruct (FeedBuilder.all_matches os_key version gdmf) as [|a0 all] eqn:A;
      [now rewrite <- HA|].
    assert (Hne : FeedBuilder.matches_to_merge os_key version gdmf <> []).
    { apply matches_to_merge_nonempty. rewrite A. discriminate. }
    destruct (FeedBuilder.matches_to_merge os_key version gdmf) as [|first rest] eqn:M;
      [now elim Hne|].
    cbv zeta. cbn [FeedBuilder.m_SupportedDevices FeedBuilder.m_AllBuilds
                   FeedBuilder.m_ExpirationDate].
    rewrite <- HM, <- HA.
    split; [discriminate|]. split; [discriminate|]. split.
    { intros a Ha. rewrite <- M in Ha. apply matches_to_merge_incl in Ha.
      split; [now apply all_matches_version in Ha | now rewrite <- A]. }
    split.
    { intros a Ha Hf. rewrite HM. unfold merged_as_amended.
      rewrite <- HA.
      assert (Hex : existsb (some_device_starts_with (family_as_amended os_key))
                            (a0 :: all) = true)
        by (apply existsb_exists; eauto).
      rewrite Hex. apply filter_In. auto. }
    rewrite FeedBuilder.unique_loop_first_seen.
    split; [reflexivity|].
    split; [apply FeedBuilder.first_seen_NoDup|].
    split.
    { intros d. rewrite FeedBuilder.first_seen_In, in_flat_map. reflexivity. }
    split; [apply sort_strings_sorted|].
    assert (Hperm : Permutation (FeedBuilder.builds_loop [] (first :: rest))
                      (FeedBuilder.sort_strings
                         (FeedBuilder.builds_loop [] (first :: rest))))
      by apply sorted_asc_perm.
    split.
    { eapply Permutation_NoDup; [exact Hperm|].
      apply builds_loop_NoDup. constructor. }
    split.
    { intros b. split; intros H.
      - apply builds_loop_In_nil.
        eapply Permutation_in; [symmetry; exact Hperm | exact H].
      - apply builds_loop_In_nil in H.
        eapply Permutation_in; [exact Hperm | exact H]. }
    split.
    { intros rb f r E. unfold FeedBuilder.latest_build.
      cbn [FeedBuilder.m_AllBuilds]. now rewrite E. }
    exists first, rest. split; reflexivity.
  - eexists. split; [vm_compute; reflexivity|]. repeat split.
  - split; vm_compute; reflexivity.
Qed.

(** ** Conditional fetches (fetch_security_pages.py) *)

(** The first request of a run. *)
Definition first_request (c : PageFetcher.Cache) (url : string)
  (force_refresh verify_content : bool) : PageFetcher.Request :=
  {| PageFetcher.req_url := url;
     PageFetcher.req_headers :=
       PageFetcher.first_headers (PageFetcher.load_meta c url)
                                 force_refresh verify_content |}.

(** C5 as the specification words it: an answer whose content hash
    equals the stored one gives [wasModified = false] and a metadata
    entry whose time stamp is the time of the run. *)
Definition refreshed_as_specified (network : nat -> PageFetcher.Request -> PageFetcher.NetResult)
  (now : string) (hash : string -> string) (c : PageFetcher.Cache) (url : string)
  (verify_content : bool) : Prop :=
  forall r m,
    network 0 (first_request c url false verify_content) = PageFetcher.Reply r ->
    (200 <= PageFetcher.status_code r < 300)%Z ->
    PageFetcher.metas c !! url = Some m ->
    PageFetcher.content_hash m = hash (PageFetcher.text r) ->
    let run := PageFetcher.fetch_from_url network now hash c url false verify_content in
    PageFetcher.outcome run = PageFetcher.Returned (PageFetcher.text r) false /\
    exists m', PageFetcher.metas (PageFetcher.cache_after run) !! url = Some m' /\
               PageFetcher.seen m' = now.

Definition page_url : string := "https://support.apple.com/en-ca/100100".

Definition page_200 : PageFetcher.Response :=
  {| PageFetcher.status_code := 200; PageFetcher.text := "<html>15.3</html>";
     PageFetcher.header_last_modified := Some "Mon, 27 Jan 2025 18:00:00 GMT" |}.

Definition page_304 : PageFetcher.Response :=
  {| PageFetcher.status_code := 304; PageFetcher.text := "";
     PageFetcher.header_last_modified := None |}.

(** A stand-in for the content hash. *)
Definition toy_content_hash (html : string) : string := "h:" +:+ html.

(** A cache that holds the page with the hash of [page_200], seen in
    January. *)
Definition warm_cache : PageFetcher.Cache :=
  {| PageFetcher.metas :=
       {[ page_url := {| PageFetcher.meta_url := page_url;
                         PageFetcher.last_modified := "Mon, 27 Jan 2025 18:00:00 GMT";
                         PageFetcher.content_hash := "h:<html>15.3</html>";
                         PageFetcher.seen := "2025-01-27T18:05:00Z" |} ]};
     PageFetcher.raws := {[ page_url := "<html>15.3</html>" ]} |}.

(** A cache with the metadata of the page and no raw file. *)
Definition meta_only_cache : PageFetcher.Cache :=
  {| PageFetcher.metas := PageFetcher.metas warm_cache; PageFetcher.raws := ∅ |}.

Definition always_200 (n : nat) (req : PageFetcher.Request) : PageFetcher.NetResult :=
  PageFetcher.Reply page_200.

(** 304 to a conditional request, 200 to an unconditional one. *)
Definition conditional_server (n : nat) (req : PageFetcher.Request)
  : PageFetcher.NetResult :=
  match dict_get (PageFetcher.req_headers req) "If-Modified-Since" with
  | Some _ => PageFetcher.Reply page_304
  | None => PageFetcher.Reply page_200
  end.

(** C5 fails as stated: with the page unchanged since January and
    fetched again in June (in verify mode, so that the server answers
    200), the stored time stamp is still the one of January. *)
Lemma C5_timestamp_counterexample :
  ~ refreshed_as_specified always_200 "2025-06-01T00:00:00Z" toy_content_hash
      warm_cache page_url true.
Proof.
  intros H.
  destruct (H page_200 {| PageFetcher.meta_url := page_url;
                          PageFetcher.last_modified := "Mon, 27 Jan 2025 18:00:00 GMT";
                          PageFetcher.content_hash := "h:<html>15.3</html>";
                          PageFetcher.seen := "2025-01-27T18:05:00Z" |})
    as (_ & m' & Hm & Hs).
  - reflexivity.
  - simpl. lia.
  - vm_compute. reflexivity.
  - reflexivity.
  - vm_compute in Hm. injection Hm as <-. discriminate Hs.
Qed.

(** C5, amended: when the answer is a 2xx response whose content hash
    equals the stored one and [force_refresh] is not set,
    [fetch_from_url] returns the page with [wasModified = false], sends
    no further request and leaves the cache (metadata and raw file) as
    it was: the metadata time stamp is not refreshed. *)
Theorem C5_unchanged_hash_leaves_cache :
  forall network now hash (c : PageFetcher.Cache) url verify_content r m,
    network 0 (first_request c url false verify_content) = PageFetcher.Reply r ->
    (200 <= PageFetcher.status_code r < 300)%Z ->
    PageFetcher.metas c !! url = Some m ->
    PageFetcher.content_hash m = hash (PageFetcher.text r) ->
    let run := PageFetcher.fetch_from_url network now hash c url false verify_content in
    PageFetcher.outcome run = PageFetcher.Returned (PageFetcher.text r) false /\
    PageFetcher.cache_after run = c /\
    PageFetcher.requests run = [first_request c url false verify_content] /\
    PageFetcher.metas (PageFetcher.cache_after run) !! url = Some m.
Proof.
  intros network now hash c url verify r m Hnet Hst Hm Hh. cbv zeta.
  unfold PageFetcher.fetch_from_url.
  unfold first_request in Hnet. rewrite Hnet.
  replace (PageFetcher.status_code r =? 304)%Z with false
    by (symmetry; apply Z.eqb_neq; lia).
  unfold PageFetcher.process_response.
  replace ((400 <=? PageFetcher.status_code r)%Z) with false
    by (symmetry; apply Z.leb_gt; lia).
  unfold PageFetcher.load_meta. rewrite Hm. simpl.
  rewrite Hh, Strings.String.eqb_refl. simpl.
  repeat split; try reflexivity; [|exact Hm].
  unfold first_request, PageFetcher.load_meta. rewrite Hm. reflexivity.
Qed.

(** C5 (amended), on the page fetched again in June. *)
Lemma C5_unchanged_hash_witness :
  PageFetcher.metas
    (PageFetcher.cache_after
       (PageFetcher.fetch_from_url always_200 "2025-06-01T00:00:00Z"
          toy_content_hash warm_cache page_url false true)) !! page_url
  = Some {| PageFetcher.meta_url := page_url;
            PageFetcher.last_modified := "Mon, 27 Jan 2025 18:00:00 GMT";
            PageFetcher.content_hash := "h:<html>15.3</html>";
            PageFetcher.seen := "2025-01-27T18:05:00Z" |}.
Proof.
  apply (C5_unchanged_hash_leaves_cache always_200 "2025-06-01T00:00:00Z"
           toy_content_hash warm_cache page_url true page_200).
  - reflexivity.
  - simpl. lia.
  - vm_compute. reflexivity.
  - reflexivity.
Defined.

(** C6: when the first answer is 304, then (a) if a non-empty raw file
    is cached for the URL, it is returned with [wasModified = false],
    the cache is untouched and no further request is sent; (b) if there
    is no raw file (or an empty one), exactly one more request is sent,
    to the same URL and without the [If-Modified-Since] header, and the
    run ends as the processing of its answer does: a response below 400
    is returned as the page, so the missing file alone is no failure. *)
Theorem C6_not_modified_uses_cache_or_retries :
  forall network now hash (c : PageFetcher.Cache) url force_refresh verify_content r1,
    network 0 (first_request c url force_refresh verify_content)
    = PageFetcher.Reply r1 ->
    PageFetcher.status_code r1 = 304%Z ->
    let run := PageFetcher.fetch_from_url network now hash c url
                 force_refresh verify_content in
    let retry := PageFetcher.retry_request c url force_refresh verify_content in
    (forall cached,
       PageFetcher.load_raw c url = Some cached -> cached <> "" ->
       PageFetcher.outcome run = PageFetcher.Returned cached false /\
       PageFetcher.cache_after run = c /\
       PageFetcher.requests run = [first_request c url force_refresh verify_content]) /\
    (PageFetcher.load_raw c url = None \/ PageFetcher.load_raw c url = Some "" ->
       PageFetcher.requests run
       = [first_request c url force_refresh verify_content; retry] /\
       PageFetcher.req_url retry = url /\
       dict_get (PageFetcher.req_headers retry) "If-Modified-Since" = None /\
       (forall r2, network 1 retry = PageFetcher.Reply r2 ->
          run = PageFetcher.process_response now hash c (PageFetcher.load_meta c url)
                  url force_refresh r2
                  [first_request c url force_refresh verify_content; retry] /\
          ((PageFetcher.status_code r2 < 400)%Z ->
           exists was_modified,
             PageFetcher.outcome run
             = PageFetcher.Returned (PageFetcher.text r2) was_modified))).
Proof.
  intros network now hash c url force verify r1 Hnet Hst. cbv zeta.
  unfold PageFetcher.fetch_from_url.
  unfold first_request in Hnet |- *. rewrite Hnet, Hst. simpl Z.eqb. cbv iota.
  fold (PageFetcher.retry_request c url force verify).
  set (retry := PageFetcher.retry_request c url force verify).
  split.
  - intros cached Hraw Hne. rewrite Hraw. simpl.
    apply truthy_ne in Hne. rewrite Hne. auto.
  - intros Hraw.
    assert (Hfalsy : otruthy (PageFetcher.load_raw c url) = false)
      by (destruct Hraw as [-> | ->]; reflexivity).
    rewrite Hfalsy.
    split; [|split; [reflexivity|split; [apply PageFetcher.retry_has_no_condition|]]].
    + destruct (network 1 retry) as [r2|].
      * unfold PageFetcher.process_response, PageFetcher.on_request_error.
        rewrite Hfalsy.
        destruct ((400 <=? PageFetcher.status_code r2)%Z
                  && (PageFetcher.status_code r2 <? 600)%Z); [reflexivity|].
        destruct (negb force && _); reflexivity.
      * unfold PageFetcher.on_request_error. rewrite Hfalsy. reflexivity.
    + intros r2 Hr2. rewrite Hr2. split; [reflexivity|].
      intros Hlt. unfold PageFetcher.process_response.
      replace ((400 <=? PageFetcher.status_code r2)%Z) with false
        by (symmetry; apply Z.leb_gt; lia).
      simpl. destruct (negb force && _); simpl; eauto.
Qed.

(** C6, on a server that answers 304 to the conditional request while
    the raw file is missing: the retry fetches the page. *)
Lemma C6_retry_witness :
  PageFetcher.outcome
    (PageFetcher.fetch_from_url conditional_server "2025-06-01T00:00:00Z"
       toy_content_hash meta_only_cache page_url false false)
  = PageFetcher.Returned "<html>15.3</html>" false.
Proof.
  destruct (C6_not_modified_uses_cache_or_retries conditional_server
              "2025-06-01T00:00:00Z" toy_content_hash meta_only_cache page_url
              false false page_304) as [_ H].
  - vm_compute. reflexivity.
  - reflexivity.
  - destruct H as (_ & _ & _ & H); [left; vm_compute; reflexivity|].
    destruct (H page_200) as [-> _]; [vm_compute; reflexivity|].
    vm_compute. reflexivity.
Defined.

(** ** The CVE list of a release (build_security_releases.py) *)

Lemma upper_ascii_idem c : upper_ascii (upper_ascii c) = upper_ascii c.
Proof. destruct c as [[] [] [] [] [] [] [] []]; reflexivity. Qed.

Lemma upper_idem s : upper (upper s) = upper s.
Proof.
  induction s as [|c s IH]; simpl; [reflexivity|].
  now rewrite upper_ascii_idem, IH.
Qed.

(** What [RE_CVE.findall] and [int] guarantee of a match: upper-cased,
    it splits at the hyphens into CVE, the year and the sequence number,
    and [int] reads the sequence number.  The digits may be any decimal
    digits. *)
Definition RE_CVE_match (py_int : string -> option Z) (m : string) : Prop :=
  exists y q n, split "-" (upper m) = ["CVE"; y; q] /\ py_int q = Some n.

(** The year of an identifier, as the text between the hyphens, and
    its sequence number as [int] reads it. *)
Definition year_of (s : string) : string := nth 1 (split "-" s) "".

Definition seq_of (py_int : string -> option Z) (s : string) : Z :=
  match py_int (nth 2 (split "-" s) "") with Some n => n | None => 0%Z end.

(** The order the code sorts by: the year texts compared as strings
    (code point by code point), then the sequence numbers as numbers. *)
Definition key_order (py_int : string -> option Z) (a b : string) : Prop :=
  Strings.String.ltb (year_of a) (year_of b) = true \/
  (year_of a = year_of b /\ (seq_of py_int a <= seq_of py_int b)%Z).

(** A year written with four ASCII digits. *)
Definition ascii_year (s : string) : Prop :=
  Extractor.all_digits (year_of s) = true /\
  Strings.String.length (year_of s) = 4.

(** Year ascending, then sequence ascending, both as numbers. *)
Definition numeric_order (py_int : string -> option Z) (a b : string) : Prop :=
  (Extractor.digits_value 0 (year_of a) < Extractor.digits_value 0 (year_of b))%Z \/
  (Extractor.digits_value 0 (year_of a) = Extractor.digits_value 0 (year_of b) /\
   (seq_of py_int a <= seq_of py_int b)%Z).

(** What a matched identifier gives as its sort key. *)
Definition key_of (py_int : string -> option Z) (s : string) (k : string * Z)
  : Prop :=
  Extractor.cve_sort_key py_int s = Some k /\
  fst k = year_of s /\ snd k = seq_of py_int s.

Lemma matched_has_key py_int m :
  RE_CVE_match py_int m -> exists k, key_of py_int (upper m) k.
Proof.
  intros (y & q & n & Hs & Hq).
  unfold key_of, Extractor.cve_sort_key, year_of, seq_of. rewrite Hs. simpl.
  rewrite Hq. eexists. split; [reflexivity|]. split; reflexivity.
Qed.

Lemma with_keys_total py_int l :
  Forall (fun s => exists k, key_of py_int s k) l ->
  exists kl, Extractor.with_keys py_int l = Some kl /\ map snd kl = l /\
             Forall (fun p => key_of py_int (snd p) (fst p)) kl.
Proof.
  induction 1 as [|s l (k & Hk) _ (kl & E & Hm & Hall)]; simpl.
  - exists []. repeat split; constructor.
  - pose proof Hk as (Hk1 & _). rewrite Hk1, E.
    exists ((k, s) :: kl). simpl. repeat split; [congruence|].
    constructor; assumption.
Qed.

Lemma string_leb_cases a b :
  Strings.String.leb a b = true -> Strings.String.ltb a b = true \/ a = b.
Proof.
  unfold Strings.String.leb, Strings.String.ltb.
  destruct (Strings.String.compare a b) eqn:C; intros H;
    [right; now apply Strings.String.compare_eq_iff | now left | discriminate].
Qed.

(** "Not after" on the key tuples is [key_order] on the identifiers. *)
Lemma keys_order py_int a b ka kb :
  key_of py_int a ka -> key_of py_int b kb ->
  Extractor.key_lt kb ka = false -> key_order py_int a b.
Proof.
  intros (_ & Ya & Na) (_ & Yb & Nb) H.
  apply Extractor.key_nlt_iff in H as [Hle Hseq].
  unfold key_order. rewrite <- Ya, <- Yb, <- Na, <- Nb.
  destruct (string_leb_cases _ _ Hle) as [L|E]; [now left|].
  right. split; [assumption | now apply Hseq].
Qed.

Lemma sorted_pairs_sorted_ids py_int (kl : list ((string * Z) * string)) :
  Forall (fun p => key_of py_int (snd p) (fst p)) kl ->
  StronglySorted (not_after fst Extractor.key_lt) kl ->
  StronglySorted (key_order py_int) (map snd kl).
Proof.
  intros Hall Hs. induction Hs as [|p kl Hs IH Hp]; simpl; [constructor|].
  inversion Hall as [|? ? Hk Hall']; subst.
  constructor; [now apply IH|].
  rewrite List.Forall_forall in *. intros x Hx.
  apply in_map_iff in Hx as (q & <- & Hq).
  eapply keys_order; [exact Hk | now apply Hall' | now apply Hp].
Qed.

(** On years of four ASCII digits the string order is the numeric
    order. *)
Lemma key_order_numeric py_int a b :
  ascii_year a -> ascii_year b -> key_order py_int a b -> numeric_order py_int a b.
Proof.
  intros (Da & La) (Db & Lb) [L|[E N]].
  - left. pose proof (Extractor.digits_compare (year_of a) (year_of b)
                        ltac:(congruence) Da Db) as C.
    unfold Strings.String.ltb in L.
    destruct (Strings.String.compare (year_of a) (year_of b)); try discriminate.
    symmetry in C. now apply Z.compare_lt_iff in C.
  - right. split; [now rewrite E | assumption].
Qed.

Lemma sorted_numeric py_int l :
  Forall ascii_year l ->
  StronglySorted (key_order py_int) l -> StronglySorted (numeric_order py_int) l.
Proof.
  intros Hall Hs. induction Hs as [|a l Hs IH Ha]; [constructor|].
  inversion Hall as [|? ? Hy Hall']; subst.
  constructor; [now apply IH|].
  rewrite List.Forall_forall in *. intros x Hx.
  apply key_order_numeric; auto.
Qed.

(** *** Stand-ins for [int], [RE_CVE.findall] and the iteration of a set *)

(** The digits of a string written with ASCII digits (0-9) or fullwidth
    digits (U+FF10 to U+FF19, in UTF-8 the bytes EF BC 90 to EF BC 99),
    two of the scripts whose digits [\d] matches and [int] reads. *)
Fixpoint uni_digits (s : string) : option (list Z) :=
  match s with
  | EmptyString => Some []
  | String c s' =>
      if Extractor.is_digit c
      then option_map (cons (Extractor.digit_value c)) (uni_digits s')
      else match s' with
           | String c2 (String c3 s'') =>
               if ((nat_of_ascii c =? 239) && (nat_of_ascii c2 =? 188)
                   && (144 <=? nat_of_ascii c3) && (nat_of_ascii c3 <=? 153))%nat
               then option_map (cons (Z.of_nat (nat_of_ascii c3) - 144)%Z)
                               (uni_digits s'')
               else None
           | _ => None
           end
  end.

(** [int] on such strings. *)
Definition uni_int (s : string) : option Z :=
  match uni_digits s with
  | Some (d :: ds) => Some (fold_left (fun acc x => 10 * acc + x)%Z (d :: ds) 0%Z)
  | _ => None
  end.

Definition digit_count (s : string) : nat :=
  match uni_digits s with Some ds => length ds | None => 0 end.

(** A whole word matched by [RE_CVE]. *)
Definition word_matches (w : string) : bool :=
  match split "-" (upper w) with
  | [c; y; q] =>
      Strings.String.eqb c "CVE"
      && (digit_count y =? 4)%nat
      && (4 <=? digit_count q)%nat && (digit_count q <=? 7)%nat
  | _ => false
  end.

(** The blank-separated words of the text that match. *)
Definition words_findall (text : string) : list string :=
  List.filter word_matches (split " " text).

(** First occurrences. *)
Definition first_occurrences (l : list string) : list string :=
  nodup string_dec l.

Lemma words_findall_match text :
  Forall (RE_CVE_match uni_int) (words_findall text).
Proof.
  apply List.Forall_forall. intros w Hw. apply filter_In in Hw as [_ Hw].
  unfold word_matches in Hw. unfold RE_CVE_match.
  destruct (split "-" (upper w)) as [|c [|y [|q [|? ?]]]]; try discriminate.
  apply andb_true_iff in Hw as [Hw _]. apply andb_true_iff in Hw as [Hw H4].
  apply andb_true_iff in Hw as [Hc _].
  apply Strings.String.eqb_eq in Hc. subst c.
  apply Nat.leb_le in H4. unfold digit_count in H4.
  exists y, q. unfold uni_int.
  destruct (uni_digits q) as [[|d ds]|]; simpl in H4; try lia.
  eexists. split; reflexivity.
Qed.

Lemma first_occurrences_set l :
  List.NoDup (first_occurrences l) /\
  forall x, In x (first_occurrences l) <-> In x l.
Proof.
  split; [apply List.NoDup_nodup | intros x; apply nodup_In].
Qed.

Example extract_example :
  Extractor.extract_cves_from_text words_findall first_occurrences uni_int
    "CVE-2024-10000 cve-2024-9999 CVE-2023-12345 CVE-2024-9999 macOS 15.3"
  = Some ["CVE-2023-12345"; "CVE-2024-9999"; "CVE-2024-10000"].
Proof. vm_compute. reflexivity. Qed.

(** *** The claim *)

(** The year of an identifier as the number [int] reads. *)
Definition year_number (py_int : string -> option Z) (s : string) : Z :=
  match py_int (year_of s) with Some n => n | None => 0%Z end.

(** C7 as the specification words it: no duplicates, and sorted by year
    ascending, then by sequence number ascending, as numbers. *)
Definition cves_as_specified (RE_CVE_findall : string -> list string)
  (set_iter : list string -> list string) (py_int : string -> option Z)
  (text : string) : Prop :=
  exists l,
    Extractor.extract_cves_from_text RE_CVE_findall set_iter py_int text = Some l /\
    List.NoDup l /\
    StronglySorted
      (fun a b =>
         (year_number py_int a < year_number py_int b)%Z \/
         (year_number py_int a = year_number py_int b /\
          (seq_of py_int a <= seq_of py_int b)%Z)) l.

(** A page that names CVE-2025-0001 and a CVE of 2024 whose year is
    written in fullwidth digits. *)
Definition fullwidth_text : string := "CVE-2025-0001 CVE-２０２４-0001".

(** C7 fails as stated: the years are compared as strings, and every
    ASCII digit stands before every fullwidth digit, so the CVE of 2025
    is listed before the CVE of 2024. *)
Lemma C7_unicode_year_counterexample :
  ~ cves_as_specified words_findall first_occurrences uni_int fullwidth_text.
Proof.
  intros (l & E & _ & Hs).
  assert (El : Extractor.extract_cves_from_text words_findall first_occurrences
                 uni_int fullwidth_text
               = Some ["CVE-2025-0001"; "CVE-２０２４-0001"])
    by (vm_compute; reflexivity).
  rewrite El in E. injection E as <-.
  inversion Hs as [|? ? _ Hall]; subst.
  inversion Hall as [|? ? Hab _]; subst.
  vm_compute in Hab. destruct Hab as [H|[H _]]; discriminate H.
Qed.

(** C7, amended: [extract_cves_from_text] returns a list (it does not
    raise); the list has no duplicates, holds exactly the upper-cased
    matches, and is sorted by the year text compared as a string (code
    point by code point), then by the sequence number as a number.  When
    the years of the matches are written with four ASCII digits, this is
    the order by year ascending, then by sequence number ascending, both
    as numbers. *)
Theorem C7_extracted_cves_sorted_unique :
  forall (RE_CVE_findall : string -> list string)
         (set_iter : list string -> list string)
         (py_int : string -> option Z),
    (forall text, Forall (RE_CVE_match py_int) (RE_CVE_findall text)) ->
    (forall l, List.NoDup (set_iter l) /\ forall x, In x (set_iter l) <-> In x l) ->
    forall text,
      exists l,
        Extractor.extract_cves_from_text RE_CVE_findall set_iter py_int text = Some l /\
        List.NoDup l /\
        (forall x, In x l <-> In x (map upper (RE_CVE_findall text))) /\
        Forall (fun s => upper s = s) l /\
        StronglySorted (key_order py_int) l /\
        (Forall ascii_year l -> StronglySorted (numeric_order py_int) l).
Proof.
  intros findall set_iter py_int Hmatch Hset text.
  unfold Extractor.extract_cves_from_text.
  destruct (Hset (map upper (findall text))) as [Hnd Hin].
  set (ids := set_iter (map upper (findall text))) in *.
  assert (Hids : Forall (fun s => exists k, key_of py_int s k) ids).
  { apply List.Forall_forall. intros s Hs. apply Hin in Hs.
    apply in_map_iff in Hs as (s0 & <- & Hs0).
    apply matched_has_key.
    specialize (Hmatch text). rewrite List.Forall_forall in Hmatch. auto. }
  destruct (with_keys_total py_int ids Hids) as (kl & E & Hm & Hall). rewrite E.
  eexists. split; [reflexivity|].
  pose proof (sorted_asc_perm fst Extractor.key_lt kl) as Hperm.
  assert (Hperm' : Permutation ids
                     (map snd (sorted_asc fst Extractor.key_lt kl))).
  { rewrite <- Hm. now apply Permutation_map. }
  split; [eapply Permutation_NoDup; eassumption|]. split.
  { intros x. rewrite <- Hin. split; apply Permutation_in;
      [symmetry|]; assumption. }
  split.
  { apply List.Forall_forall. intros x Hx.
    apply (Permutation_in _ (Permutation_sym Hperm')) in Hx.
    apply Hin in Hx. apply in_map_iff in Hx as (s0 & <- & _).
    apply upper_idem. }
  assert (Hsorted : StronglySorted (key_order py_int)
                      (map snd (sorted_asc fst Extractor.key_lt kl))).
  { apply sorted_pairs_sorted_ids.
    - eapply Permutation_Forall; eassumption.
    - apply sorted_asc_sorted.
      + apply Extractor.key_lt_asym.
      + apply Extractor.key_nlt_trans. }
  split; [assumption|]. intros Hy. now apply sorted_numeric.
Qed.

(** C7 (amended), with the stand-ins: a sequence number of four digits
    stands before one of five digits of the same year. *)
Lemma C7_extracted_cves_witness :
  exists l,
    Extractor.extract_cves_from_text words_findall first_occurrences uni_int
      "CVE-2024-10000 cve-2024-9999 CVE-2023-12345 CVE-2024-9999" = Some l /\
    List.NoDup l /\
    StronglySorted (key_order uni_int) l.
Proof.
  destruct (C7_extracted_cves_sorted_unique words_findall first_occurrences uni_int
              words_findall_match first_occurrences_set
              "CVE-2024-10000 cve-2024-9999 CVE-2023-12345 CVE-2024-9999")
    as (l & E & Hnd & _ & _ & Hs & _).
  exists l. auto.
Defined.

(** ** Facts about dictionaries and the KEV loop *)

Lemma dict_get_keys {V : Type} (d : dict V) k :
  In k (dict_keys d) -> exists v, dict_get d k = Some v.
Proof.
  induction d as [|[k' v'] d IH]; simpl; [tauto|].
  intros H. destruct (Strings.String.eqb k k') eqn:E; [eauto|].
  destruct H as [H|H]; [|auto].
  subst. rewrite Strings.String.eqb_refl in E. discriminate.
Qed.

Lemma dict_get_not_key {V : Type} (d : dict V) k :
  ~ In k (dict_keys d) -> dict_get d k = None.
Proof.
  induction d as [|[k' v'] d IH]; simpl; [reflexivity|].
  intros H. destruct (Strings.String.eqb k k') eqn:E; [|tauto].
  apply Strings.String.eqb_eq in E. subst. tauto.
Qed.

Lemma dict_set_same {V : Type} (d : dict V) k v :
  dict_get d k = Some v -> dict_set d k v = d.
Proof.
  induction d as [|[k' v'] d IH]; simpl; [discriminate|].
  destruct (Strings.String.eqb k k') eqn:E.
  - intros H. now injection H as ->.
  - intros H. now rewrite IH.
Qed.

(** With a set that is not empty, [is_kev] is a membership test that
    leaves the fetcher alone. *)
Lemma is_kev_loaded world st k :
  KevFetcher.kev_set st <> ∅ ->
  KevFetcher.is_kev world st k = (bool_decide (k ∈ KevFetcher.kev_set st), st).
Proof.
  intros Hne. unfold KevFetcher.is_kev.
  destruct (decide (KevFetcher.kev_set st = ∅)); [contradiction | reflexivity].
Qed.

Lemma mem_cons k k0 keys :
  mem k (k0 :: keys) = Strings.String.eqb k k0 || mem k keys.
Proof. reflexivity. Qed.

(** The loop, in closed form, once the set is loaded. *)
Lemma enrich_loop_loaded world st keys : forall d,
  KevFetcher.kev_set st <> ∅ ->
  (forall k, In k keys -> In k (dict_keys d)) ->
  snd (KevFetcher.enrich_loop world st keys d) = st /\
  forall k,
    dict_get (fst (KevFetcher.enrich_loop world st keys d)) k
    = option_map
        (fun b => b || (mem k keys && bool_decide (k ∈ KevFetcher.kev_set st)))
        (dict_get d k).
Proof.
  intros d Hne. revert d.
  induction keys as [|k0 keys IH]; intros d Hin.
  - split; [reflexivity|]. intros k. simpl.
    destruct (dict_get d k) as [b|]; simpl; [|reflexivity].
    now rewrite orb_false_r.
  - assert (Hk0 : In k0 (dict_keys d)) by (apply Hin; now left).
    assert (Hrest : forall k, In k keys -> In k (dict_keys d))
      by (intros; apply Hin; now right).
    destruct (dict_get_keys d k0 Hk0) as [b0 Hb0].
    cbn [KevFetcher.enrich_loop]. rewrite Hb0.
    destruct b0.
    + destruct (IH d Hrest) as [Hs Hg]. split; [assumption|].
      intros k. rewrite Hg, mem_cons.
      destruct (dict_get d k) as [b|] eqn:G; simpl; [|reflexivity].
      f_equal. destruct (Strings.String.eqb k k0) eqn:E; simpl; [|reflexivity].
      apply Strings.String.eqb_eq in E. subst k0.
      rewrite G in Hb0. injection Hb0 as ->. reflexivity.
    + rewrite is_kev_loaded by assumption.
      destruct (bool_decide (k0 ∈ KevFetcher.kev_set st)) eqn:Hit.
      * destruct (IH (dict_set d k0 true)) as [Hs Hg].
        { intros k Hk. rewrite dict_keys_set_present; auto. }
        split; [assumption|]. intros k. rewrite Hg, mem_cons.
        destruct (Strings.String.eqb k k0) eqn:E.
        -- apply Strings.String.eqb_eq in E. subst k0.
           rewrite dict_get_set_eq, Hb0. simpl. now rewrite Hit.
        -- assert (k0 <> k) by (intros ->; now rewrite Strings.String.eqb_refl in E).
           rewrite dict_get_set_ne by assumption. reflexivity.
      * destruct (IH d Hrest) as [Hs Hg]. split; [assumption|].
        intros k. rewrite Hg, mem_cons.
        destruct (dict_get d k) as [b|] eqn:G; simpl; [|reflexivity].
        f_equal. destruct (Strings.String.eqb k k0) eqn:E; simpl; [|reflexivity].
        apply Strings.String.eqb_eq in E. subst k0. rewrite Hit.
        now rewrite !andb_false_r.
Qed.

Lemma list_to_set_nonempty (ids : list string) :
  ids <> [] -> (list_to_set ids : gset string) <> ∅.
Proof.
  destruct ids as [|x ids]; [congruence|]. intros _ H.
  assert (Hx : x ∈ (list_to_set (x :: ids) : gset string))
    by (apply elem_of_list_to_set; now left).
  rewrite H in Hx. now apply not_elem_of_empty in Hx.
Qed.

(** ** Latest and SecurityReleases (build_complete_feeds.py) *)

Lemma dict_keys_set {V : Type} (d : dict V) k v :
  dict_keys (dict_set d k v)
  = if mem k (dict_keys d) then dict_keys d else dict_keys d ++ [k].
Proof.
  induction d as [|[k' v'] d IH]; simpl; [reflexivity|].
  destruct (Strings.String.eqb k k') eqn:E; simpl; [reflexivity|].
  rewrite IH. now destruct (mem k (dict_keys d)).
Qed.

Lemma dict_fromkeys_fold_keys {V W : Type} (f : string -> V) (g : string -> W) ks :
  forall (a : dict V) (b : dict W),
    dict_keys a = dict_keys b ->
    dict_keys (fold_left (fun acc k => dict_set acc k (f k)) ks a)
    = dict_keys (fold_left (fun acc k => dict_set acc k (g k)) ks b).
Proof.
  induction ks as [|k ks IH]; simpl; intros a b E; [assumption|].
  apply IH. now rewrite !dict_keys_set, E.
Qed.

Lemma dict_fromkeys_keys {V W : Type} (f : string -> V) (g : string -> W) ks :
  dict_keys (dict_fromkeys ks f) = dict_keys (dict_fromkeys ks g).
Proof. now apply dict_fromkeys_fold_keys. Qed.

Lemma enrich_cves_with_kev_keys world st m :
  dict_keys (fst (KevFetcher.enrich_cves_with_kev world st m)) = dict_keys m.
Proof.
  unfold KevFetcher.enrich_cves_with_kev.
  destruct (KevFetcher.load_kev_catalog world st) as [[|] st1]; [|reflexivity].
  apply KevFetcher.enrich_loop_keys. auto.
Qed.

Lemma StronglySorted_Forall2 {A B : Type} (R : A -> A -> Prop) (S : B -> B -> Prop)
  (Q : A -> B -> Prop) (l : list A) (l' : list B) :
  (forall a b a' b', R a b -> Q a a' -> Q b b' -> S a' b') ->
  StronglySorted R l -> List.Forall2 Q l l' -> StronglySorted S l'.
Proof.
  intros H Hs HQ. revert Hs.
  induction HQ as [|a a' l l' Ha HQ IH]; intros Hs; [constructor|].
  inversion Hs as [|? ? Hs' Hall]; subst.
  constructor; [now apply IH|].
  clear IH Hs Hs'. induction HQ as [|b b' l l' Hb HQ IH]; [constructor|].
  inversion Hall; subst. constructor; eauto.
Qed.

(** The fields of [Latest] and of an entry of [SecurityReleases] that
    the code fills from the same values. *)
Definition same_release_core (l : FeedBuilder.LatestEntry)
  (e : FeedBuilder.ReleaseEntry) : Prop :=
  FeedBuilder.l_ProductVersion l = FeedBuilder.sr_ProductVersion e /\
  FeedBuilder.l_ReleaseDate l = FeedBuilder.sr_ReleaseDate e /\
  FeedBuilder.l_SupportedDevices l = FeedBuilder.sr_SupportedDevices e /\
  FeedBuilder.l_SecurityInfo l = FeedBuilder.sr_SecurityInfo e /\
  dict_keys (FeedBuilder.l_CVEs l) = dict_keys (FeedBuilder.sr_CVEs e) /\
  FeedBuilder.l_UniqueCVEsCount l = FeedBuilder.sr_UniqueCVEsCount e.

(** C8 as the specification words it, on the fields both dictionaries
    have: the same release also has the same CVE map and the same list
    of exploited CVEs. *)
Definition same_release_as_specified (l : FeedBuilder.LatestEntry)
  (e : FeedBuilder.ReleaseEntry) : Prop :=
  FeedBuilder.l_ProductVersion l = FeedBuilder.sr_ProductVersion e /\
  FeedBuilder.l_ReleaseDate l = FeedBuilder.sr_ReleaseDate e /\
  FeedBuilder.l_CVEs l = FeedBuilder.sr_CVEs e /\
  FeedBuilder.l_ActivelyExploitedCVEs l = FeedBuilder.sr_ActivelyExploitedCVEs e /\
  FeedBuilder.l_SupportedDevices l = FeedBuilder.sr_SupportedDevices e.

Definition latest_is_first_as_specified (b : FeedBuilder.OSVersionBlock) : Prop :=
  match FeedBuilder.b_Latest b, FeedBuilder.b_SecurityReleases b with
  | Some l, e :: _ => same_release_as_specified l e
  | _, _ => True
  end.

(** C8 fails as stated: iOS 18.2 lists CVE-2024-54534 as actively
    exploited in the scraped data while the KEV catalog cannot be
    loaded; [Latest] marks the CVE exploited, the first entry of
    [SecurityReleases] does not. *)
Lemma C8_latest_counterexample :
  exists blocks kev,
    Examples.ios_blocks = Some (blocks, kev) /\
    ~ Forall latest_is_first_as_specified blocks.
Proof.
  eexists. eexists. split; [vm_compute; reflexivity|].
  intros H. inversion H as [|b bs Hb _]; subst.
  destruct Hb as (_ & _ & Hc & _). discriminate Hc.
Qed.

(** [{k: f(k) for k in ks}], read at a key. *)
Lemma dict_get_fold_fromkeys {V : Type} (f : string -> V) ks : forall (a : dict V) c,
  dict_get (fold_left (fun acc k => dict_set acc k (f k)) ks a) c
  = if mem c ks then Some (f c) else dict_get a c.
Proof.
  induction ks as [|k ks IH]; intros a c; [reflexivity|].
  cbn [fold_left]. rewrite IH, mem_cons.
  destruct (mem c ks); [now rewrite orb_true_r|]. rewrite orb_false_r.
  destruct (Strings.String.eqb c k) eqn:E.
  - apply Strings.String.eqb_eq in E. subst. apply dict_get_set_eq.
  - apply dict_get_set_ne. intros ->. now rewrite Strings.String.eqb_refl in E.
Qed.

Lemma dict_get_fromkeys {V : Type} (f : string -> V) ks c :
  dict_get (dict_fromkeys ks f) c = if mem c ks then Some (f c) else None.
Proof. unfold dict_fromkeys. now rewrite dict_get_fold_fromkeys. Qed.

(** The set the fetcher holds is empty or is the catalog some load
    returned. *)
Definition from_world (world : nat -> option (list string)) (s : gset string)
  : Prop :=
  s = ∅ \/ exists n ids, world n = Some ids /\ s = list_to_set ids.

Definition in_loaded_catalog (world : nat -> option (list string)) (c : string)
  : Prop :=
  exists n ids, world n = Some ids /\ In c ids.

Lemma is_kev_from_world world st k b st' :
  from_world world (KevFetcher.kev_set st) ->
  KevFetcher.is_kev world st k = (b, st') ->
  from_world world (KevFetcher.kev_set st') /\
  (b = true -> in_loaded_catalog world k).
Proof.
  intros Hw. unfold KevFetcher.is_kev, KevFetcher.load_kev_catalog.
  destruct (decide (KevFetcher.kev_set st = ∅)) as [He|Hne].
  - destruct (world (KevFetcher.loads st)) as [ids|] eqn:W; intros H;
      injection H as <- <-; simpl.
    + split; [right; eauto|]. intros Hb. apply bool_decide_eq_true in Hb.
      apply elem_of_list_to_set, list_elem_of_In in Hb.
      exists (KevFetcher.loads st), ids. auto.
    + split; [now left | discriminate].
  - intros H. injection H as <- <-. split; [assumption|].
    intros Hb. apply bool_decide_eq_true in Hb.
    destruct Hw as [He|(n & ids & W & E)]; [contradiction|].
    rewrite E in Hb. apply elem_of_list_to_set, list_elem_of_In in Hb.
    exists n, ids. auto.
Qed.

(** A flag the loop sets belongs to a CVE of a catalog that was
    loaded. *)
Lemma enrich_loop_from_world world keys : forall st d k,
  from_world world (KevFetcher.kev_set st) ->
  dict_get (fst (KevFetcher.enrich_loop world st keys d)) k = Some true ->
  dict_get d k = Some true \/ in_loaded_catalog world k.
Proof.
  induction keys as [|k0 keys IH]; simpl; intros st d k Hw Hout; [now left|].
  assert (Hstep :
    dict_get (fst (let '(hit, st1) := KevFetcher.is_kev world st k0 in
                   if hit then KevFetcher.enrich_loop world st1 keys (dict_set d k0 true)
                   else KevFetcher.enrich_loop world st1 keys d)) k = Some true ->
    dict_get d k = Some true \/ in_loaded_catalog world k).
  { destruct (KevFetcher.is_kev world st k0) as [hit st1] eqn:E.
    destruct (is_kev_from_world world st k0 hit st1 Hw E) as [Hw1 Hhit].
    destruct hit; [|now apply IH].
    intros H. apply IH in H as [H|H]; [|now right | assumption].
    destruct (string_dec k0 k) as [->|Hne]; [right; now apply Hhit|].
    left. now rewrite dict_get_set_ne in H. }
  destruct (dict_get d k0) as [[|]|]; eauto.
Qed.

Lemma enrich_flag_from_world world st m k :
  dict_get m k <> Some true ->
  dict_get (fst (KevFetcher.enrich_cves_with_kev world st m)) k = Some true ->
  in_loaded_catalog world k.
Proof.
  unfold KevFetcher.enrich_cves_with_kev, KevFetcher.load_kev_catalog.
  destruct (world (KevFetcher.loads st)) as [ids|] eqn:W; simpl; [|congruence].
  intros Hm Hout. apply enrich_loop_from_world in Hout as [H|H]; [congruence|assumption|].
  right. simpl. eauto.
Qed.

(** When every load returns the same catalog, which is not empty, the
    flags of a map that starts all false are the membership in it. *)
Lemma enrich_steady world st cves ids c :
  (forall n, world n = Some ids) -> ids <> [] ->
  dict_get (fst (KevFetcher.enrich_cves_with_kev world st
                   (dict_fromkeys cves (fun _ => false)))) c
  = if mem c cves then Some (bool_decide (c ∈ (list_to_set ids : gset string)))
    else None.
Proof.
  intros Hw Hne.
  unfold KevFetcher.enrich_cves_with_kev, KevFetcher.load_kev_catalog. rewrite Hw.
  set (st1 := {| KevFetcher.kev_set := list_to_set ids;
                 KevFetcher.catalog := Some ids;
                 KevFetcher.loads := S (KevFetcher.loads st) |}).
  set (m := dict_fromkeys cves (fun _ => false)).
  assert (Hst1 : KevFetcher.kev_set st1 <> ∅) by now apply list_to_set_nonempty.
  destruct (enrich_loop_loaded world st1 (dict_keys m) m Hst1) as [_ Hg]; [auto|].
  rewrite Hg. subst m. rewrite dict_get_fromkeys.
  destruct (mem c cves) eqn:M; [|reflexivity]. simpl. f_equal.
  destruct (mem c (dict_keys (dict_fromkeys cves (fun _ : string => false)))) eqn:K;
    [reflexivity|].
  apply mem_false_In in K. apply dict_get_not_key in K.
  rewrite dict_get_fromkeys, M in K. discriminate.
Qed.

Lemma dict_get_some_key {V : Type} (d : dict V) k v :
  dict_get d k = Some v -> In k (dict_keys d).
Proof.
  intros H. destruct (in_dec string_dec k (dict_keys d)) as [Hin|Hn]; [assumption|].
  apply dict_get_not_key in Hn. congruence.
Qed.

(** The flags of [enrich_cves_with_kev] on a map that starts all
    false. *)
Lemma enrich_flags world st cves :
  let out := fst (KevFetcher.enrich_cves_with_kev world st
                    (dict_fromkeys cves (fun _ => false))) in
  (forall c, (exists b, dict_get out c = Some b) <-> In c cves) /\
  (forall c, dict_get out c = Some true -> in_loaded_catalog world c) /\
  (forall ids, ids <> [] -> (forall n, world n = Some ids) ->
     forall c, In c cves ->
       (dict_get out c = Some true <-> In c ids) /\
       (dict_get out c = Some false <-> ~ In c ids)).
Proof.
  intros out. split; [|split].
  - intros c. split.
    + intros [b Hb]. apply dict_get_some_key in Hb. subst out.
      rewrite enrich_cves_with_kev_keys in Hb.
      apply dict_get_keys in Hb as [v Hv]. rewrite dict_get_fromkeys in Hv.
      apply mem_In. now destruct (mem c cves).
    + intros Hin. apply dict_get_keys. subst out.
      rewrite enrich_cves_with_kev_keys.
      apply (dict_get_some_key _ _ false). rewrite dict_get_fromkeys.
      apply mem_In in Hin. now rewrite Hin.
  - intros c. apply enrich_flag_from_world. rewrite dict_get_fromkeys.
    destruct (mem c cves); congruence.
  - intros ids Hne Hw c Hin. subst out.
    rewrite (enrich_steady world st cves ids c Hw Hne).
    apply mem_In in Hin. rewrite Hin.
    destruct (bool_decide (c ∈ (list_to_set ids : gset string))) eqn:B.
    + apply bool_decide_eq_true in B.
      apply elem_of_list_to_set, list_elem_of_In in B.
      split; split; intros; try reflexivity; try assumption; try discriminate.
      contradiction.
    + apply bool_decide_eq_false in B.
      assert (Hn : ~ In c ids).
      { intros H. apply B. now apply elem_of_list_to_set, list_elem_of_In. }
      split; split; intros; try reflexivity; try assumption; try discriminate.
      contradiction.
Qed.

Section LatestAndReleases.
Variable VKey : Type.
Variable pkg_version_parse : string -> option VKey.
Variable vlt : VKey -> VKey -> bool.
Variable strptime_iso : string -> option string.
Variable strptime_utc : string -> option Z.
Variable fromisoformat : string -> option Z.
Variable world : nat -> option (list string).
Variable load_supported_models : string -> FeedBuilder.json.
Hypothesis vlt_asym : forall a b, vlt a b = true -> vlt b a = false.
Hypothesis vlt_nlt_trans :
  forall a b c, vlt b a = false -> vlt c b = false -> vlt c a = false.

(** [e1] is not older than [e2], as [packaging] compares versions. *)
Definition not_older (e1 e2 : FeedBuilder.ReleaseEntry) : Prop :=
  exists k1 k2,
    pkg_version_parse (FeedBuilder.sr_ProductVersion e1) = Some k1 /\
    pkg_version_parse (FeedBuilder.sr_ProductVersion e2) = Some k2 /\
    vlt k1 k2 = false.

(** Where the truth values of [Latest] come from: the release's own
    [actively_exploited_cves]. *)
Definition latest_from (r : FeedBuilder.Release) (l : FeedBuilder.LatestEntry)
  : Prop :=
  FeedBuilder.version r = Some (FeedBuilder.l_ProductVersion l) /\
  (forall c,
     dict_get (FeedBuilder.l_CVEs l) c
     = if mem c (FeedBuilder.cves r)
       then Some (mem c (FeedBuilder.actively_exploited_cves r))
       else None) /\
  FeedBuilder.l_ActivelyExploitedCVEs l = FeedBuilder.actively_exploited_cves r.

(** Where the truth values of an entry of [SecurityReleases] come
    from: the KEV catalogs the fetcher loads.  A CVE is flagged only if
    it is in a catalog that was loaded; when every load returns the same
    catalog, which is not empty, exactly the CVEs in it are flagged; and
    [ActivelyExploitedCVEs] lists the flagged CVEs in the order of the
    map. *)
Definition entry_from (r : FeedBuilder.Release) (e : FeedBuilder.ReleaseEntry)
  : Prop :=
  FeedBuilder.version r = Some (FeedBuilder.sr_ProductVersion e) /\
  (forall c, (exists b, dict_get (FeedBuilder.sr_CVEs e) c = Some b)
             <-> In c (FeedBuilder.cves r)) /\
  FeedBuilder.sr_ActivelyExploitedCVEs e
  = map fst (List.filter snd (FeedBuilder.sr_CVEs e)) /\
  (forall c, dict_get (FeedBuilder.sr_CVEs e) c = Some true ->
             in_loaded_catalog world c) /\
  (forall ids, ids <> [] -> (forall n, world n = Some ids) ->
     forall c, In c (FeedBuilder.cves r) ->
       (dict_get (FeedBuilder.sr_CVEs e) c = Some true <-> In c ids) /\
       (dict_get (FeedBuilder.sr_CVEs e) c = Some false <-> ~ In c ids)).

Definition block_ok (releases : list FeedBuilder.Release)
  (b : FeedBuilder.OSVersionBlock) : Prop :=
  StronglySorted not_older (FeedBuilder.b_SecurityReleases b) /\
  Forall (fun e => exists r, In r releases /\ entry_from r e)
         (FeedBuilder.b_SecurityReleases b) /\
  match FeedBuilder.b_Latest b, FeedBuilder.b_SecurityReleases b with
  | Some l, e :: _ =>
      same_release_core l e /\
      exists r, In r releases /\ latest_from r l /\ entry_from r e
  | None, [] => True
  | _, _ => False
  end.

Definition has_version (r : FeedBuilder.Release) : Prop :=
  exists v, FeedBuilder.version r = Some v /\ truthy v = true.

(** What an entry takes from its release. *)
Definition entry_of (os_key : string) (gdmf : FeedBuilder.GDMFData)
  (r : FeedBuilder.Release) (e : FeedBuilder.ReleaseEntry) : Prop :=
  FeedBuilder.version r = Some (FeedBuilder.sr_ProductVersion e) /\
  FeedBuilder.sr_ReleaseDate e
  = FeedBuilder._format_date strptime_iso (FeedBuilder.release_date r) /\
  FeedBuilder.sr_SecurityInfo e = FeedBuilder.url r /\
  FeedBuilder.sr_SupportedDevices e
  = match FeedBuilder._find_gdmf_match os_key (FeedBuilder.sr_ProductVersion e) gdmf with
    | Some m => FeedBuilder.m_SupportedDevices m
    | None => []
    end /\
  dict_keys (FeedBuilder.sr_CVEs e)
  = dict_keys (dict_fromkeys (FeedBuilder.cves r) (fun _ => false)) /\
  FeedBuilder.sr_UniqueCVEsCount e = length (FeedBuilder.sr_CVEs e) /\
  entry_from r e.

Lemma matching_have_version prefix releases :
  Forall has_version (FeedBuilder.matching_releases prefix releases).
Proof.
  apply List.Forall_forall. intros r Hr.
  apply filter_In in Hr as [_ Hr]. unfold has_version.
  destruct (FeedBuilder.version r) as [v|]; [|discriminate].
  apply andb_true_iff in Hr as [Hr _]. eauto.
Qed.

Lemma with_keys_spec l : forall kl,
  FeedBuilder.with_keys VKey pkg_version_parse l = Some kl ->
  map snd kl = l /\
  Forall (fun p => pkg_version_parse (FeedBuilder.version_or_0 (snd p)) = Some (fst p)) kl.
Proof.
  induction l as [|r l IH]; simpl; intros kl H.
  - injection H as <-. split; constructor.
  - destruct (pkg_version_parse (FeedBuilder.version_or_0 r)) as [k|] eqn:K;
      [|discriminate].
    destruct (FeedBuilder.with_keys VKey pkg_version_parse l) as [kl'|];
      [|discriminate].
    injection H as <-. destruct (IH kl' eq_refl) as [Hm Hall].
    simpl. split; [now f_equal | now constructor].
Qed.

Lemma make_entries_spec os_key product_name gdmf rels : forall kev es kev',
  Forall has_version rels ->
  FeedBuilder.make_entries strptime_iso world os_key product_name gdmf kev rels
  = (es, kev') ->
  List.Forall2 (entry_of os_key gdmf) rels es.
Proof.
  induction rels as [|r rels IH]; simpl; intros kev es kev' Hall H.
  - injection H as <- _. constructor.
  - inversion Hall as [|? ? (v & Hv & Tv) Hall']; subst.
    rewrite Hv, Tv in H.
    destruct (FeedBuilder.make_entry strptime_iso world os_key product_name gdmf
                kev r v) as [e kev1] eqn:E.
    destruct (FeedBuilder.make_entries strptime_iso world os_key product_name gdmf
                kev1 rels) as [es' kev2] eqn:Es.
    injection H as <- <-. constructor; [|eapply IH; eassumption].
    unfold FeedBuilder.make_entry in E.
    pose proof (enrich_cves_with_kev_keys world kev
                  (dict_fromkeys (FeedBuilder.cves r) (fun _ => false))) as Hk.
    pose proof (enrich_flags world kev (FeedBuilder.cves r))
      as (Hkeys & Hsound & Hsteady).
    destruct (KevFetcher.enrich_cves_with_kev world kev
                (dict_fromkeys (FeedBuilder.cves r) (fun _ => false)))
      as [rel_cves kev''].
    cbn [fst] in Hkeys, Hsound, Hsteady.
    injection E as <- _. unfold entry_of, entry_from.
    cbn [FeedBuilder.sr_ProductVersion FeedBuilder.sr_ReleaseDate
         FeedBuilder.sr_SecurityInfo FeedBuilder.sr_SupportedDevices
         FeedBuilder.sr_CVEs FeedBuilder.sr_UniqueCVEsCount
         FeedBuilder.sr_ActivelyExploitedCVEs].
    split; [assumption|]. split; [reflexivity|]. split; [reflexivity|].
    split; [reflexivity|]. split; [exact Hk|]. split; [reflexivity|].
    split; [assumption|]. split; [exact Hkeys|]. split; [reflexivity|].
    split; [exact Hsound | exact Hsteady].
Qed.

Lemma set_days_entry_of os_key gdmf days_map r e :
  entry_of os_key gdmf r e ->
  entry_of os_key gdmf r (FeedBuilder.set_days days_map e).
Proof.
  unfold FeedBuilder.set_days.
  destruct (dict_get days_map (FeedBuilder.sr_ProductVersion e)); auto.
Qed.

Lemma set_days_Forall2 os_key gdmf days_map rels es :
  List.Forall2 (entry_of os_key gdmf) rels es ->
  List.Forall2 (entry_of os_key gdmf) rels (map (FeedBuilder.set_days days_map) es).
Proof.
  induction 1; simpl; constructor; [now apply set_days_entry_of | assumption].
Qed.

(** The entries built from a list sorted by [sort_newest_first] are
    sorted newest first. *)
Lemma sorted_entries os_key gdmf l sorted es :
  FeedBuilder.sort_newest_first VKey pkg_version_parse vlt l = Some sorted ->
  List.Forall2 (entry_of os_key gdmf) sorted es ->
  StronglySorted not_older es.
Proof.
  unfold FeedBuilder.sort_newest_first.
  destruct (FeedBuilder.with_keys VKey pkg_version_parse l) as [kl|] eqn:K;
    [|discriminate].
  intros H HF. injection H as <-.
  destruct (with_keys_spec l kl K) as [_ Hkeys].
  set (skl := sorted_desc fst vlt kl) in *.
  assert (Hs : StronglySorted (not_before fst vlt) skl)
    by (apply sorted_desc_sorted; assumption).
  assert (Hk : Forall (fun p => pkg_version_parse
                                  (FeedBuilder.version_or_0 (snd p)) = Some (fst p)) skl).
  { eapply Permutation_Forall; [apply sorted_desc_perm | exact Hkeys]. }
  assert (HF' : List.Forall2
                  (fun p e => entry_of os_key gdmf (snd p) e /\
                              pkg_version_parse (FeedBuilder.version_or_0 (snd p))
                              = Some (fst p)) skl es).
  { clear Hs. revert es HF. induction skl as [|p skl IH]; simpl; intros es HF.
    - inversion HF. constructor.
    - inversion HF; subst. inversion Hk; subst. constructor; auto. }
  eapply StronglySorted_Forall2; [|exact Hs|exact HF'].
  intros a b a' b' Hab [Ea Ka] [Eb Kb]. unfold not_before in Hab.
  destruct Ea as (Va & _), Eb as (Vb & _).
  unfold FeedBuilder.version_or_0 in Ka, Kb. rewrite Va in Ka. rewrite Vb in Kb.
  exists (fst a), (fst b). auto.
Qed.

Lemma sort_newest_first_perm l sorted :
  FeedBuilder.sort_newest_first VKey pkg_version_parse vlt l = Some sorted ->
  Permutation l sorted.
Proof.
  unfold FeedBuilder.sort_newest_first.
  destruct (FeedBuilder.with_keys VKey pkg_version_parse l) as [kl|] eqn:K;
    [|discriminate].
  intros H. injection H as <-.
  destruct (with_keys_spec l kl K) as [<- _].
  apply Permutation_map, sorted_desc_perm.
Qed.

Lemma entries_from_releases os_key gdmf (releases rels : list FeedBuilder.Release)
  es :
  (forall r, In r rels -> In r releases) ->
  List.Forall2 (entry_of os_key gdmf) rels es ->
  Forall (fun e => exists r, In r releases /\ entry_from r e) es.
Proof.
  intros Hin HF. induction HF as [|r e rels es He _ IH]; constructor.
  - exists r. split; [apply Hin; now left|]. apply He.
  - apply IH. intros r' Hr'. apply Hin. now right.
Qed.

Lemma build_block_ok os_version_name prefix os_key product_name models releases
  gdmf kev b kev' :
  FeedBuilder.build_block VKey pkg_version_parse vlt strptime_iso strptime_utc
    fromisoformat world os_version_name prefix os_key product_name models
    releases gdmf kev = Some (b, kev') ->
  block_ok releases b.
Proof.
  unfold FeedBuilder.build_block.
  pose proof (matching_have_version prefix releases) as Hv.
  assert (Hsub : forall r, In r (FeedBuilder.matching_releases prefix releases) ->
                           In r releases)
    by (intros r Hr; now apply filter_In in Hr).
  destruct (FeedBuilder.matching_releases prefix releases) as [|r0 rs] eqn:M.
  { intros H. injection H as <- _.
    split; [constructor | split; [constructor | exact I]]. }
  destruct (FeedBuilder.sort_newest_first VKey pkg_version_parse vlt (r0 :: rs))
    as [sorted|] eqn:S; [|discriminate].
  pose proof (sort_newest_first_perm _ _ S) as Hperm.
  assert (Hvs : Forall has_version sorted)
    by (eapply Permutation_Forall; eassumption).
  assert (Hsorted_in : forall r, In r sorted -> In r releases).
  { intros r Hr. apply Hsub.
    eapply Permutation_in; [apply Permutation_sym; exact Hperm | exact Hr]. }
  destruct sorted as [|release rest].
  { intros H. injection H as <- _.
    split; [constructor | split; [constructor | exact I]]. }
  inversion Hvs as [|? ? (v & Hver & Tv) _]; subst.
  rewrite Hver, Tv.
  destruct (FeedBuilder.make_entries strptime_iso world os_key product_name gdmf kev
              (release :: rest)) as [entries kev1] eqn:E.
  intros H. injection H as <- _.
  pose proof (make_entries_spec _ _ _ _ _ _ _ Hvs E) as HF.
  cbn [FeedBuilder.b_SecurityReleases FeedBuilder.b_Latest].
  assert (Hsame : match entries with
                  | [] => []
                  | _ :: _ =>
                      map (FeedBuilder.set_days
                             (FeedBuilder._calculate_days_since_previous
                                strptime_utc fromisoformat entries)) entries
                  end
                  = map (FeedBuilder.set_days
                           (FeedBuilder._calculate_days_since_previous
                              strptime_utc fromisoformat entries)) entries)
    by (destruct entries; reflexivity).
  rewrite Hsame. clear Hsame.
  set (dm := FeedBuilder._calculate_days_since_previous _ _ entries).
  pose proof (set_days_Forall2 os_key gdmf dm _ _ HF) as HF'.
  split; [eapply sorted_entries; eassumption|].
  split; [eapply entries_from_releases; eassumption|].
  destruct (map (FeedBuilder.set_days dm) entries) as [|e es] eqn:Em;
    [inversion HF'|].
  inversion HF' as [|? ? ? ? He _]; subst.
  destruct He as (Ev & Ed & Es & Edev & Ek & Ec & Efrom).
  assert (v = FeedBuilder.sr_ProductVersion e) by congruence. subst v.
  split.
  - unfold same_release_core, FeedBuilder.make_latest. simpl.
    repeat split; auto.
    + rewrite Ek. apply dict_fromkeys_keys.
    + rewrite Ec. unfold dict_keys in Ek.
      rewrite <- (length_map fst (FeedBuilder.sr_CVEs e)), Ek, length_map.
      rewrite <- !(length_map fst).
      f_equal. apply (dict_fromkeys_keys _ _ (FeedBuilder.cves release)).
  - exists release. split; [apply Hsorted_in; now left|].
    split; [|exact Efrom].
    unfold latest_from, FeedBuilder.make_latest.
    cbn [FeedBuilder.l_ProductVersion FeedBuilder.l_CVEs
         FeedBuilder.l_ActivelyExploitedCVEs].
    split; [assumption|]. split; [|reflexivity].
    intros c.
    apply (dict_get_fromkeys
             (fun cve => mem cve (FeedBuilder.actively_exploited_cves release))).
Qed.
End LatestAndReleases.

Lemma mac_blocks_ok VKey parse vlt s_iso s_utc fromiso world models
  (Hasym : forall a b, vlt a b = true -> vlt b a = false)
  (Htrans : forall a b c, vlt b a = false -> vlt c b = false -> vlt c a = false)
  releases gdmf config : forall kev blocks kev',
  FeedBuilder.mac_blocks VKey parse vlt s_iso s_utc fromiso world models
    config releases gdmf kev = Some (blocks, kev') ->
  Forall (block_ok VKey parse vlt world releases) blocks.
Proof.
  induction config as [|rc config IH]; simpl; intros kev blocks kev' H.
  - injection H as <- _. constructor.
  - destruct (negb (Strings.String.eqb (FeedBuilder.osType rc) "macOS"));
      [eauto|].
    destruct (FeedBuilder.first_word (FeedBuilder.name rc)) as [w0|]; [|discriminate].
    destruct (FeedBuilder.last_word (FeedBuilder.name rc)) as [major|]; [|discriminate].
    destruct (FeedBuilder.build_block _ _ _ _ _ _ _ _ _ _ _ _ _ _ _)
      as [[b kev1]|] eqn:B; [|discriminate].
    destruct (FeedBuilder.mac_blocks _ _ _ _ _ _ _ _ config releases gdmf kev1)
      as [[bs kev2]|] eqn:R; [|discriminate].
    injection H as <- _. constructor; [|eauto].
    eapply build_block_ok; eassumption.
Qed.

Lemma other_blocks_ok VKey parse vlt s_iso s_utc fromiso world
  (Hasym : forall a b, vlt a b = true -> vlt b a = false)
  (Htrans : forall a b c, vlt b a = false -> vlt c b = false -> vlt c a = false)
  os_type releases gdmf config : forall kev blocks kev',
  FeedBuilder.other_blocks VKey parse vlt s_iso s_utc fromiso world
    os_type config releases gdmf kev = Some (blocks, kev') ->
  Forall (block_ok VKey parse vlt world releases) blocks.
Proof.
  induction config as [|rc config IH]; simpl; intros kev blocks kev' H.
  - injection H as <- _. constructor.
  - destruct (negb (Strings.String.eqb (FeedBuilder.osType rc) os_type));
      [eauto|].
    destruct (FeedBuilder.build_block _ _ _ _ _ _ _ _ _ _ _ _ _ _ _)
      as [[b kev1]|] eqn:B; [|discriminate].
    destruct (FeedBuilder.other_blocks _ _ _ _ _ _ _ _ config releases gdmf kev1)
      as [[bs kev2]|] eqn:R; [|discriminate].
    injection H as <- _. constructor; [|eauto].
    eapply build_block_ok; eassumption.
Qed.

(** C8, amended: in every OSVersion block [create_legacy_feed] builds,
    [SecurityReleases] is sorted newest first by the version order of
    [packaging], and each of its entries is built from one of the
    releases; [Latest] is filled exactly when [SecurityReleases] is not
    empty, and it then describes the release [r] of the first entry:
    same [ProductVersion], [ReleaseDate], [SupportedDevices] and
    [SecurityInfo], the same CVE identifiers in the [CVEs] map and the
    same [UniqueCVEsCount].  The truth values come from two places.  In
    [Latest], [CVEs] maps each CVE of [r] to its membership in
    [r.actively_exploited_cves], and [ActivelyExploitedCVEs] is that
    list.  In an entry of [SecurityReleases], the keys of [CVEs] are the
    CVEs of its release, a CVE is flagged only if it is in a KEV catalog
    that was loaded, exactly the CVEs of the catalog are flagged when
    every load returns the same catalog and it is not empty, and
    [ActivelyExploitedCVEs] lists the flagged CVEs in the order of the
    map. *)
Theorem C8_releases_newest_first_latest_is_first :
  forall VKey (pkg_version_parse : string -> option VKey) vlt
         strptime_iso strptime_utc fromisoformat world load_supported_models,
    (forall a b, vlt a b = true -> vlt b a = false) ->
    (forall a b c, vlt b a = false -> vlt c b = false -> vlt c a = false) ->
    forall os_type config releases gdmf_data kev blocks kev',
      FeedBuilder.os_versions VKey pkg_version_parse vlt strptime_iso strptime_utc
        fromisoformat world load_supported_models os_type config releases
        gdmf_data kev = Some (blocks, kev') ->
      Forall (block_ok VKey pkg_version_parse vlt world releases) blocks.
Proof.
  intros VKey parse vlt s_iso s_utc fromiso world models Hasym Htrans
         os_type config releases gdmf kev blocks kev'.
  unfold FeedBuilder.os_versions.
  destruct (Strings.String.eqb (lower os_type) "macos").
  - now apply mac_blocks_ok.
  - now apply other_blocks_ok.
Qed.

(** The iOS example with a KEV catalog that holds CVE-2024-44308, the
    CVE of the older release. *)
Definition ios_blocks_with_kev :=
  FeedBuilder.os_versions (list Z) Packaging.parse Packaging.lt
    Examples.no_date_text Examples.no_date Examples.no_date
    KevFetcher.world_one Examples.no_models "iOS" Examples.ios_config
    Examples.ios_releases Examples.gdmf_mixed KevFetcher.init.

(** There [Latest] flags the CVE of 18.2 from the scraped list, the
    entry of 18.2 does not (it is not in the catalog), and the entry of
    18.1 flags its CVE from the catalog. *)
Example ios_blocks_with_kev_flags :
  match ios_blocks_with_kev with
  | Some ([b], _) =>
      option_map FeedBuilder.l_CVEs (FeedBuilder.b_Latest b)
      = Some [("CVE-2024-54534", true)] /\
      map (fun e => (FeedBuilder.sr_ProductVersion e, FeedBuilder.sr_CVEs e,
                     FeedBuilder.sr_ActivelyExploitedCVEs e))
          (FeedBuilder.b_SecurityReleases b)
      = [("18.2", [("CVE-2024-54534", false)], []);
         ("18.1", [("CVE-2024-44308", true)], ["CVE-2024-44308"])]
  | _ => False
  end.
Proof. vm_compute. split; reflexivity. Qed.

(** C8 (amended), on the iOS example with that catalog. *)
Lemma C8_releases_newest_first_witness :
  (forall a b, Packaging.lt a b = true -> Packaging.lt b a = false) /\
  (forall a b c, Packaging.lt b a = false -> Packaging.lt c b = false ->
                 Packaging.lt c a = false) /\
  exists blocks kev,
    ios_blocks_with_kev = Some (blocks, kev) /\
    Forall (block_ok (list Z) Packaging.parse Packaging.lt KevFetcher.world_one
              Examples.ios_releases) blocks.
Proof.
  split; [exact Packaging.lt_asym|]. split; [exact Packaging.nlt_trans|].
  destruct ios_blocks_with_kev as [[blocks kev]|] eqn:E; [|discriminate E].
  exists blocks, kev. split; [reflexivity|].
  exact (C8_releases_newest_first_latest_is_first (list Z) Packaging.parse
           Packaging.lt Examples.no_date_text Examples.no_date Examples.no_date
           KevFetcher.world_one Examples.no_models
           Packaging.lt_asym Packaging.nlt_trans
           "iOS" Examples.ios_config Examples.ios_releases Examples.gdmf_mixed
           KevFetcher.init blocks kev E).
Defined.


(* ===================================================================== *)
(** * Further properties of the code *)
(* ===================================================================== *)

(** ** The KEV fetcher (kev_fetcher.py) *)

(** X1: when the catalog load succeeds with a catalog that is not empty,
    [enrich_cves_with_kev] loads the catalog exactly once (the lookups of
    the loop do not load again), leaves the fetcher holding that catalog,
    and returns the input map with each flag replaced by
    "flag or member of the catalog"; keys are neither added nor removed. *)
Theorem X1_enrich_loads_once_closed_form :
  forall (world : nat -> option (list string)) (st : KevFetcher.t)
         (cves : dict bool) (ids : list string),
    world (KevFetcher.loads st) = Some ids ->
    ids <> [] ->
    let r := KevFetcher.enrich_cves_with_kev world st cves in
    snd r = {| KevFetcher.kev_set := list_to_set ids;
               KevFetcher.catalog := Some ids;
               KevFetcher.loads := S (KevFetcher.loads st) |} /\
    dict_keys (fst r) = dict_keys cves /\
    forall k,
      dict_get (fst r) k
      = option_map (fun b => b || bool_decide (k ∈ (list_to_set ids : gset string)))
                   (dict_get cves k).
Proof.
  intros world st cves ids Hw Hne. cbv zeta.
  unfold KevFetcher.enrich_cves_with_kev, KevFetcher.load_kev_catalog.
  rewrite Hw.
  set (st1 := {| KevFetcher.kev_set := list_to_set ids;
                 KevFetcher.catalog := Some ids;
                 KevFetcher.loads := S (KevFetcher.loads st) |}).
  assert (Hst1 : KevFetcher.kev_set st1 <> ∅) by now apply list_to_set_nonempty.
  destruct (enrich_loop_loaded world st1 (dict_keys cves) cves Hst1) as [Hs Hg];
    [auto|].
  split; [assumption|]. split; [apply KevFetcher.enrich_loop_keys; auto|].
  intros k. rewrite Hg. destruct (dict_get cves k) as [b|] eqn:G; simpl; [|reflexivity].
  f_equal. destruct (mem k (dict_keys cves)) eqn:M; [reflexivity|].
  apply mem_false_In in M. now rewrite (dict_get_not_key cves k M) in G.
Qed.

(** X1, with a catalog of one CVE. *)
Lemma X1_enrich_loads_once_witness :
  KevFetcher.loads
    (snd (KevFetcher.enrich_cves_with_kev KevFetcher.world_one KevFetcher.init
            [("CVE-2024-44308", false); ("CVE-2024-44309", false)])) = 1.
Proof.
  destruct (X1_enrich_loads_once_closed_form KevFetcher.world_one KevFetcher.init
              [("CVE-2024-44308", false); ("CVE-2024-44309", false)]
              ["CVE-2024-44308"]) as [H _].
  - reflexivity.
  - discriminate.
  - rewrite H. reflexivity.
Defined.

(** A map whose catalog members are all flagged is a fixed point of the
    loop. *)
Lemma enrich_loop_fixed world st keys d :
  KevFetcher.kev_set st <> ∅ ->
  (forall k, In k keys -> k ∈ KevFetcher.kev_set st -> dict_get d k = Some true) ->
  KevFetcher.enrich_loop world st keys d = (d, st).
Proof.
  intros Hne. induction keys as [|k0 keys IH]; intros Hd; [reflexivity|].
  cbn [KevFetcher.enrich_loop].
  assert (Hrest : forall k, In k keys -> k ∈ KevFetcher.kev_set st ->
                            dict_get d k = Some true)
    by (intros; apply Hd; [now right | assumption]).
  destruct (dict_get d k0) as [[|]|] eqn:G; [now apply IH | |].
  - rewrite is_kev_loaded by assumption.
    destruct (bool_decide (k0 ∈ KevFetcher.kev_set st)) eqn:Hit; [|now apply IH].
    apply bool_decide_eq_true in Hit. rewrite Hd in G; [discriminate | now left | assumption].
  - rewrite is_kev_loaded by assumption.
    destruct (bool_decide (k0 ∈ KevFetcher.kev_set st)) eqn:Hit; [|now apply IH].
    apply bool_decide_eq_true in Hit. rewrite Hd in G; [discriminate | now left | assumption].
Qed.

(** X2: enriching an already enriched map changes nothing, as long as
    the second call finds the same catalog or none at all. *)
Theorem X2_enrich_cves_with_kev_idempotent :
  forall (world : nat -> option (list string)) (st : KevFetcher.t)
         (cves : dict bool) (ids : list string),
    world (KevFetcher.loads st) = Some ids ->
    ids <> [] ->
    world (S (KevFetcher.loads st)) = Some ids \/
    world (S (KevFetcher.loads st)) = None ->
    let r1 := KevFetcher.enrich_cves_with_kev world st cves in
    fst (KevFetcher.enrich_cves_with_kev world (snd r1) (fst r1)) = fst r1.
Proof.
  intros world st cves ids Hw Hne Hw2. cbv zeta.
  pose proof (enrich_cves_with_kev_keys world st cves) as Hkeys.
  assert (Hst : snd (KevFetcher.enrich_cves_with_kev world st cves)
                = {| KevFetcher.kev_set := list_to_set ids;
                     KevFetcher.catalog := Some ids;
                     KevFetcher.loads := S (KevFetcher.loads st) |} /\
                forall k,
                  dict_get (fst (KevFetcher.enrich_cves_with_kev world st cves)) k
                  = option_map
                      (fun b => b || bool_decide (k ∈ (list_to_set ids : gset string)))
                      (dict_get cves k)).
  { unfold KevFetcher.enrich_cves_with_kev, KevFetcher.load_kev_catalog.
    rewrite Hw.
    set (st1 := {| KevFetcher.kev_set := list_to_set ids;
                   KevFetcher.catalog := Some ids;
                   KevFetcher.loads := S (KevFetcher.loads st) |}).
    assert (Hst1 : KevFetcher.kev_set st1 <> ∅) by now apply list_to_set_nonempty.
    destruct (enrich_loop_loaded world st1 (dict_keys cves) cves Hst1) as [Hs Hg];
      [auto|].
    split; [assumption|]. intros k. rewrite Hg.
    destruct (dict_get cves k) as [b|] eqn:G; simpl; [|reflexivity].
    f_equal. destruct (mem k (dict_keys cves)) eqn:M; [reflexivity|].
    apply mem_false_In in M. now rewrite (dict_get_not_key cves k M) in G. }
  destruct Hst as [Hs Hg].
  destruct (KevFetcher.enrich_cves_with_kev world st cves) as [out st1] eqn:R1.
  cbn [fst snd] in *. subst st1.
  unfold KevFetcher.enrich_cves_with_kev, KevFetcher.load_kev_catalog.
  cbn [KevFetcher.loads KevFetcher.kev_set].
  destruct Hw2 as [-> | ->]; [|reflexivity].
  rewrite enrich_loop_fixed; [reflexivity | now apply list_to_set_nonempty |].
  cbn [KevFetcher.kev_set]. intros k Hk Hin.
  rewrite Hg. rewrite Hkeys in Hk.
  destruct (dict_get_keys cves k Hk) as [b ->]. simpl.
  rewrite bool_decide_eq_true_2 by assumption. now rewrite orb_true_r.
Qed.

(** X2, with a catalog of one CVE. *)
Lemma X2_enrich_idempotent_witness :
  fst (KevFetcher.enrich_cves_with_kev KevFetcher.world_one
         (snd (KevFetcher.enrich_cves_with_kev KevFetcher.world_one KevFetcher.init
                 [("CVE-2024-44308", false); ("CVE-2024-44309", false)]))
         (fst (KevFetcher.enrich_cves_with_kev KevFetcher.world_one KevFetcher.init
                 [("CVE-2024-44308", false); ("CVE-2024-44309", false)])))
  = [("CVE-2024-44308", true); ("CVE-2024-44309", false)].
Proof.
  rewrite (X2_enrich_cves_with_kev_idempotent KevFetcher.world_one KevFetcher.init
             [("CVE-2024-44308", false); ("CVE-2024-44309", false)]
             ["CVE-2024-44308"]).
  - vm_compute. reflexivity.
  - reflexivity.
  - discriminate.
  - left. reflexivity.
Defined.


(** ** The feed policy (kev_policy.py) *)

Lemma fold_left_invariant {A B : Type} (f : A -> B -> A) (P : A -> Prop) (l : list B) :
  (forall a x, In x l -> P a -> P (f a x)) ->
  forall a, P a -> P (fold_left f l a).
Proof.
  induction l as [|x l IH]; simpl; intros Hstep a Ha; [assumption|].
  apply IH; [intros; apply Hstep; auto | apply Hstep; auto].
Qed.

(** An entry of [exploitation_data] with its [in_cisa_kev] flag
    replaced. *)
Definition with_cisa (b : bool) (d : KevPolicy.CveData) : KevPolicy.CveData :=
  {| KevPolicy.platforms := KevPolicy.platforms d;
     KevPolicy.in_cisa_kev := b;
     KevPolicy.categories := KevPolicy.categories d |}.

Lemma should_mark_is_membership platform ps k cats :
  KevPolicy.should_mark_as_exploited platform ps k cats
  = bool_decide (platform ∈ ps).
Proof.
  unfold KevPolicy.should_mark_as_exploited.
  destruct (bool_decide (platform ∈ ps)); [reflexivity|].
  now rewrite andb_false_r.
Qed.

Lemma level_ignores_cisa platform ps k cats :
  KevPolicy.get_exploitation_level platform ps k cats
  = KevPolicy.get_exploitation_level platform ps false cats.
Proof.
  unfold KevPolicy.get_exploitation_level.
  now rewrite !should_mark_is_membership.
Qed.

(** X3: the CISA flag has no effect on the policy.
    [should_mark_as_exploited] is the test "the platform is among the
    platforms the CVE is exploited on" whatever [is_cisa_kev] says, so
    the level does not depend on it, and [enrich_release_entry] computes
    the same four lists when every [in_cisa_kev] of the exploitation
    data is replaced by an arbitrary value. *)
Theorem X3_policy_ignores_cisa_flag :
  forall (platform : string) (b : bool),
    (forall ps k cats,
       KevPolicy.should_mark_as_exploited platform ps k cats
       = bool_decide (platform ∈ ps)) /\
    (forall ps cats,
       KevPolicy.get_exploitation_level platform ps true cats
       = KevPolicy.get_exploitation_level platform ps false cats) /\
    (forall cves (data : gmap string KevPolicy.CveData),
       KevPolicy.enrich_release_entry cves platform (with_cisa b <$> data)
       = KevPolicy.enrich_release_entry cves platform data).
Proof.
  intros platform b. split; [apply should_mark_is_membership|].
  split; [intros; apply level_ignores_cisa|].
  intros cves data. unfold KevPolicy.enrich_release_entry.
  generalize ({| KevPolicy.actively_exploited := [];
                 KevPolicy.exploitation_warnings := [];
                 KevPolicy.targeted_attacks := [];
                 KevPolicy.physical_attacks := [] |}).
  induction cves as [|c cves IH]; intros acc; [reflexivity|].
  simpl. rewrite <- IH. f_equal.
  unfold KevPolicy.policy_step. rewrite lookup_fmap.
  destruct (data !! c) as [d|]; simpl; [|reflexivity].
  now rewrite (level_ignores_cisa platform _ b),
              (level_ignores_cisa platform _ (KevPolicy.in_cisa_kev d)).
Qed.

(** The note of a warning: the other platforms, sorted. *)
Definition warning_note (platform : string) (d : KevPolicy.CveData) : string :=
  "Known exploited on: " +:+
  join ", " (sorted_asc (fun s => s) Strings.String.ltb
               (elements ((list_to_set (KevPolicy.platforms d) : gset string)
                          ∖ {[ platform ]}))).

Lemma warning_has_note platform ps k cats :
  KevPolicy.get_exploitation_level platform ps k cats = KevPolicy.EXPLOITATION_WARNING ->
  KevPolicy.create_exploitation_note platform ps cats
  = Some ("Known exploited on: " +:+
          join ", " (sorted_asc (fun s => s) Strings.String.ltb
                                (elements (ps ∖ {[ platform ]})))).
Proof.
  intros L. unfold KevPolicy.create_exploitation_note.
  rewrite <- (level_ignores_cisa platform ps k cats), L.
  apply KevPolicy.level_warning in L as [Hp Hne].
  rewrite bool_decide_eq_false_2; [reflexivity|].
  intros E. apply Hne. apply set_eq. intros x. split; [|set_solver].
  intros Hx. assert (Hd : x ∈ ps ∖ {[ platform ]}).
  { apply elem_of_difference. split; [assumption|].
    rewrite elem_of_singleton. intros ->. contradiction. }
  now rewrite E in Hd.
Qed.

(** What the loop of [enrich_release_entry] keeps true of its four
    lists; [n] is the number of CVEs processed so far. *)
Definition policy_inv (platform : string) (data : gmap string KevPolicy.CveData)
  (n : nat) (acc : KevPolicy.Lists) : Prop :=
  length (KevPolicy.actively_exploited acc)
  + length (KevPolicy.exploitation_warnings acc) <= n /\
  length (KevPolicy.targeted_attacks acc) + length (KevPolicy.physical_attacks acc)
  <= length (KevPolicy.actively_exploited acc) /\
  incl (KevPolicy.targeted_attacks acc) (KevPolicy.actively_exploited acc) /\
  incl (KevPolicy.physical_attacks acc) (KevPolicy.actively_exploited acc) /\
  forall cve note,
    In (cve, note) (KevPolicy.exploitation_warnings acc) ->
    exists d, data !! cve = Some d /\ note = Some (warning_note platform d) /\
              KevPolicy.platforms d <> [].

Lemma policy_step_inv platform data n acc cve :
  policy_inv platform data n acc ->
  policy_inv platform data (S n) (KevPolicy.policy_step platform data acc cve).
Proof.
  intros (H1 & H2 & H3 & H4 & H5). unfold KevPolicy.policy_step.
  destruct (data !! cve) as [d|] eqn:D.
  2:{ repeat split; auto; lia. }
  destruct (KevPolicy.get_exploitation_level platform
              (list_to_set (KevPolicy.platforms d))
              (KevPolicy.in_cisa_kev d) (KevPolicy.categories d)) eqn:L;
    unfold policy_inv; cbn [KevPolicy.actively_exploited
      KevPolicy.exploitation_warnings KevPolicy.targeted_attacks
      KevPolicy.physical_attacks]; rewrite ?length_app; simpl length.
  - repeat split; try lia; auto using incl_appl.
  - repeat split; try lia; auto.
    intros c note Hin. apply in_app_or in Hin as [Hin|[Hin|[]]]; [auto|].
    injection Hin as <- <-. exists d. split; [assumption|].
    split; [now rewrite (warning_has_note _ _ _ _ L)|].
    apply KevPolicy.level_warning in L as [_ Hne]. intros E. apply Hne.
    now rewrite E.
  - repeat split; try lia; auto using incl_appl.
    apply incl_app; [now apply incl_appl | apply incl_appr, incl_refl].
  - repeat split; try lia; auto using incl_appl.
    apply incl_app; [now apply incl_appl | apply incl_appr, incl_refl].
  - repeat split; auto; lia.
Qed.

Lemma policy_fold_inv platform data cves : forall n acc,
  policy_inv platform data n acc ->
  policy_inv platform data (n + length cves)
    (fold_left (KevPolicy.policy_step platform data) cves acc).
Proof.
  induction cves as [|c cves IH]; simpl; intros n acc H.
  - now rewrite Nat.add_0_r.
  - replace (n + S (length cves)) with (S n + length cves) by lia.
    apply IH. now apply policy_step_inv.
Qed.

(** X4: the lists [enrich_release_entry] computes: a CVE of the release
    is counted at most once between [actively_exploited] and
    [exploitation_warnings] (so both rates are at most 100%); the
    targeted and the physical attacks are also listed as actively
    exploited and together are no more than them; and every warning
    carries a note, "Known exploited on: " followed by the platforms
    other than the current one in ascending order, never [None]. *)
Theorem X4_policy_lists_invariants :
  forall (cves : list string) (platform : string)
         (data : gmap string KevPolicy.CveData),
    let r := KevPolicy.enrich_release_entry cves platform data in
    length (KevPolicy.actively_exploited r)
    + length (KevPolicy.exploitation_warnings r) <= length cves /\
    length (KevPolicy.targeted_attacks r) + length (KevPolicy.physical_attacks r)
    <= length (KevPolicy.actively_exploited r) /\
    incl (KevPolicy.targeted_attacks r) (KevPolicy.actively_exploited r) /\
    incl (KevPolicy.physical_attacks r) (KevPolicy.actively_exploited r) /\
    forall cve note,
      In (cve, note) (KevPolicy.exploitation_warnings r) ->
      exists d, data !! cve = Some d /\
                note = Some (warning_note platform d) /\
                KevPolicy.platforms d <> [].
Proof.
  intros cves platform data. cbv zeta.
  pose proof (policy_fold_inv platform data cves 0
                {| KevPolicy.actively_exploited := [];
                   KevPolicy.exploitation_warnings := [];
                   KevPolicy.targeted_attacks := [];
                   KevPolicy.physical_attacks := [] |}) as H.
  destruct H as (H1 & H2 & H3 & H4 & H5).
  { split; [simpl; lia|]. split; [simpl; lia|].
    split; [apply incl_nil_l|]. split; [apply incl_nil_l|]. intros ? ? []. }
  fold (KevPolicy.enrich_release_entry cves platform data) in *.
  repeat split; auto.
Qed.


(** ** Enrichment of a release (enrich_with_smart_kev.py) *)

(** The CVEs [enrich_release] warns about: not in the CISA set, and
    stored as exploited on platforms that do not include the current
    one. *)
Definition is_warned (st : SmartKev.t) (platform cve : string) : bool :=
  negb (bool_decide (cve ∈ SmartKev.cisa_kevs st))
  && match SmartKev.apple_exploited st !! cve with
     | Some existing =>
         negb (bool_decide (platform ∈ SmartKev.affected_platforms existing))
     | None => false
     end.

(** The note of such a warning. *)
Definition cross_note (st : SmartKev.t) (cve : string) : option string :=
  match SmartKev.apple_exploited st !! cve with
  | Some existing =>
      Some ("Known exploited on: " +:+
            join ", " (elements (SmartKev.affected_platforms existing)))
  | None => None
  end.

Definition in_cisa (st : SmartKev.t) (cve : string) : bool :=
  bool_decide (cve ∈ SmartKev.cisa_kevs st).

(** One round of the loop of [enrich_release], in closed form. *)
Lemma enrich_step_closed re_search platform st acc cve :
  let r := SmartKevEnricher.enrich_step re_search platform (st, acc) cve in
  fst r = st /\
  SmartKevEnricher.acc_actively_exploited (snd r)
  = SmartKevEnricher.acc_actively_exploited acc
    ++ List.filter (in_cisa st) [cve] /\
  SmartKevEnricher.acc_cisa_kevs (snd r)
  = SmartKevEnricher.acc_cisa_kevs acc ++ List.filter (in_cisa st) [cve] /\
  SmartKevEnricher.acc_cross_platform_warnings (snd r)
  = SmartKevEnricher.acc_cross_platform_warnings acc
    ++ map (fun c => (c, cross_note st c)) (List.filter (is_warned st platform) [cve]).
Proof.
  cbv zeta. unfold SmartKevEnricher.enrich_step, SmartKev.get_exploitation_status,
    in_cisa, is_warned, cross_note.
  cbn [SmartKev.apple_finding List.filter].
  destruct (decide (cve ∈ SmartKev.cisa_kevs st)) as [Hin|Hn].
  - rewrite (bool_decide_eq_true_2 _ Hin). cbn. repeat split; now rewrite ?app_nil_r.
  - rewrite (bool_decide_eq_false_2 _ Hn). cbn [SmartKev.is_exploited SmartKev.blank_info].
    unfold SmartKev.check_cross_platform_exploitation.
    destruct (SmartKev.apple_exploited st !! cve) as [e|] eqn:E; cbn.
    + destruct (decide (platform ∈ SmartKev.affected_platforms e)) as [Hp|Hp].
      * rewrite (bool_decide_eq_true_2 _ Hp). cbn.
        repeat split; now rewrite ?app_nil_r.
      * rewrite (bool_decide_eq_false_2 _ Hp). cbn. rewrite E.
        repeat split; now rewrite ?app_nil_r.
    + repeat split; now rewrite ?app_nil_r.
Qed.

Lemma enrich_fold_closed re_search platform cves : forall st acc,
  let r := fold_left (SmartKevEnricher.enrich_step re_search platform) cves (st, acc) in
  fst r = st /\
  SmartKevEnricher.acc_actively_exploited (snd r)
  = SmartKevEnricher.acc_actively_exploited acc ++ List.filter (in_cisa st) cves /\
  SmartKevEnricher.acc_cisa_kevs (snd r)
  = SmartKevEnricher.acc_cisa_kevs acc ++ List.filter (in_cisa st) cves /\
  SmartKevEnricher.acc_cross_platform_warnings (snd r)
  = SmartKevEnricher.acc_cross_platform_warnings acc
    ++ map (fun c => (c, cross_note st c)) (List.filter (is_warned st platform) cves).
Proof.
  induction cves as [|c cves IH]; intros st acc; cbv zeta.
  - simpl. now rewrite !app_nil_r.
  - cbn [fold_left].
    pose proof (enrich_step_closed re_search platform st acc c) as Hstep.
    cbv zeta in Hstep.
    destruct (SmartKevEnricher.enrich_step re_search platform (st, acc) c)
      as [st1 acc1].
    cbn [fst snd] in Hstep. destruct Hstep as (-> & Ha & Hc & Hw).
    destruct (IH st acc1) as (H0 & H1 & H2 & H3).
    split; [assumption|].
    rewrite H1, H2, H3, Ha, Hc, Hw, <- !app_assoc.
    change (c :: cves) with ([c] ++ cves).
    now rewrite !List.filter_app, !map_app.
Qed.

(** X5: [enrich_release] asks the detector with no Apple text, so:
    the detector is left unchanged; [actively_exploited_cves] are
    exactly the CVEs of the release that are in the CISA set, in the
    order of the release (a stored Apple finding never marks a CVE
    exploited here); the list of CISA CVEs is the same list, so the key
    [cisa_kevs] is never written; and the warnings are the CVEs outside
    the CISA set whose stored finding does not list the platform, each
    with the note naming the stored platforms. *)
Theorem X5_enrich_release_closed_form :
  forall (re_search : string -> string -> option SmartKev.Match)
         (st : SmartKev.t) (cves : list string) (platform : string),
    let r := SmartKevEnricher.enrich_release re_search st cves platform in
    snd r = st /\
    SmartKevEnricher.actively_exploited_cves (fst r)
    = List.filter (fun c => bool_decide (c ∈ SmartKev.cisa_kevs st)) cves /\
    SmartKevEnricher.actively_exploited_count (fst r)
    = length (List.filter (fun c => bool_decide (c ∈ SmartKev.cisa_kevs st)) cves) /\
    SmartKevEnricher.cisa_kevs_field (fst r) = None /\
    SmartKevEnricher.cross_platform_exploitation_warnings (fst r)
    = match List.filter (is_warned st platform) cves with
      | [] => None
      | l => Some (map (fun c => (c, cross_note st c)) l)
      end.
Proof.
  intros re_search st cves platform. cbv zeta.
  unfold SmartKevEnricher.enrich_release.
  pose proof (enrich_fold_closed re_search platform cves st SmartKevEnricher.acc0) as H.
  cbv zeta in H.
  destruct (fold_left (SmartKevEnricher.enrich_step re_search platform) cves
              (st, SmartKevEnricher.acc0)) as [st' acc].
  cbn [fst snd] in *. destruct H as (-> & Ha & Hc & Hw).
  simpl in Ha, Hc, Hw. fold (in_cisa st).
  rewrite Ha, Hc, Hw. repeat split.
  - destruct (List.filter (in_cisa st) cves); [reflexivity|].
    now rewrite decide_True.
  - now destruct (List.filter (is_warned st platform) cves).
Qed.


(** ** The detector (smart_kev_detector.py) *)

(** The parts of a row of [APPLE_PATTERNS]. *)
Definition row_pattern
  (row : string * SmartKev.ExploitationSource * SmartKev.ExploitationConfidence
         * SmartKev.PatternMeta) : string := fst (fst (fst row)).
Definition row_source
  (row : string * SmartKev.ExploitationSource * SmartKev.ExploitationConfidence
         * SmartKev.PatternMeta) : SmartKev.ExploitationSource := snd (fst (fst row)).
Definition row_confidence
  (row : string * SmartKev.ExploitationSource * SmartKev.ExploitationConfidence
         * SmartKev.PatternMeta) : SmartKev.ExploitationConfidence := snd (fst row).
Definition row_meta
  (row : string * SmartKev.ExploitationSource * SmartKev.ExploitationConfidence
         * SmartKev.PatternMeta) : SmartKev.PatternMeta := snd row.

(** The pattern of the row is found in the text. *)
Definition row_matches (re_search : string -> string -> option SmartKev.Match)
  (text : string)
  (row : string * SmartKev.ExploitationSource * SmartKev.ExploitationConfidence
         * SmartKev.PatternMeta) : bool :=
  match re_search (row_pattern row) text with Some _ => true | None => false end.

(** The record carries the verdict of [row]. *)
Definition verdict_of
  (row : string * SmartKev.ExploitationSource * SmartKev.ExploitationConfidence
         * SmartKev.PatternMeta) (i : SmartKev.ExploitationInfo) : Prop :=
  SmartKev.is_exploited i = SmartKev.md_is_exploited (row_meta row) /\
  SmartKev.confidence i = row_confidence row /\
  SmartKev.is_targeted_attack i = SmartKev.md_is_targeted_attack (row_meta row) /\
  SmartKev.is_physical_attack i = SmartKev.md_is_physical_attack (row_meta row).

Lemma apply_pattern_match re_search text i row :
  row_matches re_search text row = true ->
  verdict_of row (SmartKev.apply_pattern re_search text i row).
Proof.
  destruct row as [[[p s] c] md]. unfold row_matches, row_pattern. simpl.
  unfold SmartKev.apply_pattern. destruct (re_search p text); [|discriminate].
  intros _. repeat split.
Qed.

Lemma apply_pattern_no_match re_search text i row :
  row_matches re_search text row = false ->
  SmartKev.apply_pattern re_search text i row = i.
Proof.
  destruct row as [[[p s] c] md]. unfold row_matches, row_pattern. simpl.
  unfold SmartKev.apply_pattern. now destruct (re_search p text).
Qed.

Lemma apply_pattern_keeps re_search text i row :
  SmartKev.cve_id (SmartKev.apply_pattern re_search text i row) = SmartKev.cve_id i /\
  SmartKev.affected_platforms i
  ⊆ SmartKev.affected_platforms (SmartKev.apply_pattern re_search text i row) /\
  SmartKev.sources (SmartKev.apply_pattern re_search text i row)
  = SmartKev.sources i ++ map row_source (List.filter (row_matches re_search text) [row]).
Proof.
  destruct row as [[[p s] c] md].
  unfold SmartKev.apply_pattern, row_matches, row_pattern. simpl.
  destruct (re_search p text) as [m|]; simpl.
  - split; [reflexivity|]. split; [|reflexivity].
    match goal with
    | |- _ ⊆ match ?x with _ => _ end => destruct x as [[os v]|]
    end; [apply union_subseteq_l | reflexivity].
  - split; [reflexivity|]. split; [reflexivity | now rewrite app_nil_r].
Qed.

(** The loop of [detect_apple_exploitation] over any table of rows:
    the record is untouched when no row matches, and otherwise carries
    the verdict of the last row that matches. *)
Lemma fold_patterns_last re_search text rows : forall i,
  let i' := fold_left (SmartKev.apply_pattern re_search text) rows i in
  (SmartKev.cve_id i' = SmartKev.cve_id i /\
   SmartKev.affected_platforms i ⊆ SmartKev.affected_platforms i' /\
   SmartKev.sources i'
   = SmartKev.sources i ++ map row_source (List.filter (row_matches re_search text) rows)) /\
  ((Forall (fun row => row_matches re_search text row = false) rows /\ i' = i) \/
   exists before row after,
     rows = before ++ row :: after /\
     row_matches re_search text row = true /\
     Forall (fun r => row_matches re_search text r = false) after /\
     verdict_of row i').
Proof.
  induction rows as [|row rows IH]; intros i; cbv zeta.
  - simpl. split; [|left; split; [constructor | reflexivity]].
    split; [reflexivity|]. split; [reflexivity | now rewrite app_nil_r].
  - cbn [fold_left].
    destruct (IH (SmartKev.apply_pattern re_search text i row)) as [(Hc & Hp & Hs) Hl].
    destruct (apply_pattern_keeps re_search text i row) as (Hc0 & Hp0 & Hs0).
    split.
    + split; [congruence|]. split; [etransitivity; eassumption|].
      rewrite Hs, Hs0, <- app_assoc, <- map_app, <- List.filter_app. reflexivity.
    + destruct Hl as [[Hnone Heq]|(b & r & a & -> & Hm & Ha & Hv)].
      * destruct (row_matches re_search text row) eqn:M.
        -- right. exists [], row, rows. repeat split; auto.
           all: rewrite Heq; now apply apply_pattern_match.
        -- left. split; [now constructor|].
           rewrite Heq. now apply apply_pattern_no_match.
      * right. exists (row :: b), r, a. repeat split; auto; apply Hv.
Qed.

Lemma APPLE_PATTERNS_exploited :
  Forall (fun row => SmartKev.md_is_exploited (row_meta row) = true)
         SmartKev.APPLE_PATTERNS.
Proof. unfold SmartKev.APPLE_PATTERNS. repeat constructor. Qed.

(** X6: [detect_apple_exploitation] returns a record exactly when some
    pattern of [APPLE_PATTERNS] matches the text.  The record names the
    CVE, keeps the platform among its affected platforms, lists the
    source of every matching pattern in table order (so a source can
    occur more than once), and takes its confidence and its targeted and
    physical flags from the last matching pattern alone: a flag set by
    an earlier pattern is overwritten. *)
Theorem X6_detect_reports_last_matching_pattern :
  forall (re_search : string -> string -> option SmartKev.Match)
         (cve text platform : string),
    match SmartKev.detect_apple_exploitation re_search cve text platform with
    | None =>
        Forall (fun row => row_matches re_search text row = false)
               SmartKev.APPLE_PATTERNS
    | Some a =>
        SmartKev.is_exploited a = true /\
        SmartKev.cve_id a = cve /\
        platform ∈ SmartKev.affected_platforms a /\
        SmartKev.sources a
        = map row_source
            (List.filter (row_matches re_search text) SmartKev.APPLE_PATTERNS) /\
        exists before row after,
          SmartKev.APPLE_PATTERNS = before ++ row :: after /\
          row_matches re_search text row = true /\
          Forall (fun r => row_matches re_search text r = false) after /\
          SmartKev.confidence a = row_confidence row /\
          SmartKev.is_targeted_attack a
          = SmartKev.md_is_targeted_attack (row_meta row) /\
          SmartKev.is_physical_attack a
          = SmartKev.md_is_physical_attack (row_meta row)
    end.
Proof.
  intros re_search cve text platform.
  unfold SmartKev.detect_apple_exploitation.
  destruct (fold_patterns_last re_search text SmartKev.APPLE_PATTERNS
              (SmartKev.blank_info cve platform)) as [(Hc & Hp & Hs) Hl].
  set (i' := fold_left (SmartKev.apply_pattern re_search text)
               SmartKev.APPLE_PATTERNS (SmartKev.blank_info cve platform)) in *.
  destruct Hl as [[Hnone Heq]|(b & r & a & E & Hm & Ha & Hv)].
  - rewrite Heq. simpl. exact Hnone.
  - destruct Hv as (He & Hcf & Ht & Hph).
    assert (Hex : SmartKev.is_exploited i' = true).
    { rewrite He. pose proof APPLE_PATTERNS_exploited as Hall.
      rewrite E in Hall. apply Forall_app in Hall as [_ Hall].
      now inversion Hall. }
    rewrite Hex. split; [assumption|]. split; [exact Hc|].
    split; [apply Hp; simpl; now apply elem_of_singleton|].
    split; [exact Hs|]. exists b, r, a. repeat split; assumption.
Qed.

Lemma detect_keeps_platform re_search cve text platform a :
  SmartKev.detect_apple_exploitation re_search cve text platform = Some a ->
  SmartKev.cve_id a = cve /\ platform ∈ SmartKev.affected_platforms a.
Proof.
  unfold SmartKev.detect_apple_exploitation.
  destruct (fold_patterns_last re_search text SmartKev.APPLE_PATTERNS
              (SmartKev.blank_info cve platform)) as [(Hc & Hp & _) _].
  destruct (SmartKev.is_exploited _); [|discriminate].
  intros H. injection H as <-. split; [exact Hc|].
  apply Hp. simpl. now apply elem_of_singleton.
Qed.


(** The record [check_cross_platform_exploitation] builds from a
    stored finding. *)
Definition cross_platform_record (cve platform : string)
  (existing : SmartKev.ExploitationInfo) : SmartKev.ExploitationInfo :=
  {| SmartKev.cve_id := cve; SmartKev.is_exploited := false;
     SmartKev.confidence := SmartKev.MEDIUM;
     SmartKev.sources := [SmartKev.CROSS_PLATFORM];
     SmartKev.affected_platforms := {[ platform ]};
     SmartKev.targeted_versions := None;
     SmartKev.is_targeted_attack := false;
     SmartKev.is_physical_attack := false;
     SmartKev.notes :=
       Some ("Known exploited on: " +:+
             join ", " (elements (SmartKev.affected_platforms existing)));
     SmartKev.raw_text := None |}.

(** X7: what [get_exploitation_status] stores and how the store is
    used afterwards.  When the Apple text gives a finding, the record
    returned is the finding (upgraded by the CISA step when the CVE is in
    the CISA set), and that very record is stored under the CVE; the CISA
    set is unchanged and the platform asked about is among the record's
    platforms.  A later question about the same CVE with no text, the CVE
    not being in the CISA set, never reports exploitation from the store:
    for a platform the stored record lists (the original platform
    included) the answer is the blank record (not exploited, confidence
    low, no source), for any other platform it is the cross-platform
    warning naming the stored platforms. *)
Theorem X7_status_stores_finding_for_warnings_only :
  forall (re_search : string -> string -> option SmartKev.Match)
         (st : SmartKev.t) (cve text platform : string)
         (a : SmartKev.ExploitationInfo),
    SmartKev.apple_finding re_search cve (Some text) platform = Some a ->
    let r1 := SmartKev.get_exploitation_status re_search st cve (Some text) platform in
    let stored := if decide (cve ∈ SmartKev.cisa_kevs st)
                  then SmartKev.cisa_upgrade a else a in
    fst r1 = stored /\
    SmartKev.is_exploited stored = true /\
    SmartKev.apple_exploited (snd r1) !! cve = Some stored /\
    SmartKev.cisa_kevs (snd r1) = SmartKev.cisa_kevs st /\
    platform ∈ SmartKev.affected_platforms stored /\
    (cve ∉ SmartKev.cisa_kevs st ->
     forall other : string,
       let r2 := fst (SmartKev.get_exploitation_status re_search (snd r1)
                        cve None other) in
       (other ∈ SmartKev.affected_platforms a ->
        r2 = SmartKev.blank_info cve other) /\
       (other ∉ SmartKev.affected_platforms a ->
        r2 = cross_platform_record cve other a)).
Proof.
  intros re_search st cve text platform a Hf. cbv zeta.
  assert (Ha : SmartKev.is_exploited a = true /\
               platform ∈ SmartKev.affected_platforms a).
  { unfold SmartKev.apple_finding in Hf.
    destruct (truthy text); [|discriminate].
    split; [now apply (SmartKev.detect_ok _ _ _ _ _ Hf)|].
    now apply (detect_keeps_platform _ _ _ _ _ Hf). }
  destruct Ha as [Hex Hpl].
  set (stored := if decide (cve ∈ SmartKev.cisa_kevs st)
                 then SmartKev.cisa_upgrade a else a).
  assert (Hst : SmartKev.is_exploited stored = true /\
                platform ∈ SmartKev.affected_platforms stored).
  { subst stored. destruct (decide (cve ∈ SmartKev.cisa_kevs st)); auto. }
  destruct Hst as [Hsx Hsp].
  assert (Hr1 : SmartKev.get_exploitation_status re_search st cve (Some text) platform
                = (stored, {| SmartKev.cisa_kevs := SmartKev.cisa_kevs st;
                              SmartKev.apple_exploited :=
                                <[ cve := stored ]> (SmartKev.apple_exploited st) |})).
  { unfold SmartKev.get_exploitation_status. rewrite Hf. fold stored.
    now rewrite Hsx. }
  rewrite Hr1. cbn [fst snd SmartKev.apple_exploited SmartKev.cisa_kevs].
  split; [reflexivity|]. split; [assumption|].
  split; [apply lookup_insert_eq|]. split; [reflexivity|].
  split; [assumption|]. intros Hn other.
  unfold SmartKev.get_exploitation_status.
  cbn [SmartKev.apple_finding SmartKev.cisa_kevs].
  destruct (decide (cve ∈ SmartKev.cisa_kevs st)) as [|_]; [contradiction|].
  cbn [SmartKev.is_exploited SmartKev.blank_info].
  unfold SmartKev.check_cross_platform_exploitation.
  cbn [SmartKev.apple_exploited]. rewrite lookup_insert_eq.
  subst stored. destruct (decide (cve ∈ SmartKev.cisa_kevs st)); [contradiction|].
  destruct (decide (other ∈ SmartKev.affected_platforms a)); cbn [fst];
    split; intros; try contradiction; reflexivity.
Qed.

(** X7, on a detector with an empty CISA set that reads an iOS note and
    is then asked about macOS. *)
Lemma X7_status_stores_finding_witness :
  SmartKev.notes
    (fst (SmartKev.get_exploitation_status SmartKev.literal_search
            (snd (SmartKev.get_exploitation_status SmartKev.literal_search
                    {| SmartKev.cisa_kevs := ∅; SmartKev.apple_exploited := ∅ |}
                    "CVE-2025-24085"
                    (Some "Impact: Apple is aware of a report that this issue may have been exploited.")
                    "iOS"))
            "CVE-2025-24085" None "macOS"))
  = Some "Known exploited on: iOS".
Proof.
  destruct (X7_status_stores_finding_for_warnings_only SmartKev.literal_search
              {| SmartKev.cisa_kevs := ∅; SmartKev.apple_exploited := ∅ |}
              "CVE-2025-24085"
              "Impact: Apple is aware of a report that this issue may have been exploited."
              "iOS" _ eq_refl) as (_ & _ & _ & _ & _ & H).
  destruct (H (not_elem_of_empty _) "macOS") as [_ H2].
  rewrite H2; [vm_compute; reflexivity|].
  vm_compute. intros E. discriminate E.
Defined.
